(** * Modified UTF-8 codec of HotSpot: [utilities/utf8.cpp]

    A shallow embedding of the functions of
    [src/hotspot/share/utilities/utf8.cpp] and the properties of its
    specification.

    Conventions of the embedding.
    - A byte, a [jchar] and every other C integer is a [Z]; each conversion
      the C code performs is written out as a cast ([u_char], [jchar],
      [unsigned_short], ...), that is, as the wrap-around of that type.
    - A [const char*] is the list of the bytes found from the pointer on;
      [ptr + n] is [drop n ptr] and [&buffer[i]] is [drop i buffer].  A C
      string ends with NUL, so a read past the listed bytes sees [0].
    - Buffers that are written are lists updated in place with [store], which
      stops with [OutOfBounds] on an index outside the buffer.  A failed
      [assert] stops with [AssertionFailure], [ShouldNotReachHere()] with
      [Unreachable].
    - Indices and sizes that count positions of a list ([size_t] and [int]
      loop counters, [buflen]) are [nat].  An [int length] that bounds a loop
      is the number of its turns; where the source narrows a [size_t] to it
      with [static_cast<int>], the cast is written out ([int_turns]).  A
      [size_t] that the code increments or decrements on its own ([num_chars]
      of [unicode_length], [length] of [from_quoted_ascii]) is a [Z] with its
      wrap-around.
    - A loop with a bound is a [Fixpoint] on the turns that are left; the
      byte loop of the validator, whose index jumps, is defined by
      well-founded recursion on [length - i], and the loops
      [while (ptr < end)] of the quoted-ASCII functions, which advance by
      what [UTF8::next] consumes, on [utf8_end - ptr]; the loops of
      [from_quoted_ascii], which have no bound, take fuel. *)

From stdpp Require Import base option list numbers.
From Equations Require Import Equations.
From Stdlib Require Import ZArith Lia.

Local Open Scope Z_scope.

(** ** Machine integers *)

(** The types [jchar], [jbyte] and [u_char] are declared outside the sources;
    the specification has code units of 16 bits and of 8 bits and bytes. *)

(** [(unsigned char) z] and [(u_char) z] *)
Definition u_char (z : Z) : Z := z mod 256.

(** [(char) z].  Whether [char] is signed depends on the platform; it is
    taken signed here.  Every [char] variable of [utf8_write] holds a value
    below 128, and the tests of [from_quoted_ascii] on a [char] come out the
    same for a signed and an unsigned [char] ([char_tests_any_sign]). *)
Definition char (z : Z) : Z := (z + 128) mod 256 - 128.

(** [(jbyte) z]: signed 8 bits *)
Definition jbyte (z : Z) : Z := (z + 128) mod 256 - 128.

(** [(jchar) z] and [(unsigned short) z]: unsigned 16 bits *)
Definition jchar (z : Z) : Z := z mod 65536.
Definition unsigned_short (z : Z) : Z := z mod 65536.

(** [(size_t) z]: unsigned 64 bits *)
Definition size_t (z : Z) : Z := z mod 2 ^ 64.

Definition INT_MAX : Z := 2 ^ 31 - 1.

(** ** Outcomes of a call *)

(** Modelled from the spec: the macros [assert] and [ShouldNotReachHere] of
    [utilities/debug.hpp] are not among the sources.  The specification makes
    a violated precondition and an unrecognised escape fatal: the call stops
    there and returns nothing. *)
Inductive fault : Type :=
  | OutOfBounds        (* a store outside the buffer *)
  | AssertionFailure   (* [assert(...)] *)
  | Unreachable        (* [ShouldNotReachHere()] *)
  | OutOfFuel.         (* the loop was still running when the fuel ended *)

Inductive res (A : Type) : Type :=
  | Ok (a : A)
  | Stop (f : fault).
Arguments Ok {A} a.
Arguments Stop {A} f.

Definition bind {A B : Type} (m : res A) (k : A → res B) : res B :=
  match m with
  | Ok a => k a
  | Stop f => Stop f
  end.

Notation "x <- m ;; k" := (bind m (fun x => k))
  (at level 100, m at next level, right associativity).

(** Modelled from the spec: [assert(b, ...)], a fatal assertion. *)
Definition c_assert (b : bool) : res unit :=
  if b then Ok tt else Stop AssertionFailure.

(** [static_cast<int>(z)]: the value modulo 2^32, as a signed number *)
Definition static_cast_int (z : Z) : Z := (z + 2 ^ 31) mod 2 ^ 32 - 2 ^ 31.

(** [checked_cast<int>] of [utilities/checkedCast.hpp] is not among the
    sources: [unicode_length] takes it as a parameter, and what is proved of
    its result assumes that the cast returns a value that fits an [int]
    unchanged.  This is one such cast: the [static_cast], guarded. *)
Definition guarded_cast_int (z : Z) : res Z :=
  _ <- c_assert (static_cast_int z =? z);;
  Ok (static_cast_int z).

(** Values a well-typed byte and a well-typed [jchar] can have. *)
Definition is_byte (b : Z) : Prop := 0 <= b < 256.
Definition is_jchar (c : Z) : Prop := 0 <= c < 65536.
Definition is_jbyte (c : Z) : Prop := -128 <= c < 128.

(** ** Memory *)

(** [str[i]] for a string or a buffer that is only read *)
Definition byte_at (str : list Z) (i : nat) : Z := default 0 (str !! i).

(** [base[i]] for an array of code units *)
Definition unit_at (base : list Z) (i : nat) : Z := default 0 (base !! i).

(** [mem[i] = v], failing outside the buffer *)
Definition store (mem : list Z) (i : nat) (v : Z) : res (list Z) :=
  if decide (i < length mem)%nat then Ok (<[i := v]> mem) else Stop OutOfBounds.

(** [strlen(str)] *)
Fixpoint strlen (str : list Z) : nat :=
  match str with
  | [] => 0%nat
  | c :: str' => if c =? 0 then 0%nat else S (strlen str')
  end.

(** ** File-level helpers *)

(** [static u_char* utf8_write(u_char* base, jchar ch)]: the buffer after the
    writes and the index of the returned pointer. *)
Definition utf8_write (mem : list Z) (base : nat) (ch : Z) : res (list Z * nat) :=
  if negb (ch =? 0) && (ch <=? 0x7f) then
    mem <- store mem base (u_char ch);;
    Ok (mem, (base + 1)%nat)
  else if ch <=? 0x7FF then
    (* 11 bits or less. *)
    let high_five := u_char (Z.shiftr ch 6) in
    let low_six := u_char (Z.land ch 0x3F) in
    mem <- store mem base (u_char (Z.lor high_five 0xC0));;
    mem <- store mem (base + 1) (u_char (Z.lor low_six 0x80));;
    Ok (mem, (base + 2)%nat)
  else
    (* possibly full 16 bits. *)
    let high_four := char (Z.shiftr ch 12) in
    let mid_six := char (Z.land (Z.shiftr ch 6) 0x3F) in
    let low_six := char (Z.land ch 0x3f) in
    mem <- store mem base (u_char (Z.lor high_four 0xE0));;
    mem <- store mem (base + 1) (u_char (Z.lor mid_six 0x80));;
    mem <- store mem (base + 2) (u_char (Z.lor low_six 0x80));;
    Ok (mem, (base + 3)%nat).

(** [static bool is_starting_byte(unsigned char b)] *)
Definition is_starting_byte (b : Z) : bool := (0xC0 <=? b) && (b <=? 0xEF).

(** The digit [d] in 0..15 as a lowercase hexadecimal character. *)
Definition hex_digit (d : Z) : Z := if d <? 10 then 48 + d else 87 + d.

(** Modelled from the spec: [os::snprintf_checked] of [runtime/os.hpp] is not
    among the sources.  The call [os::snprintf_checked(p, 7, "\\u%04x", c)]
    emits, for a [jchar c], a backslash, the letter u and four lowercase hex
    digits of the value, and the terminating zero: seven bytes from [p] on. *)
Definition snprintf_u04x (mem : list Z) (p : nat) (c : Z) : res (list Z) :=
  mem <- store mem p 92;;
  mem <- store mem (p + 1) 117;;
  mem <- store mem (p + 2) (hex_digit (Z.shiftr c 12 mod 16));;
  mem <- store mem (p + 3) (hex_digit (Z.shiftr c 8 mod 16));;
  mem <- store mem (p + 4) (hex_digit (Z.shiftr c 4 mod 16));;
  mem <- store mem (p + 5) (hex_digit (c mod 16));;
  store mem (p + 6) 0.

Module UTF8.

(** The [switch] of [UTF8::next]: [None] is the "bad length" [-1], otherwise
    the [jchar result] and the [length]. *)
Definition next_switch (ptr : list Z) : option (Z * nat) :=
  let ch := byte_at ptr 0 in
  match Z.shiftr ch 4 with
  | 0x8 | 0x9 | 0xA | 0xB | 0xF =>
      (* Shouldn't happen. *)
      None
  | 0xC | 0xD =>
      (* 110xxxxx  10xxxxxx *)
      let ch2 := byte_at ptr 1 in
      if Z.land ch2 0xC0 =? 0x80 then
        let high_five := u_char (Z.land ch 0x1F) in
        let low_six := u_char (Z.land ch2 0x3F) in
        Some (jchar (Z.shiftl high_five 6 + low_six), 2%nat)
      else None
  | 0xE =>
      (* 1110xxxx 10xxxxxx 10xxxxxx *)
      let ch2 := byte_at ptr 1 in
      if Z.land ch2 0xC0 =? 0x80 then
        let ch3 := byte_at ptr 2 in
        if Z.land ch3 0xC0 =? 0x80 then
          let high_four := u_char (Z.land ch 0x0f) in
          let mid_six := u_char (Z.land ch2 0x3f) in
          let low_six := u_char (Z.land ch3 0x3f) in
          Some (jchar (Z.shiftl (Z.shiftl high_four 6 + mid_six) 6 + low_six), 3%nat)
        else None
      else None
  | _ => Some (jchar ch, 1%nat)
  end.

(** [template<typename T> char* UTF8::next(const char* str, T* value)]: the
    value stored in [*value] and the number of bytes the returned pointer lies
    after [str].  [T] is given by its cast: [jchar] or [jbyte]. *)
Definition next (T : Z → Z) (str : list Z) : Z * nat :=
  match next_switch str with
  | None =>
      (* default bad result; make progress somehow *)
      (T (byte_at str 0), 1%nat)
  | Some (result, length) => (T result, length)
  end.

(** [bool UTF8::is_supplementary_character(const unsigned char* str)] *)
Definition is_supplementary_character (str : list Z) : bool :=
  (Z.land (byte_at str 0) 0xFF =? 0xED) && (Z.land (byte_at str 1) 0xF0 =? 0xA0)
  && (Z.land (byte_at str 2) 0xC0 =? 0x80)
  && (Z.land (byte_at str 3) 0xFF =? 0xED) && (Z.land (byte_at str 4) 0xF0 =? 0xB0)
  && (Z.land (byte_at str 5) 0xC0 =? 0x80).

(** [jint UTF8::get_supplementary_character(const unsigned char* str)] *)
Definition get_supplementary_character (str : list Z) : Z :=
  0x10000 + Z.shiftl (Z.land (byte_at str 1) 0x0f) 16
          + Z.shiftl (Z.land (byte_at str 2) 0x3f) 10
          + Z.shiftl (Z.land (byte_at str 4) 0x0f) 6
          + Z.land (byte_at str 5) 0x3f.

(** [char* UTF8::next_character(const char* str, jint* value)] *)
Definition next_character (str : list Z) : Z * nat :=
  if is_supplementary_character str then
    (get_supplementary_character str, 6%nat)
  else
    let '(result, next_ch) := next jchar str in
    (result, next_ch).

(** The variables of the loop of [UTF8::unicode_length] *)
Record unicode_length_vars : Type := {
  num_chars : Z;
  is_latin1 : bool;
  has_multibyte : bool;
  prev : Z
}.

(** One turn of the loop of [unicode_length] (length-known variant), on the
    byte [c]: [num_chars] starts from [len] and is decremented. *)
Definition unicode_length_body (c : Z) (vars : unicode_length_vars) : unicode_length_vars :=
  if Z.land c 0xC0 =? 0x80 then
    (* Multibyte, check if valid latin1 character. *)
    {| num_chars := size_t (num_chars vars - 1);
       is_latin1 := if 0xC3 <? prev vars then false else is_latin1 vars;
       has_multibyte := true;
       prev := c |}
  else
    {| num_chars := num_chars vars;
       is_latin1 := is_latin1 vars;
       has_multibyte := has_multibyte vars;
       prev := c |}.

(** [for (size_t i = 0; i < len; i++)] with [n] turns left *)
Fixpoint unicode_length_loop (str : list Z) (n i : nat) (vars : unicode_length_vars)
    : unicode_length_vars :=
  match n with
  | O => vars
  | S n' =>
      let c := u_char (byte_at str i) in
      unicode_length_loop str n' (i + 1) (unicode_length_body c vars)
  end.

(** [int UTF8::unicode_length(const char* str, size_t len, bool& is_latin1,
    bool& has_multibyte)]: the result and the two flags. *)
Definition unicode_length (checked_cast_int : Z → res Z) (str : list Z) (len : nat)
    : res (Z * bool * bool) :=
  let vars := unicode_length_loop str len 0
                {| num_chars := Z.of_nat len; is_latin1 := true;
                   has_multibyte := false; prev := 0 |} in
  r <- checked_cast_int (num_chars vars);;
  Ok (r, is_latin1 vars, has_multibyte vars).

(** The first loop of [UTF8::is_legal_utf8]: [k] blocks of four bytes are left
    to try and [i] is the index reached.  The result is the index the second
    loop starts from. *)
Fixpoint is_legal_utf8_blocks (buffer : list Z) (k : nat) (i : nat) : nat :=
  match k with
  | O => i
  | S k' =>
      let b0 := byte_at buffer i in
      let b1 := byte_at buffer (i + 1) in
      let b2 := byte_at buffer (i + 2) in
      let b3 := byte_at buffer (i + 3) in
      let res := u_char (Z.lor (Z.lor (Z.lor (Z.lor (Z.lor (Z.lor (Z.lor
                     b0 (b0 - 1)) b1) (b1 - 1)) b2) (b2 - 1)) b3) (b3 - 1)) in
      if 128 <=? res then i
      else is_legal_utf8_blocks buffer k' (i + 4)
  end.

(** The second loop of [UTF8::is_legal_utf8], [for(; i < length; i++)], from
    index [i].  A [continue] and a [break] out of the [switch] both reach the
    [i++] of the loop.  The value [c] of a supplementary character is computed
    by the source and never read. *)
Equations? is_legal_utf8_bytes (buffer : list Z) (length : nat)
    (version_leq_47 : bool) (i : nat) : bool by wf (length - i)%nat lt :=
is_legal_utf8_bytes buffer length version_leq_47 i with decide (i < length)%nat := {
  | right _ => true
  | left _ =>
    (* no embedded zeros *)
    if byte_at buffer i =? 0 then false
    else if byte_at buffer i <? 128 then
      is_legal_utf8_bytes buffer length version_leq_47 (i + 1)
    else if (i + 5 <? length)%nat && is_supplementary_character (drop i buffer) then
      is_legal_utf8_bytes buffer length version_leq_47 (i + 5 + 1)
    else
      match Z.shiftr (byte_at buffer i) 4 with
      | 0x8 | 0x9 | 0xA | 0xB | 0xF => false
      | 0xC | 0xD =>
          (* 110xxxxx  10xxxxxx *)
          let c := unsigned_short (Z.shiftl (Z.land (byte_at buffer i) 0x1F) 6) in
          let i1 := (i + 1)%nat in
          if (i1 <? length)%nat && (Z.land (byte_at buffer i1) 0xC0 =? 0x80) then
            let c := unsigned_short (c + Z.land (byte_at buffer i1) 0x3F) in
            if version_leq_47 || (c =? 0) || (0x80 <=? c) then
              is_legal_utf8_bytes buffer length version_leq_47 (i1 + 1)
            else false
          else false
      | 0xE =>
          (* 1110xxxx 10xxxxxx 10xxxxxx *)
          let c := unsigned_short (Z.shiftl (Z.land (byte_at buffer i) 0xF) 12) in
          let i2 := (i + 2)%nat in
          if (i2 <? length)%nat && (Z.land (byte_at buffer (i2 - 1)) 0xC0 =? 0x80)
             && (Z.land (byte_at buffer i2) 0xC0 =? 0x80) then
            let c := unsigned_short
                       (c + (Z.shiftl (Z.land (byte_at buffer (i2 - 1)) 0x3F) 6
                             + Z.land (byte_at buffer i2) 0x3F)) in
            if version_leq_47 || (0x800 <=? c) then
              is_legal_utf8_bytes buffer length version_leq_47 (i2 + 1)
            else false
          else false
      | _ => is_legal_utf8_bytes buffer length version_leq_47 (i + 1)
      end }.
Proof. all: try subst i1; try subst i2; lia. Qed.

(** [bool UTF8::is_legal_utf8(const unsigned char* buffer, size_t length,
    bool version_leq_47)] *)
Definition is_legal_utf8 (buffer : list Z) (length : nat) (version_leq_47 : bool) : bool :=
  let count := Nat.shiftr length 2 in
  let i := is_legal_utf8_blocks buffer count 0 in
  is_legal_utf8_bytes buffer length version_leq_47 i.

(** The validator the specification compares [is_legal_utf8] with: the
    byte-by-byte phase run from index 0, with no fast path. *)
Definition is_legal_utf8_no_fast_path (buffer : list Z) (length : nat)
    (version_leq_47 : bool) : bool :=
  is_legal_utf8_bytes buffer length version_leq_47 0.

(** The loop of [UTF8::truncate_to_legal_utf8],
    [for (size_t index = length - 2; index > 0; index--)], from [index]. *)
Fixpoint truncate_to_legal_utf8_scan (buffer : list Z) (index : nat) : res (list Z) :=
  match index with
  | O => Ok buffer
  | S index' =>
      if is_starting_byte (byte_at buffer index) then
        index <-
          (if byte_at buffer index =? 0xED then
             (* Could be first byte of 3 or 6, or fourth byte of 6. *)
             if (3 <=? index)%nat
                && (byte_at buffer (index - 3) =? 0xED)
                && (Z.land (byte_at buffer (index - 2)) 0xF0 =? 0xA0) then
               _ <- c_assert ((0x80 <=? byte_at buffer (index - 1))
                              && (byte_at buffer (index - 1) <=? 0xBF));;
               (* It was fourth byte so truncate 3 bytes earlier *)
               Ok (index - 3)%nat
             else Ok index
           else Ok index);;
        store buffer index 0
      else truncate_to_legal_utf8_scan buffer index'
  end.

(** [void UTF8::truncate_to_legal_utf8(unsigned char* buffer, size_t length)]:
    the buffer when the call returns. *)
Definition truncate_to_legal_utf8 (buffer : list Z) (length : nat) : res (list Z) :=
  _ <- c_assert (5 <? length)%nat;;
  _ <- c_assert (byte_at buffer (length - 1) =? 0);;
  if byte_at buffer (length - 2) <? 128 then
    (* valid "ascii" - common case *)
    Ok buffer
  else truncate_to_legal_utf8_scan buffer (length - 2).

(** What [UTF8::from_quoted_ascii] returns: the pointer it was given, or a new
    array. *)
Inductive from_quoted_ascii_result : Type :=
  | Original
  | Converted (buffer : list Z).

(** The first loop of [UTF8::from_quoted_ascii],
    [while ( *ptr != 0 ) { char c = *ptr; if (c < 32 || c >= 127) break; }]:
    the [ptr] the loop is left with.  Each turn takes one unit of fuel. *)
Fixpoint from_quoted_ascii_scan (fuel : nat) (str : list Z) (ptr : nat) : res nat :=
  match fuel with
  | O => Stop OutOfFuel
  | S fuel' =>
      if negb (byte_at str ptr =? 0) then
        let c := char (byte_at str ptr) in
        if (c <? 32) || (127 <=? c) then Ok ptr
        else from_quoted_ascii_scan fuel' str ptr
      else Ok ptr
  end.

(** [for (int i=0; i<4; i++) { char c = *ptr++; switch (c) ... }] with [n]
    turns left: the [ptr] and the [jchar value] after the loop.  The digits
    are ['0'] = 48 .. ['9'] = 57, ['a'] = 97 .. ['f'] = 102 and
    ['A'] = 65 .. ['F'] = 70. *)
Fixpoint from_quoted_ascii_hex (str : list Z) (n : nat) (ptr : nat) (value : Z)
    : res (nat * Z) :=
  match n with
  | O => Ok (ptr, value)
  | S n' =>
      let c := char (byte_at str ptr) in
      let ptr := (ptr + 1)%nat in
      if (48 <=? c) && (c <=? 57) then
        from_quoted_ascii_hex str n' ptr (jchar (Z.shiftl value 4 + c - 48))
      else if (97 <=? c) && (c <=? 102) then
        from_quoted_ascii_hex str n' ptr (jchar (Z.shiftl value 4 + 10 + c - 97))
      else if (65 <=? c) && (c <=? 70) then
        from_quoted_ascii_hex str n' ptr (jchar (Z.shiftl value 4 + 10 + c - 65))
      else Stop Unreachable
  end.

(** The variables of the two rounds of [from_quoted_ascii]; [buffer] is
    [None] for [nullptr]. *)
Record from_quoted_ascii_vars : Type := {
  fq_ptr : nat;
  fq_buffer : option (list Z);
  fq_length : Z
}.

(** [if (buffer != nullptr) buffer[length] = c;] *)
Definition from_quoted_ascii_put (buffer : option (list Z)) (length : Z) (c : Z)
    : res (option (list Z)) :=
  match buffer with
  | Some b => b' <- store b (Z.to_nat length) c;; Ok (Some b')
  | None => Ok None
  end.

(** The loop [while ( *ptr != 0 )] of one round.  The characters are
    ['\\'] = 92, ['u'] = 117, ['t'] = 116, ['n'] = 110, ['r'] = 114 and
    ['f'] = 102; the escapes stand for 9, 10, 13 and 12.  Each turn takes one
    unit of fuel. *)
Fixpoint from_quoted_ascii_round (fuel : nat) (str : list Z) (ptr : nat)
    (buffer : option (list Z)) (length : Z) : res from_quoted_ascii_vars :=
  match fuel with
  | O => Stop OutOfFuel
  | S fuel' =>
      if byte_at str ptr =? 0 then
        Ok {| fq_ptr := ptr; fq_buffer := buffer; fq_length := length |}
      else if negb (byte_at str ptr =? 92) then
        buffer <- from_quoted_ascii_put buffer length (byte_at str ptr);;
        from_quoted_ascii_round fuel' str ptr buffer (size_t (length + 1))
      else
        let e := byte_at str (ptr + 1) in
        if e =? 117 then
          h <- from_quoted_ascii_hex str 4 (ptr + 2) 0;;
          match buffer with
          | None =>
              (* char utf8_buffer[4]; *)
              w <- utf8_write [0; 0; 0; 0] 0 (snd h);;
              from_quoted_ascii_round fuel' str (fst h) None
                (size_t (length + Z.of_nat (snd w)))
          | Some b =>
              w <- utf8_write b (Z.to_nat length) (snd h);;
              from_quoted_ascii_round fuel' str (fst h) (Some (fst w))
                (size_t (length + (Z.of_nat (snd w) - length)))
          end
        else if e =? 116 then
          buffer <- from_quoted_ascii_put buffer length 9;;
          from_quoted_ascii_round fuel' str (ptr + 2) buffer (size_t (length + 1))
        else if e =? 110 then
          buffer <- from_quoted_ascii_put buffer length 10;;
          from_quoted_ascii_round fuel' str (ptr + 2) buffer (size_t (length + 1))
        else if e =? 114 then
          buffer <- from_quoted_ascii_put buffer length 13;;
          from_quoted_ascii_round fuel' str (ptr + 2) buffer (size_t (length + 1))
        else if e =? 102 then
          buffer <- from_quoted_ascii_put buffer length 12;;
          from_quoted_ascii_round fuel' str (ptr + 2) buffer (size_t (length + 1))
        else Stop Unreachable
  end.

(** [const char* UTF8::from_quoted_ascii(const char* quoted_ascii_str)].
    [fuel] bounds the turns of each [while] loop; [NEW_RESOURCE_ARRAY] is the
    allocator of the resource area.  The [for] over the two rounds is written
    out: round 0 measures with [buffer == nullptr], round 1 writes. *)
Definition from_quoted_ascii (NEW_RESOURCE_ARRAY : nat → list Z) (fuel : nat)
    (quoted_ascii_str : list Z) : res from_quoted_ascii_result :=
  ptr <- from_quoted_ascii_scan fuel quoted_ascii_str 0;;
  if byte_at quoted_ascii_str ptr =? 0 then
    (* nothing to do so return original string *)
    Ok Original
  else
    (* everything up to this point was ok. *)
    let length := Z.of_nat ptr in
    vars <- from_quoted_ascii_round fuel quoted_ascii_str ptr None length;;
    let buffer := NEW_RESOURCE_ARRAY (Z.to_nat (size_t (fq_length vars + 1))) in
    vars <- from_quoted_ascii_round fuel quoted_ascii_str 0 (Some buffer) (fq_length vars);;
    match fq_buffer vars with
    | Some buffer =>
        buffer <- store buffer (Z.to_nat (fq_length vars)) 0;;
        Ok (Converted buffer)
    | None => Ok Original
    end.

(** The first loop of [UTF8::convert_to_unicode], the ASCII case, with [n]
    turns left: the array, [ptr] and [index] when the loop is left. *)
Fixpoint convert_to_unicode_ascii (T : Z → Z) (utf8_str : list Z) (n : nat)
    (unicode_str : list Z) (ptr index : nat) : res (list Z * nat * nat) :=
  match n with
  | O => Ok (unicode_str, ptr, index)
  | S n' =>
      let ch := u_char (byte_at utf8_str ptr) in
      if 0x7F <? ch then Ok (unicode_str, ptr, index)
      else
        unicode_str <- store unicode_str index (T ch);;
        convert_to_unicode_ascii T utf8_str n' unicode_str (ptr + 1) (index + 1)
  end.

(** The second loop of [UTF8::convert_to_unicode], with [n] turns left. *)
Fixpoint convert_to_unicode_next (T : Z → Z) (utf8_str : list Z) (n : nat)
    (unicode_str : list Z) (ptr index : nat) : res (list Z * nat) :=
  match n with
  | O => Ok (unicode_str, ptr)
  | S n' =>
      let r := next T (drop ptr utf8_str) in
      unicode_str <- store unicode_str index (fst r);;
      convert_to_unicode_next T utf8_str n' unicode_str (ptr + snd r) (index + 1)
  end.

(** [template<typename T> void UTF8::convert_to_unicode(const char* utf8_str,
    T* unicode_str, int unicode_length)]: the array [unicode_str] when the call
    returns. *)
Definition convert_to_unicode (T : Z → Z) (utf8_str : list Z) (unicode_str : list Z)
    (unicode_length : nat) : res (list Z) :=
  a <- convert_to_unicode_ascii T utf8_str unicode_length unicode_str 0 0;;
  let unicode_str := fst (fst a) in
  let ptr := snd (fst a) in
  let index := snd a in
  r <- convert_to_unicode_next T utf8_str (unicode_length - index) unicode_str ptr index;;
  Ok (fst r).

(** One turn of the loop of [unicode_length] (NUL-terminated variant), on
    the byte [c]: [num_chars] is an [int] that counts up.  An [int] that
    overflows is written as the wrap-around of the targets. *)
Definition unicode_length_nul_body (c : Z) (vars : unicode_length_vars)
    : unicode_length_vars :=
  if Z.land c 0xC0 =? 0x80 then
    (* Multibyte, check if valid latin1 character. *)
    {| num_chars := num_chars vars;
       is_latin1 := if 0xC3 <? prev vars then false else is_latin1 vars;
       has_multibyte := true;
       prev := c |}
  else
    {| num_chars := static_cast_int (num_chars vars + 1);
       is_latin1 := is_latin1 vars;
       has_multibyte := has_multibyte vars;
       prev := c |}.

(** [for (const char* p = str; *p; p++)]: [p] is the list that is left. *)
Fixpoint unicode_length_nul_loop (p : list Z) (vars : unicode_length_vars)
    : unicode_length_vars :=
  match p with
  | [] => vars
  | b :: p' =>
      if b =? 0 then vars
      else unicode_length_nul_loop p' (unicode_length_nul_body (u_char b) vars)
  end.

(** [int UTF8::unicode_length(const char* str, bool& is_latin1,
    bool& has_multibyte)]: the result and the two flags. *)
Definition unicode_length_nul (str : list Z) : Z * bool * bool :=
  let vars := unicode_length_nul_loop str
                {| num_chars := 0; is_latin1 := true;
                   has_multibyte := false; prev := 0 |} in
  (num_chars vars, is_latin1 vars, has_multibyte vars).

(** [ptr = UTF8::next(ptr, &c)] with a [jchar c]: the character stored in
    [c], and the new value of [ptr]. *)
Definition next_c (utf8_str : list Z) (ptr : nat) : Z :=
  fst (next jchar (drop ptr utf8_str)).

Definition next_ptr (utf8_str : list Z) (ptr : nat) : nat :=
  (ptr + snd (next jchar (drop ptr utf8_str)))%nat.

(** The loop of [UTF8::quoted_ascii_length], [while (ptr < end)], from [ptr].
    Each turn moves [ptr] forward, by what [UTF8::next] consumes. *)
Equations? quoted_ascii_length_loop (utf8_str : list Z) (utf8_end : nat)
    (ptr : nat) (result : nat) : nat by wf (utf8_end - ptr)%nat lt :=
quoted_ascii_length_loop utf8_str utf8_end ptr result with decide (ptr < utf8_end)%nat := {
  | right _ => result
  | left _ =>
    if (32 <=? next_c utf8_str ptr) && (next_c utf8_str ptr <? 127) then
      quoted_ascii_length_loop utf8_str utf8_end (next_ptr utf8_str ptr) (result + 1)
    else
      quoted_ascii_length_loop utf8_str utf8_end (next_ptr utf8_str ptr) (result + 6) }.
Proof.
  all: assert (1 ≤ snd (next jchar (drop ptr utf8_str)))%nat; [|unfold next_ptr; lia].
  all: unfold next; destruct (next_switch _) as [[v k]|] eqn:E; simpl; [|lia].
  all: revert E; unfold next_switch.
  all: destruct (Z.shiftr _ 4) as [|q|q]; [intros [= _ <-]; lia| |intros [= _ <-]; lia].
  all: do 4 (try destruct q as [q|q|]);
    repeat case_match; intros [= _ <-] || intros [=]; lia.
Qed.

(** [size_t UTF8::quoted_ascii_length(const char* utf8_str, size_t utf8_length)] *)
Definition quoted_ascii_length (utf8_str : list Z) (utf8_length : nat) : nat :=
  quoted_ascii_length_loop utf8_str utf8_length 0 0.

(** The loop of [UTF8::as_quoted_ascii] from [ptr]: the buffer and [p] when
    the loop is left; [buf + buflen] is [end_]. *)
Equations? as_quoted_ascii_loop (utf8_str : list Z) (utf8_end : nat) (ptr : nat)
    (mem : list Z) (p end_ : nat) : res (list Z * nat) by wf (utf8_end - ptr)%nat lt :=
as_quoted_ascii_loop utf8_str utf8_end ptr mem p end_ with decide (ptr < utf8_end)%nat := {
  | right _ => Ok (mem, p)
  | left _ =>
    if (32 <=? next_c utf8_str ptr) && (next_c utf8_str ptr <? 127) then
      if (end_ <=? p + 1)%nat then Ok (mem, p)      (* string is truncated *)
      else
        bind (store mem p (char (next_c utf8_str ptr)))
          (fun mem => as_quoted_ascii_loop utf8_str utf8_end (next_ptr utf8_str ptr)
                        mem (p + 1) end_)
    else
      if (end_ <=? p + 6)%nat then Ok (mem, p)      (* string is truncated *)
      else
        bind (snprintf_u04x mem p (next_c utf8_str ptr))
          (fun mem => as_quoted_ascii_loop utf8_str utf8_end (next_ptr utf8_str ptr)
                        mem (p + 6) end_) }.
Proof.
  all: assert (1 ≤ snd (next jchar (drop ptr utf8_str)))%nat; [|unfold next_ptr; lia].
  all: unfold next; destruct (next_switch _) as [[v k]|] eqn:E; simpl; [|lia].
  all: revert E; unfold next_switch.
  all: destruct (Z.shiftr _ 4) as [|q|q]; [intros [= _ <-]; lia| |intros [= _ <-]; lia].
  all: do 4 (try destruct q as [q|q|]);
    repeat case_match; intros [= _ <-] || intros [=]; lia.
Qed.

(** [void UTF8::as_quoted_ascii(const char* utf8_str, size_t utf8_length,
    char* buf, size_t buflen)]: the buffer when the call returns. *)
Definition as_quoted_ascii (utf8_str : list Z) (utf8_length : nat) (buf : list Z)
    (buflen : nat) : res (list Z) :=
  w <- as_quoted_ascii_loop utf8_str utf8_length 0 buf 0 buflen;;
  _ <- c_assert (snd w <? buflen)%nat;;
  store (fst w) (snd w) 0.

(** [for (int i = 0; i < length1; i++) if (base1[i] != base2[i]) return false;]
    with [n] turns left *)
Fixpoint equal_loop (base1 base2 : list Z) (n i : nat) : bool :=
  match n with
  | O => true
  | S n' =>
      if negb (unit_at base1 i =? unit_at base2 i) then false
      else equal_loop base1 base2 n' (i + 1)
  end.

(** [bool UTF8::equal(const jbyte* base1, int length1, const jbyte* base2,
    int length2)] *)
Definition equal (base1 : list Z) (length1 : nat) (base2 : list Z) (length2 : nat)
    : bool :=
  (* Length must be the same *)
  if negb (length1 =? length2)%nat then false
  else equal_loop base1 base2 length1 0.

End UTF8.

Module UNICODE.

(** [bool UNICODE::is_latin1(jchar c)] *)
Definition is_latin1 (c : Z) : bool := c <=? 0x00FF.

(** [size_t UNICODE::utf8_size(jchar c)] *)
Definition utf8_size (c : Z) : nat :=
  if (0x0001 <=? c) && (c <=? 0x007F) then
    (* ASCII character *)
    1%nat
  else if c <=? 0x07FF then 2%nat
  else 3%nat.

(** [size_t UNICODE::utf8_size(jbyte c)] *)
Definition utf8_size_jbyte (c : Z) : nat :=
  if 0x01 <=? c then
    (* ASCII character. *)
    1%nat
  else
    (* Non-ASCII character or 0x00 *)
    2%nat.

(** [for (int index = 0; index < length; index++) result += utf8_size(base[index])]
    with [n] turns left; [utf8_size] is the overload for the type [T] of the
    units. *)
Fixpoint utf8_length_loop (utf8_size : Z → nat) (base : list Z) (n index : nat)
    (result : nat) : nat :=
  match n with
  | O => result
  | S n' =>
      utf8_length_loop utf8_size base n' (index + 1)
        (result + utf8_size (unit_at base index))
  end.

(** [template<typename T> size_t UNICODE::utf8_length(const T* base, int length)]
    at [T = jchar] and at [T = jbyte] *)
Definition utf8_length (base : list Z) (length : nat) : nat :=
  utf8_length_loop utf8_size base length 0 0.

Definition utf8_length_jbyte (base : list Z) (length : nat) : nat :=
  utf8_length_loop utf8_size_jbyte base length 0 0.

(** The loop of [UNICODE::as_utf8(const jchar*, int, char*, size_t)] with [n]
    turns left: the buffer and the pointer [p] when the loop is left. *)
Fixpoint as_utf8_loop (base : list Z) (n index : nat) (mem : list Z) (p buflen : nat)
    : res (list Z * nat) :=
  match n with
  | O => Ok (mem, p)
  | S n' =>
      let c := unit_at base index in
      let sz := utf8_size c in
      if (buflen <=? sz)%nat then Ok (mem, p)   (* string is truncated *)
      else
        let buflen := (buflen - sz)%nat in
        w <- utf8_write mem p c;;
        as_utf8_loop base n' (index + 1) (fst w) (snd w) buflen
  end.

(** [char* UNICODE::as_utf8(const jchar* base, int length, char* buf, size_t buflen)]:
    the buffer [buf] when the call returns. *)
Definition as_utf8 (base : list Z) (length : nat) (buf : list Z) (buflen : nat)
    : res (list Z) :=
  _ <- c_assert (0 <? buflen)%nat;;
  w <- as_utf8_loop base length 0 buf 0 buflen;;
  store (fst w) (snd w) 0.

(** The loop of [UNICODE::as_utf8(const jbyte*, int, char*, size_t)] with [n]
    turns left. *)
Fixpoint as_utf8_jbyte_loop (base : list Z) (n index : nat) (mem : list Z) (p buflen : nat)
    : res (list Z * nat) :=
  match n with
  | O => Ok (mem, p)
  | S n' =>
      let c := unit_at base index in
      let sz := utf8_size_jbyte c in
      if (buflen <=? sz)%nat then Ok (mem, p)   (* string is truncated *)
      else
        let buflen := (buflen - sz)%nat in
        if (sz =? 1)%nat then
          (* Copy ASCII characters (UTF-8 is ASCII compatible) *)
          mem <- store mem p (u_char c);;
          as_utf8_jbyte_loop base n' (index + 1) mem (p + 1) buflen
        else
          _ <- c_assert (sz =? 2)%nat;;
          w <- utf8_write mem p (Z.land (jchar c) 0xff);;
          as_utf8_jbyte_loop base n' (index + 1) (fst w) (snd w) buflen
  end.

(** [char* UNICODE::as_utf8(const jbyte* base, int length, char* buf, size_t buflen)] *)
Definition as_utf8_jbyte (base : list Z) (length : nat) (buf : list Z) (buflen : nat)
    : res (list Z) :=
  _ <- c_assert (0 <? buflen)%nat;;
  w <- as_utf8_jbyte_loop base length 0 buf 0 buflen;;
  store (fst w) (snd w) 0.

(** The turns of a loop [for (int index = 0; index < length; index++)] for
    an [int length]: none when [length] is negative. *)
Definition int_turns (length : Z) : nat := Z.to_nat length.

(** [template<typename T> char* UNICODE::as_utf8(const T* base, size_t& length)]:
    the string returned and the outgoing [length].  The incoming [length] is a
    [size_t], which both calls narrow with [static_cast<int>(length)]; the
    overloads called count the turns of their loops with that [int].  The
    overloads the template picks for [T] are the parameters [utf8_length_T]
    and [as_utf8_T].  [NEW_RESOURCE_ARRAY] is the allocator of the caller's
    resource area: the array it hands out has the size asked for and any
    contents. *)
Definition as_utf8_template
    (utf8_length_T : list Z → nat → nat)
    (as_utf8_T : list Z → nat → list Z → nat → res (list Z))
    (NEW_RESOURCE_ARRAY : nat → list Z)
    (base : list Z) (length : nat) : res (list Z * nat) :=
  (* Incoming length must be <= INT_MAX *)
  let utf8_len :=
    utf8_length_T base (int_turns (static_cast_int (Z.of_nat length))) in
  let buf := NEW_RESOURCE_ARRAY (utf8_len + 1)%nat in
  result <- as_utf8_T base (int_turns (static_cast_int (Z.of_nat length)))
              buf (utf8_len + 1)%nat;;
  _ <- c_assert (strlen result =? utf8_len)%nat;;
  (* Set outgoing string length to uft8 length *)
  Ok (result, utf8_len).

(** The two instantiations of the source. *)
Definition as_utf8_alloc := as_utf8_template utf8_length as_utf8.
Definition as_utf8_alloc_jbyte := as_utf8_template utf8_length_jbyte as_utf8_jbyte.

(** The loop of [UNICODE::convert_to_utf8] with [n] turns left *)
Fixpoint convert_to_utf8_loop (base : list Z) (n index : nat) (mem : list Z)
    (utf8_buffer : nat) : res (list Z * nat) :=
  match n with
  | O => Ok (mem, utf8_buffer)
  | S n' =>
      w <- utf8_write mem utf8_buffer (unit_at base index);;
      convert_to_utf8_loop base n' (index + 1) (fst w) (snd w)
  end.

(** [void UNICODE::convert_to_utf8(const jchar* base, int length, char* utf8_buffer)]:
    the buffer when the call returns. *)
Definition convert_to_utf8 (base : list Z) (length : nat) (utf8_buffer : list Z)
    : res (list Z) :=
  w <- convert_to_utf8_loop base length 0 utf8_buffer 0;;
  store (fst w) (snd w) 0.

(** [for (int index = 0; index < length; index++) if (base[index] > 0x00FF)
    return false;] with [n] turns left *)
Fixpoint is_latin1_loop (base : list Z) (n index : nat) : bool :=
  match n with
  | O => true
  | S n' =>
      if 0x00FF <? unit_at base index then false
      else is_latin1_loop base n' (index + 1)
  end.

(** [bool UNICODE::is_latin1(const jchar* base, int length)] *)
Definition is_latin1_array (base : list Z) (length : nat) : bool :=
  is_latin1_loop base length 0.

(** The loop of [UNICODE::utf8_length_as_int] with [n] turns left; [result]
    is a [size_t]. *)
Fixpoint utf8_length_as_int_loop (utf8_size : Z → nat) (base : list Z) (n index : nat)
    (result : Z) : Z :=
  match n with
  | O => result
  | S n' =>
      let c := unit_at base index in
      let sz := Z.of_nat (utf8_size c) in
      (* If the length is > INT_MAX-1 we truncate at a completed
         modified-UTF8 encoding. *)
      if INT_MAX - 1 <? size_t (result + sz) then result
      else utf8_length_as_int_loop utf8_size base n' (index + 1) (size_t (result + sz))
  end.

(** [template<typename T> int UNICODE::utf8_length_as_int(const T* base,
    int length)] at [T = jchar]; [checked_cast_int] is the cast
    [checked_cast<int>], which is not among the sources. *)
Definition utf8_length_as_int (checked_cast_int : Z → res Z) (base : list Z)
    (length : nat) : res Z :=
  checked_cast_int (utf8_length_as_int_loop utf8_size base length 0 0).

(** The loop of [UNICODE::quoted_ascii_length] with [n] turns left *)
Fixpoint quoted_ascii_length_loop (base : list Z) (n i : nat) (result : nat) : nat :=
  match n with
  | O => result
  | S n' =>
      let c := unit_at base i in
      if (32 <=? c) && (c <? 127) then
        quoted_ascii_length_loop base n' (i + 1) (result + 1)
      else
        quoted_ascii_length_loop base n' (i + 1) (result + 6)
  end.

(** [template<typename T> size_t UNICODE::quoted_ascii_length(const T* base,
    int length)] at [T = jchar] *)
Definition quoted_ascii_length (base : list Z) (length : nat) : nat :=
  quoted_ascii_length_loop base length 0 0.

(** The loop of [UNICODE::as_quoted_ascii] with [n] turns left: the buffer
    and [p] when the loop is left; [buf + buflen] is [end_]. *)
Fixpoint as_quoted_ascii_loop (base : list Z) (n index : nat) (mem : list Z)
    (p end_ : nat) : res (list Z * nat) :=
  match n with
  | O => Ok (mem, p)
  | S n' =>
      let c := unit_at base index in
      if (32 <=? c) && (c <? 127) then
        if (end_ <=? p + 1)%nat then Ok (mem, p)      (* string is truncated *)
        else
          mem <- store mem p (char c);;
          as_quoted_ascii_loop base n' (index + 1) mem (p + 1) end_
      else
        if (end_ <=? p + 6)%nat then Ok (mem, p)      (* string is truncated *)
        else
          mem <- snprintf_u04x mem p c;;
          as_quoted_ascii_loop base n' (index + 1) mem (p + 6) end_
  end.

(** [template<typename T> void UNICODE::as_quoted_ascii(const T* base,
    int length, char* buf, size_t buflen)] at [T = jchar]: the buffer when the
    call returns. *)
Definition as_quoted_ascii (base : list Z) (length : nat) (buf : list Z)
    (buflen : nat) : res (list Z) :=
  w <- as_quoted_ascii_loop base length 0 buf 0 buflen;;
  store (fst w) (snd w) 0.

End UNICODE.

(** ** Notions of the specification *)

(** The UTF-16 code units of the code point [p]: [p] itself up to [0xFFFF], a
    high and a low surrogate above. *)
Definition utf16_units (p : Z) : list Z :=
  if p <? 0x10000 then [p]
  else [0xD800 + Z.shiftr (p - 0x10000) 10; 0xDC00 + Z.land (p - 0x10000) 0x3FF].

(** The byte count of the table of external interfaces. *)
Definition table_size (p : Z) : nat :=
  if p =? 0 then 2%nat
  else if p <=? 0x7F then 1%nat
  else if p <=? 0x7FF then 2%nat
  else if p <=? 0xFFFF then 3%nat
  else 6%nat.

Definition is_surrogate (p : Z) : Prop := 0xD800 <= p <= 0xDFFF.

(** The code points of the round-trip property. *)
Definition round_trip_point (p : Z) : Prop :=
  1 <= p <= 0x7F ∨ p = 0x80 ∨ p = 0x7FF ∨ p = 0x800
  ∨ (0x800 <= p <= 0xFFFF ∧ ¬ is_surrogate p)
  ∨ p = 0x10000 ∨ p = 0x10FFFF.

(** [b] has the form [10xxxxxx]. *)
Definition is_continuation (b : Z) : Prop := Z.land b 0xC0 = 0x80.

(** The inputs [UTF8::next] is lenient on: a lead byte that starts nothing, or
    a lead byte whose continuation bytes are not all there. *)
Definition illegal_lead (str : list Z) : Prop :=
  Z.shiftr (byte_at str 0) 4 ∈ [0x8; 0x9; 0xA; 0xB; 0xF].

Definition broken_continuation (str : list Z) : Prop :=
  (Z.shiftr (byte_at str 0) 4 ∈ [0xC; 0xD; 0xE] ∧ ¬ is_continuation (byte_at str 1))
  ∨ (Z.shiftr (byte_at str 0) 4 = 0xE ∧ ¬ is_continuation (byte_at str 2)).

(** [b] is a non-NUL ASCII byte. *)
Definition plain_ascii (b : Z) : bool := (0 <? b) && (b <? 0x80).

(** [b] lies in [0x80..0xBF], the values of the form [10xxxxxx]. *)
Definition continuation (b : Z) : bool := (0x80 <=? b) && (b <? 0xC0).

(** The six bytes at [str] have the form [ED A0..AF 80..BF ED B0..BF 80..BF]. *)
Definition supplementary_pattern (str : list Z) : bool :=
  (byte_at str 0 =? 0xED)
  && ((0xA0 <=? byte_at str 1) && (byte_at str 1 <? 0xB0))
  && continuation (byte_at str 2)
  && (byte_at str 3 =? 0xED)
  && ((0xB0 <=? byte_at str 4) && (byte_at str 4 <? 0xC0))
  && continuation (byte_at str 5).

(** The values the validator computes into [c]: of the two bytes [b0 b1], and
    of the three bytes [b0 b1 b2]. *)
Definition value_2 (b0 b1 : Z) : Z := (b0 - 0xC0) * 64 + (b1 - 0x80).
Definition value_3 (b0 b1 b2 : Z) : Z :=
  (b0 - 0xE0) * 4096 + (b1 - 0x80) * 64 + (b2 - 0x80).

(** A lead byte that matches the byte at [j] comes before it: a lead byte of a
    multi-byte sequence right before, or the lead byte of a three-byte
    sequence and one continuation byte. *)
Definition preceded_by_lead (buffer : list Z) (j : nat) : Prop :=
  ((1 ≤ j)%nat ∧ 0xC0 <= byte_at buffer (j - 1) <= 0xEF)
  ∨ ((2 ≤ j)%nat ∧ 0xE0 <= byte_at buffer (j - 2) <= 0xEF
     ∧ 0x80 <= byte_at buffer (j - 1) < 0xC0).

(** The bytes [utf8_write] stores for the code unit [ch], in order. *)
Definition utf8_bytes (ch : Z) : list Z :=
  if negb (ch =? 0) && (ch <=? 0x7f) then [u_char ch]
  else if ch <=? 0x7FF then
    [u_char (Z.lor (u_char (Z.shiftr ch 6)) 0xC0);
     u_char (Z.lor (u_char (Z.land ch 0x3F)) 0x80)]
  else
    [u_char (Z.lor (char (Z.shiftr ch 12)) 0xE0);
     u_char (Z.lor (char (Z.land (Z.shiftr ch 6) 0x3F)) 0x80);
     u_char (Z.lor (char (Z.land ch 0x3f)) 0x80)].

(** The bytes the [jbyte] overload of [as_utf8] stores for the unit [c]. *)
Definition jbyte_bytes (c : Z) : list Z :=
  if 0x01 <=? c then [u_char c] else utf8_bytes (Z.land (jchar c) 0xff).

(** The bytes of a sequence of code units. *)
Definition utf8_encode (units : list Z) : list Z := flat_map utf8_bytes units.

(** The units the bounded writer takes: it stops before the first unit whose
    size [sz] does not satisfy [sz < buflen], the capacity that remains. *)
Fixpoint fitting (units : list Z) (buflen : nat) : list Z :=
  match units with
  | [] => []
  | u :: units' =>
      if (buflen <=? UNICODE.utf8_size u)%nat then []
      else u :: fitting units' (buflen - UNICODE.utf8_size u)
  end.

(** The characters [as_quoted_ascii] writes for the unit [c]: the unit
    itself when it is printable, and a backslash, the letter u and four hex
    digits otherwise. *)
Definition quoted (c : Z) : list Z :=
  if (32 <=? c) && (c <? 127) then [char c]
  else [92; 117; hex_digit (Z.shiftr c 12 mod 16); hex_digit (Z.shiftr c 8 mod 16);
        hex_digit (Z.shiftr c 4 mod 16); hex_digit (c mod 16)].

(** The units [as_quoted_ascii] takes when [room] bytes lie between [p] and
    [end]: it stops before the first unit whose characters do not leave room
    for the NUL. *)
Fixpoint quoted_fitting (units : list Z) (room : nat) : list Z :=
  match units with
  | [] => []
  | c :: units' =>
      if (room <=? length (quoted c))%nat then []
      else c :: quoted_fitting units' (room - length (quoted c))
  end.

(** * Proofs *)

(** ** Checking a property of every value of a small range *)

Lemma Z_range_forallb (f : Z → bool) (n : nat) :
  forallb f (map Z.of_nat (seq 0 n)) = true →
  ∀ z, 0 <= z < Z.of_nat n → f z = true.
Proof.
  intros Hall z Hz.
  rewrite forallb_forall in Hall. apply Hall.
  apply in_map_iff. exists (Z.to_nat z). split; [lia|].
  apply in_seq. lia.
Qed.

Ltac by_range n :=
  match goal with
  | |- ∀ z, _ → ?P =>
      let z' := fresh "z" in
      let H := fresh "H" in
      intros z' H;
      pattern z';
      match goal with
      | |- ?Q z' =>
          let f := constr:(fun x : Z => bool_decide (Q x)) in
          let Hf := fresh in
          assert (Hf : f z' = true)
            by (apply (Z_range_forallb f n); [vm_compute; reflexivity | unfold is_byte, is_jchar in *; lia]);
          cbv beta in Hf; exact (bool_decide_eq_true_1 _ Hf)
      end
  end.

Lemma land_C0_byte : ∀ b, is_byte b → (Z.land b 0xC0 =? 0x80) = (0x80 <=? b) && (b <? 0xC0).
Proof. by_range 256%nat. Qed.

Lemma land_F0_A0_byte : ∀ b, is_byte b → (Z.land b 0xF0 =? 0xA0) = (0xA0 <=? b) && (b <? 0xB0).
Proof. by_range 256%nat. Qed.

Lemma land_F0_B0_byte : ∀ b, is_byte b → (Z.land b 0xF0 =? 0xB0) = (0xB0 <=? b) && (b <? 0xC0).
Proof. by_range 256%nat. Qed.

Lemma land_FF_byte : ∀ b, is_byte b → Z.land b 0xFF = b.
Proof. by_range 256%nat. Qed.

Lemma lor_C0_low : ∀ h, 0 <= h < 64 → Z.lor h 0xC0 = 0xC0 + h.
Proof. by_range 64%nat. Qed.

Lemma lor_E0_low : ∀ h, 0 <= h < 32 → Z.lor h 0xE0 = 0xE0 + h.
Proof. by_range 32%nat. Qed.

Lemma lor_80_low : ∀ l, 0 <= l < 128 → Z.lor l 0x80 = 0x80 + l.
Proof. by_range 128%nat. Qed.

(** ** Bit operations as arithmetic *)

Lemma land_3F (x : Z) : Z.land x 0x3F = x mod 64.
Proof. change 0x3F with (Z.ones 6). now rewrite Z.land_ones. Qed.

Lemma land_1F (x : Z) : Z.land x 0x1F = x mod 32.
Proof. change 0x1F with (Z.ones 5). now rewrite Z.land_ones. Qed.

Lemma land_0F (x : Z) : Z.land x 0x0F = x mod 16.
Proof. change 0x0F with (Z.ones 4). now rewrite Z.land_ones. Qed.

Lemma land_3FF (x : Z) : Z.land x 0x3FF = x mod 1024.
Proof. change 0x3FF with (Z.ones 10). now rewrite Z.land_ones. Qed.

Lemma shiftr_4 (x : Z) : Z.shiftr x 4 = x / 16.
Proof. now rewrite Z.shiftr_div_pow2. Qed.

Lemma shiftr_6 (x : Z) : Z.shiftr x 6 = x / 64.
Proof. now rewrite Z.shiftr_div_pow2. Qed.

Lemma shiftr_10 (x : Z) : Z.shiftr x 10 = x / 1024.
Proof. now rewrite Z.shiftr_div_pow2. Qed.

Lemma shiftr_12 (x : Z) : Z.shiftr x 12 = x / 4096.
Proof. now rewrite Z.shiftr_div_pow2. Qed.

Lemma shiftl_6 (x : Z) : Z.shiftl x 6 = x * 64.
Proof. now rewrite Z.shiftl_mul_pow2. Qed.

Lemma shiftl_10 (x : Z) : Z.shiftl x 10 = x * 1024.
Proof. now rewrite Z.shiftl_mul_pow2. Qed.

Lemma shiftl_12 (x : Z) : Z.shiftl x 12 = x * 4096.
Proof. now rewrite Z.shiftl_mul_pow2. Qed.

Lemma shiftl_16 (x : Z) : Z.shiftl x 16 = x * 65536.
Proof. now rewrite Z.shiftl_mul_pow2. Qed.

Create Rewrite HintDb bits.
#[local] Hint Rewrite land_3F land_1F land_0F land_3FF shiftr_4 shiftr_6 shiftr_10
  shiftr_12 shiftl_6 shiftl_10 shiftl_12 shiftl_16 : bits.

(** Casts are the identity on the values of their type. *)
Lemma u_char_id (z : Z) : 0 <= z < 256 → u_char z = z.
Proof. intros. unfold u_char. now apply Z.mod_small. Qed.

Lemma char_id (z : Z) : 0 <= z < 128 → char z = z.
Proof. intros. unfold char. rewrite Z.mod_small; lia. Qed.

Lemma jchar_id (z : Z) : 0 <= z < 65536 → jchar z = z.
Proof. intros. unfold jchar. now apply Z.mod_small. Qed.

Ltac arith := Z.div_mod_to_equations; lia.

(** ** The bytes of one code unit *)

Lemma utf8_bytes_1 (ch : Z) : 1 <= ch <= 0x7F → utf8_bytes ch = [ch].
Proof.
  intros H. unfold utf8_bytes.
  replace (ch =? 0) with false by lia. replace (ch <=? 0x7f) with true by lia.
  simpl. now rewrite u_char_id by lia.
Qed.

Lemma utf8_bytes_2 (ch : Z) :
  ch = 0 ∨ 0x80 <= ch <= 0x7FF →
  utf8_bytes ch = [0xC0 + ch / 64; 0x80 + ch mod 64].
Proof.
  intros H. unfold utf8_bytes.
  replace (negb (ch =? 0) && (ch <=? 0x7f)) with false by (destruct H; subst; simpl; lia).
  replace (ch <=? 0x7FF) with true by lia.
  autorewrite with bits.
  rewrite (u_char_id (ch / 64)) by arith.
  rewrite (u_char_id (ch mod 64)) by arith.
  rewrite lor_C0_low, lor_80_low by arith.
  rewrite !u_char_id by arith. reflexivity.
Qed.

Lemma utf8_bytes_3 (ch : Z) :
  0x800 <= ch <= 0xFFFF →
  utf8_bytes ch = [0xE0 + ch / 4096; 0x80 + (ch / 64) mod 64; 0x80 + ch mod 64].
Proof.
  intros H. unfold utf8_bytes.
  replace (negb (ch =? 0) && (ch <=? 0x7f)) with false by lia.
  replace (ch <=? 0x7FF) with false by lia.
  autorewrite with bits.
  rewrite (char_id (ch / 4096)) by arith.
  rewrite (char_id ((ch / 64) mod 64)) by arith.
  rewrite (char_id (ch mod 64)) by arith.
  rewrite lor_E0_low, !lor_80_low by arith.
  rewrite !u_char_id by arith. reflexivity.
Qed.

Lemma utf8_bytes_cases (ch : Z) :
  is_jchar ch →
  (1 <= ch <= 0x7F ∧ utf8_bytes ch = [ch])
  ∨ ((ch = 0 ∨ 0x80 <= ch <= 0x7FF) ∧ utf8_bytes ch = [0xC0 + ch / 64; 0x80 + ch mod 64])
  ∨ (0x800 <= ch <= 0xFFFF
     ∧ utf8_bytes ch = [0xE0 + ch / 4096; 0x80 + (ch / 64) mod 64; 0x80 + ch mod 64]).
Proof.
  intros [H0 H1].
  destruct (decide (1 <= ch <= 0x7F)) as [Ha|Ha]; [left; auto using utf8_bytes_1|].
  destruct (decide (ch <= 0x7FF)) as [Hb|Hb].
  - right; left. split; [lia|]. apply utf8_bytes_2. lia.
  - right; right. split; [lia|]. apply utf8_bytes_3. lia.
Qed.

Lemma utf8_bytes_length (ch : Z) :
  0 <= ch → length (utf8_bytes ch) = UNICODE.utf8_size ch.
Proof.
  intros H. unfold utf8_bytes, UNICODE.utf8_size.
  destruct (Z.eqb_spec ch 0) as [->|Hz]; simpl; [reflexivity|].
  replace (1 <=? ch) with true by lia. simpl.
  destruct (Z.leb_spec ch 0x7f), (Z.leb_spec ch 0x7FF); simpl; try reflexivity; lia.
Qed.

(** ** [UTF8::next] on each shape of input *)

Lemma is_continuation_byte (b : Z) :
  is_byte b → (is_continuation b ↔ 0x80 <= b < 0xC0).
Proof.
  intros Hb. unfold is_continuation.
  pose proof (land_C0_byte b Hb) as H.
  destruct (Z.eqb_spec (Z.land b 0xC0) 0x80); split; intros; try lia.
Qed.

Lemma land_C0_continuation (b : Z) :
  0x80 <= b < 0xC0 → (Z.land b 0xC0 =? 0x80) = true.
Proof. intros H. rewrite land_C0_byte by (unfold is_byte; lia). lia. Qed.

Section Next.
Variable T : Z → Z.
Variable str : list Z.

Lemma next_1 :
  0 <= byte_at str 0 < 0x80 → UTF8.next T str = (T (byte_at str 0), 1%nat).
Proof.
  intros H. unfold UTF8.next, UTF8.next_switch. rewrite shiftr_4.
  assert (byte_at str 0 / 16 ∈ [0; 1; 2; 3; 4; 5; 6; 7]) as Hn.
  { assert (0 <= byte_at str 0 / 16 <= 7) as Hr by arith.
    rewrite !elem_of_cons. lia. }
  rewrite !elem_of_cons, elem_of_nil in Hn.
  rewrite (jchar_id (byte_at str 0)) by lia.
  destruct Hn as [E|[E|[E|[E|[E|[E|[E|[E|[]]]]]]]]]; rewrite E; reflexivity.
Qed.

Lemma next_2 :
  0xC0 <= byte_at str 0 < 0xE0 → 0x80 <= byte_at str 1 < 0xC0 →
  UTF8.next T str
  = (T ((byte_at str 0 - 0xC0) * 64 + (byte_at str 1 - 0x80)), 2%nat).
Proof.
  intros H0 H1. unfold UTF8.next, UTF8.next_switch. rewrite shiftr_4.
  assert (byte_at str 0 / 16 = 12 ∨ byte_at str 0 / 16 = 13) as Hn by arith.
  assert (jchar (Z.shiftl (u_char (Z.land (byte_at str 0) 0x1F)) 6
                 + u_char (Z.land (byte_at str 1) 0x3F))
          = (byte_at str 0 - 0xC0) * 64 + (byte_at str 1 - 0x80)) as Hv.
  { autorewrite with bits.
    rewrite !u_char_id by arith. autorewrite with bits.
    rewrite jchar_id by arith. arith. }
  destruct Hn as [E|E]; rewrite E; cbv iota beta zeta;
    rewrite land_C0_continuation by lia; now rewrite Hv.
Qed.

Lemma next_3 :
  0xE0 <= byte_at str 0 < 0xF0 → 0x80 <= byte_at str 1 < 0xC0 →
  0x80 <= byte_at str 2 < 0xC0 →
  UTF8.next T str
  = (T (((byte_at str 0 - 0xE0) * 64 + (byte_at str 1 - 0x80)) * 64
        + (byte_at str 2 - 0x80)), 3%nat).
Proof.
  intros H0 H1 H2. unfold UTF8.next, UTF8.next_switch. rewrite shiftr_4.
  assert (byte_at str 0 / 16 = 14) as Hn by arith.
  assert (jchar (Z.shiftl (Z.shiftl (u_char (Z.land (byte_at str 0) 0x0f)) 6
                           + u_char (Z.land (byte_at str 1) 0x3f)) 6
                 + u_char (Z.land (byte_at str 2) 0x3f))
          = ((byte_at str 0 - 0xE0) * 64 + (byte_at str 1 - 0x80)) * 64
            + (byte_at str 2 - 0x80)) as Hv.
  { autorewrite with bits.
    rewrite !u_char_id by arith. autorewrite with bits.
    rewrite jchar_id by arith. arith. }
  rewrite Hn; cbv iota beta zeta.
  rewrite !land_C0_continuation by lia. now rewrite Hv.
Qed.

(** The fallback: one byte is consumed and its value is stored. *)
Lemma next_illegal_lead :
  illegal_lead str → UTF8.next T str = (T (byte_at str 0), 1%nat).
Proof.
  unfold illegal_lead, UTF8.next, UTF8.next_switch.
  rewrite !elem_of_cons, elem_of_nil.
  intros [E|[E|[E|[E|[E|[]]]]]]; rewrite E; reflexivity.
Qed.

Lemma next_broken_continuation :
  broken_continuation str → UTF8.next T str = (T (byte_at str 0), 1%nat).
Proof.
  unfold broken_continuation, is_continuation, UTF8.next, UTF8.next_switch.
  rewrite !elem_of_cons, elem_of_nil.
  intros [[[E|[E|[E|[]]]] Hc]|[E Hc]]; rewrite E; cbv iota beta zeta.
  - destruct (Z.eqb_spec (Z.land (byte_at str 1) 192) 128); [contradiction|reflexivity].
  - destruct (Z.eqb_spec (Z.land (byte_at str 1) 192) 128); [contradiction|reflexivity].
  - destruct (Z.eqb_spec (Z.land (byte_at str 1) 192) 128); [contradiction|reflexivity].
  - destruct (Z.eqb_spec (Z.land (byte_at str 1) 192) 128); [|reflexivity].
    destruct (Z.eqb_spec (Z.land (byte_at str 2) 192) 128); [contradiction|reflexivity].
Qed.

Lemma next_switch_length (r : Z) (n : nat) :
  UTF8.next_switch str = Some (r, n) → (1 ≤ n ≤ 3)%nat.
Proof.
  unfold UTF8.next_switch.
  destruct (Z.shiftr (byte_at str 0) 4) as [|p|p]; [intros [= _ <-]; lia| |intros [= _ <-]; lia].
  do 4 (try destruct p as [p|p|]);
    repeat case_match; intros [= _ <-] || intros [=]; lia.
Qed.

Lemma next_progress : (1 ≤ snd (UTF8.next T str) ≤ 3)%nat.
Proof.
  unfold UTF8.next.
  destruct (UTF8.next_switch str) as [[r n]|] eqn:E; simpl; [|lia].
  eapply next_switch_length; eauto.
Qed.
End Next.

(** ** Stores and the bytes [utf8_write] leaves in the buffer *)

Lemma byte_at_cons_0 (b : Z) (l : list Z) : byte_at (b :: l) 0 = b.
Proof. reflexivity. Qed.

Lemma byte_at_cons_S (b : Z) (l : list Z) (i : nat) : byte_at (b :: l) (S i) = byte_at l i.
Proof. reflexivity. Qed.

Lemma byte_at_app_l (l1 l2 : list Z) (i : nat) :
  (i < length l1)%nat → byte_at (l1 ++ l2) i = byte_at l1 i.
Proof. intros H. unfold byte_at. now rewrite lookup_app_l. Qed.

Lemma byte_at_app_r (l1 l2 : list Z) (i : nat) :
  byte_at (l1 ++ l2) (length l1 + i) = byte_at l2 i.
Proof.
  unfold byte_at. rewrite lookup_app_r by lia.
  now replace (length l1 + i - length l1)%nat with i by lia.
Qed.

Lemma byte_at_drop (l : list Z) (i k : nat) : byte_at (drop i l) k = byte_at l (i + k).
Proof. unfold byte_at. now rewrite lookup_drop. Qed.

Lemma byte_at_is_byte (l : list Z) (i : nat) : Forall is_byte l → is_byte (byte_at l i).
Proof.
  intros Hl. unfold byte_at.
  destruct (l !! i) as [b|] eqn:E; simpl; [|unfold is_byte; lia].
  eapply Forall_lookup_1; eauto.
Qed.

Lemma store_at (pre suf : list Z) (old v : Z) (i : nat) :
  i = length pre → store (pre ++ old :: suf) i v = Ok (pre ++ v :: suf).
Proof.
  intros ->. unfold store.
  destruct (decide _) as [_|Hn]; [|rewrite length_app in Hn; simpl in Hn; lia].
  replace (length pre) with (length pre + 0)%nat at 1 by lia.
  now rewrite insert_app_r.
Qed.

Lemma store_at_mid (pre mid suf : list Z) (old v : Z) (i : nat) :
  i = (length pre + length mid)%nat →
  store (pre ++ mid ++ old :: suf) i v = Ok (pre ++ mid ++ v :: suf).
Proof.
  intros ->. rewrite !(app_assoc pre mid).
  apply store_at. now rewrite length_app.
Qed.

Lemma store_at_1 (pre suf : list Z) (a old v : Z) :
  store (pre ++ a :: old :: suf) (length pre + 1) v = Ok (pre ++ a :: v :: suf).
Proof. now apply (store_at_mid pre [a]). Qed.

Lemma store_at_2 (pre suf : list Z) (a b old v : Z) :
  store (pre ++ a :: b :: old :: suf) (length pre + 2) v = Ok (pre ++ a :: b :: v :: suf).
Proof. now apply (store_at_mid pre [a; b]). Qed.

Lemma utf8_write_at (pre old suf : list Z) (ch : Z) :
  length old = length (utf8_bytes ch) →
  utf8_write (pre ++ old ++ suf) (length pre) ch
  = Ok (pre ++ utf8_bytes ch ++ suf, (length pre + length (utf8_bytes ch))%nat).
Proof.
  unfold utf8_write, utf8_bytes.
  destruct (negb (ch =? 0) && (ch <=? 0x7f)); [|destruct (ch <=? 0x7FF)]; simpl; intros Hlen.
  - destruct old as [|a [|]]; try discriminate. simpl.
    now rewrite store_at.
  - destruct old as [|a [|b [|]]]; try discriminate. simpl.
    rewrite store_at by reflexivity. simpl.
    now rewrite store_at_1.
  - destruct old as [|a [|b [|c [|]]]]; try discriminate. simpl.
    rewrite store_at by reflexivity. simpl.
    rewrite store_at_1. simpl. now rewrite store_at_2.
Qed.

Lemma utf8_encode_cons (u : Z) (units : list Z) :
  utf8_encode (u :: units) = utf8_bytes u ++ utf8_encode units.
Proof. reflexivity. Qed.

Lemma unit_at_middle (done rest : list Z) (u : Z) :
  unit_at (done ++ u :: rest) (length done) = u.
Proof. unfold unit_at. now rewrite list_lookup_middle. Qed.

Lemma convert_to_utf8_loop_spec (units : list Z) :
  ∀ done extra pre old suf,
    length old = length (utf8_encode units) →
    UNICODE.convert_to_utf8_loop (done ++ units ++ extra) (length units) (length done)
      (pre ++ old ++ suf) (length pre)
    = Ok (pre ++ utf8_encode units ++ suf, (length pre + length (utf8_encode units))%nat).
Proof.
  induction units as [|u units IH]; intros done extra pre old suf Hlen.
  - destruct old; [|discriminate]. simpl. now rewrite Nat.add_0_r.
  - rewrite utf8_encode_cons, length_app in Hlen.
    simpl. rewrite unit_at_middle.
    rewrite <- (take_drop (length (utf8_bytes u)) old), <- app_assoc.
    rewrite utf8_write_at by (rewrite length_take; lia).
    simpl.
    replace (length done + 1)%nat with (length (done ++ [u]))
      by (rewrite length_app; reflexivity).
    replace (length pre + length (utf8_bytes u))%nat with (length (pre ++ utf8_bytes u))
      by (rewrite length_app; reflexivity).
    rewrite (app_assoc pre), (cons_middle u done), (app_assoc done).
    rewrite IH by (rewrite length_drop; lia).
    rewrite !length_app, <- !app_assoc.
    f_equal. f_equal. lia.
Qed.

(** The bulk encoder leaves the bytes of the units, then NUL, then what the
    buffer held before. *)
Lemma convert_to_utf8_spec (units mem : list Z) :
  (length (utf8_encode units) < length mem)%nat →
  UNICODE.convert_to_utf8 units (length units) mem
  = Ok (utf8_encode units ++ 0 :: drop (S (length (utf8_encode units))) mem).
Proof.
  intros Hcap. unfold UNICODE.convert_to_utf8.
  destruct (lookup_lt_is_Some_2 mem _ Hcap) as [x Hx].
  rewrite <- (take_drop_middle mem _ x Hx) at 1.
  pose proof (convert_to_utf8_loop_spec units [] [] []
                (take (length (utf8_encode units)) mem)
                (x :: drop (S (length (utf8_encode units))) mem)) as H.
  simpl in H. rewrite app_nil_r in H. rewrite H by (rewrite length_take; lia).
  simpl. now rewrite store_at.
Qed.

Lemma utf8_length_loop_spec (units : list Z) :
  ∀ done extra acc,
    Forall is_jchar units →
    UNICODE.utf8_length_loop UNICODE.utf8_size (done ++ units ++ extra) (length units)
      (length done) acc
    = (acc + length (utf8_encode units))%nat.
Proof.
  induction units as [|u units IH]; intros done extra acc Hu; simpl; [lia|].
  inversion Hu as [|? ? Hu1 Hu2]; subst.
  rewrite unit_at_middle.
  replace (length done + 1)%nat with (length (done ++ [u]))
    by (rewrite length_app; reflexivity).
  rewrite (cons_middle u done), (app_assoc done).
  rewrite IH by assumption.
  rewrite length_app, utf8_bytes_length by (unfold is_jchar in Hu1; lia). lia.
Qed.

Lemma utf8_length_spec (units : list Z) :
  Forall is_jchar units →
  UNICODE.utf8_length units (length units) = length (utf8_encode units).
Proof.
  intros H. unfold UNICODE.utf8_length.
  pose proof (utf8_length_loop_spec units [] [] 0%nat H) as E.
  simpl in E. now rewrite app_nil_r in E.
Qed.

(** ** Decoding what the encoder wrote *)

Lemma next_utf8_bytes (T : Z → Z) (u : Z) (rest : list Z) :
  is_jchar u →
  UTF8.next T (utf8_bytes u ++ rest) = (T u, length (utf8_bytes u)).
Proof.
  intros Hu. pose proof Hu as [Hu0 Hu1].
  destruct (utf8_bytes_cases u Hu) as [[H ->]|[[H ->]|[H ->]]]; simpl.
  - rewrite next_1; rewrite byte_at_cons_0; [reflexivity|lia].
  - rewrite next_2; rewrite ?byte_at_cons_S, ?byte_at_cons_0; try arith.
    repeat f_equal. arith.
  - rewrite next_3; rewrite ?byte_at_cons_S, ?byte_at_cons_0; try arith.
    repeat f_equal. arith.
Qed.

Lemma is_supplementary_character_bytes (u : Z) (rest : list Z) :
  is_jchar u → ¬ (0xD800 <= u <= 0xDBFF) →
  UTF8.is_supplementary_character (utf8_bytes u ++ rest) = false.
Proof.
  intros Hu Hs. pose proof Hu as [Hu0 Hu1]. unfold UTF8.is_supplementary_character.
  destruct (utf8_bytes_cases u Hu) as [[H ->]|[[H ->]|[H ->]]]; simpl;
    rewrite ?byte_at_cons_S, ?byte_at_cons_0.
  - rewrite land_FF_byte by (unfold is_byte; lia).
    replace (u =? 237) with false by lia. reflexivity.
  - rewrite land_FF_byte by (unfold is_byte; arith).
    replace (192 + u / 64 =? 237) with false by arith. reflexivity.
  - rewrite land_FF_byte by (unfold is_byte; arith).
    rewrite land_F0_A0_byte by (unfold is_byte; arith).
    destruct (Z.eqb_spec (224 + u / 4096) 237) as [E|E]; [|reflexivity].
    replace ((160 <=? 128 + (u / 64) mod 64) && (128 + (u / 64) mod 64 <? 176))
      with false by arith.
    reflexivity.
Qed.

Lemma utf16_units_supplementary (p : Z) :
  0x10000 <= p <= 0x10FFFF →
  ∃ h l, utf16_units p = [h; l]
         ∧ 0xD800 <= h <= 0xDBFF ∧ 0xDC00 <= l <= 0xDFFF
         ∧ p = 0x10000 + (h - 0xD800) * 1024 + (l - 0xDC00).
Proof.
  intros H. unfold utf16_units. replace (p <? 0x10000) with false by lia.
  eexists _, _. split; [reflexivity|].
  autorewrite with bits. repeat split; arith.
Qed.

Lemma supplementary_pair_bytes (h l : Z) (rest : list Z) :
  0xD800 <= h <= 0xDBFF → 0xDC00 <= l <= 0xDFFF →
  UTF8.is_supplementary_character (utf8_bytes h ++ utf8_bytes l ++ rest) = true
  ∧ UTF8.get_supplementary_character (utf8_bytes h ++ utf8_bytes l ++ rest)
    = 0x10000 + (h - 0xD800) * 1024 + (l - 0xDC00).
Proof.
  intros Hh Hl.
  rewrite (utf8_bytes_3 h), (utf8_bytes_3 l) by lia.
  unfold UTF8.is_supplementary_character, UTF8.get_supplementary_character. simpl.
  rewrite ?byte_at_cons_S, ?byte_at_cons_0.
  split.
  - rewrite !land_FF_byte by (unfold is_byte; arith).
    rewrite land_F0_A0_byte, land_F0_B0_byte by (unfold is_byte; arith).
    rewrite !land_C0_continuation by arith.
    replace (224 + h / 4096 =? 237) with true by arith.
    replace (224 + l / 4096 =? 237) with true by arith.
    simpl. rewrite !andb_true_r.
    apply andb_true_intro; split; apply andb_true_intro; split; arith.
  - autorewrite with bits. arith.
Qed.

(** Encoding the units of a code point and decoding one character. *)
Lemma next_character_round_trip (p : Z) (rest : list Z) :
  0 <= p <= 0x10FFFF → ¬ is_surrogate p →
  UTF8.next_character (utf8_encode (utf16_units p) ++ rest) = (p, table_size p).
Proof.
  intros Hp Hs. unfold is_surrogate in Hs. unfold UTF8.next_character.
  destruct (decide (p < 0x10000)) as [Hlt|Hge].
  - unfold utf16_units. replace (p <? 0x10000) with true by lia.
    unfold utf8_encode. simpl. rewrite app_nil_r.
    rewrite is_supplementary_character_bytes by (unfold is_jchar; lia).
    rewrite next_utf8_bytes by (unfold is_jchar; lia).
    rewrite jchar_id by lia. f_equal.
    rewrite utf8_bytes_length by lia.
    unfold UNICODE.utf8_size, table_size.
    destruct (Z.eqb_spec p 0) as [->|Hz]; [reflexivity|].
    replace (1 <=? p) with true by lia. simpl.
    replace (p <=? 65535) with true by lia.
    reflexivity.
  - destruct (utf16_units_supplementary p) as (h & l & -> & Hh & Hl & Ep); [lia|].
    unfold utf8_encode. simpl. rewrite app_nil_r, <- app_assoc.
    destruct (supplementary_pair_bytes h l rest Hh Hl) as [-> ->].
    f_equal; [lia|].
    unfold table_size.
    replace (p =? 0) with false by lia. replace (p <=? 127) with false by lia.
    replace (p <=? 2047) with false by lia. replace (p <=? 65535) with false by lia.
    reflexivity.
Qed.

Lemma utf16_units_encode_length (p : Z) :
  0 <= p <= 0x10FFFF → length (utf8_encode (utf16_units p)) = table_size p.
Proof.
  intros Hp. unfold table_size. destruct (decide (p < 0x10000)) as [Hlt|Hge].
  - unfold utf16_units. replace (p <? 0x10000) with true by lia.
    unfold utf8_encode. simpl. rewrite app_nil_r, utf8_bytes_length by lia.
    unfold UNICODE.utf8_size.
    destruct (Z.eqb_spec p 0) as [->|Hz]; [reflexivity|].
    replace (1 <=? p) with true by lia. simpl.
    replace (p <=? 65535) with true by lia.
    reflexivity.
  - destruct (utf16_units_supplementary p) as (h & l & -> & Hh & Hl & _); [lia|].
    unfold utf8_encode. simpl.
    rewrite app_nil_r, length_app, !utf8_bytes_length by lia.
    unfold UNICODE.utf8_size.
    replace (p =? 0) with false by lia. replace (p <=? 127) with false by lia.
    replace (p <=? 2047) with false by lia. replace (p <=? 65535) with false by lia.
    repeat case_match; lia.
Qed.

Lemma round_trip_point_range (p : Z) :
  round_trip_point p → 0 <= p <= 0x10FFFF ∧ ¬ is_surrogate p.
Proof. unfold round_trip_point, is_surrogate. intros H. split; lia. Qed.

(** ** Claims on the single-character codec *)

(** C1: for every code point [p] of the round-trip set (1..0x7F, 0x80, 0x7FF,
    0x800, 0x800..0xFFFF without the surrogates, 0x10000, 0x10FFFF), writing the
    UTF-16 code units of [p] with the encoder, [utf8_write] once per unit as
    [UNICODE::convert_to_utf8] does, into a buffer with room for the bytes of
    the table and the terminator succeeds, and [UTF8::next_character] on the
    bytes written yields [p] and consumes the byte count of the table. *)
Theorem round_trip_single_character (p : Z) (mem : list Z) :
  round_trip_point p →
  (table_size p < length mem)%nat →
  ∃ mem', UNICODE.convert_to_utf8 (utf16_units p) (length (utf16_units p)) mem = Ok mem'
          ∧ UTF8.next_character mem' = (p, table_size p).
Proof.
  intros Hp Hcap. apply round_trip_point_range in Hp as [Hr Hs].
  eexists. split.
  - apply convert_to_utf8_spec. now rewrite utf16_units_encode_length.
  - now apply next_character_round_trip.
Qed.

Lemma round_trip_single_character_witness :
  ∃ mem', UNICODE.convert_to_utf8 (utf16_units 0x10FFFF) 2 [1; 1; 1; 1; 1; 1; 1; 1] = Ok mem'
          ∧ UTF8.next_character mem' = (0x10FFFF, 6%nat).
Proof.
  apply (round_trip_single_character 0x10FFFF [1; 1; 1; 1; 1; 1; 1; 1]).
  - unfold round_trip_point, is_surrogate. lia.
  - vm_compute. lia.
Defined.

(** C7: on a lead byte of high nibble 0x8, 0x9, 0xA, 0xB or 0xF, and on a lead
    byte whose expected continuation bytes do not all have the top bits 10,
    [UTF8::next] stores the lead byte, converted to the type of [*value], and
    returns the pointer advanced by one byte; on every input it advances by at
    least one and at most three bytes. *)
Theorem next_lenient_fallback (T : Z → Z) (str : list Z) :
  (illegal_lead str ∨ broken_continuation str →
   UTF8.next T str = (T (byte_at str 0), 1%nat))
  ∧ (1 ≤ snd (UTF8.next T str) ≤ 3)%nat.
Proof.
  split.
  - intros [H|H]; [now apply next_illegal_lead|now apply next_broken_continuation].
  - apply next_progress.
Qed.

Lemma next_lenient_fallback_witness :
  UTF8.next jchar [0xE2; 0x82; 0x41] = (0xE2, 1%nat).
Proof.
  apply (proj1 (next_lenient_fallback jchar [0xE2; 0x82; 0x41])).
  right. right. split; [reflexivity|]. unfold is_continuation. vm_compute. discriminate.
Defined.

(** ** One turn of the byte-by-byte loop of the validator *)

Lemma continuation_spec (b : Z) :
  is_byte b → (Z.land b 0xC0 =? 0x80) = continuation b.
Proof. apply land_C0_byte. Qed.

Lemma is_supplementary_character_spec (str : list Z) :
  Forall is_byte str →
  UTF8.is_supplementary_character str = supplementary_pattern str.
Proof.
  intros Hb. unfold UTF8.is_supplementary_character, supplementary_pattern.
  rewrite !land_FF_byte, land_F0_A0_byte, land_F0_B0_byte, !continuation_spec
    by now apply byte_at_is_byte.
  reflexivity.
Qed.

Lemma Forall_is_byte_drop (l : list Z) (i : nat) :
  Forall is_byte l → Forall is_byte (drop i l).
Proof. apply Forall_drop. Qed.

Section ValidatorTurn.
Variable buffer : list Z.
Variable length : nat.
Variable version_leq_47 : bool.
Hypothesis buffer_bytes : Forall is_byte buffer.

Local Abbreviation legal := (UTF8.is_legal_utf8_bytes buffer length version_leq_47).
Local Abbreviation b_ i := (byte_at buffer i).

Lemma legal_done (i : nat) : (length ≤ i)%nat → legal i = true.
Proof.
  intros H. rewrite UTF8.is_legal_utf8_bytes_equation_1.
  destruct (decide (i < length)%nat); [lia|reflexivity].
Qed.

(** The turn at index [i], with the bit operations read as ranges. *)
Lemma legal_turn (i : nat) :
  (i < length)%nat →
  legal i =
    if b_ i =? 0 then false
    else if b_ i <? 0x80 then legal (i + 1)
    else if (i + 5 <? length)%nat && supplementary_pattern (drop i buffer) then legal (i + 6)
    else if b_ i <? 0xC0 then false
    else if b_ i <? 0xE0 then
      if (i + 1 <? length)%nat && continuation (b_ (i + 1))
         && (version_leq_47 || (value_2 (b_ i) (b_ (i + 1)) =? 0)
             || (0x80 <=? value_2 (b_ i) (b_ (i + 1))))
      then legal (i + 2) else false
    else if b_ i <? 0xF0 then
      if (i + 2 <? length)%nat && continuation (b_ (i + 1)) && continuation (b_ (i + 2))
         && (version_leq_47 || (0x800 <=? value_3 (b_ i) (b_ (i + 1)) (b_ (i + 2))))
      then legal (i + 3) else false
    else false.
Proof.
  intros Hi. rewrite UTF8.is_legal_utf8_bytes_equation_1.
  destruct (decide (i < length)%nat) as [Hd|]; [|lia].
  unfold UTF8.is_legal_utf8_bytes_unfold_clause_1.
  pose proof (byte_at_is_byte buffer i buffer_bytes) as Hb0.
  pose proof (byte_at_is_byte buffer (i + 1) buffer_bytes) as Hb1.
  pose proof (byte_at_is_byte buffer (i + 2) buffer_bytes) as Hb2.
  unfold is_byte in Hb0, Hb1, Hb2.
  destruct (Z.eqb_spec (b_ i) 0) as [|Hnz]; [reflexivity|].
  destruct (Z.ltb_spec (b_ i) 0x80) as [|Hhi]; [reflexivity|].
  rewrite is_supplementary_character_spec by now apply Forall_is_byte_drop.
  replace (i + 5 + 1)%nat with (i + 6)%nat by lia.
  destruct ((i + 5 <? length)%nat && supplementary_pattern (drop i buffer));
    [reflexivity|].
  rewrite shiftr_4.
  replace (i + 2 - 1)%nat with (i + 1)%nat by lia.
  replace (i + 1 + 1)%nat with (i + 2)%nat by lia.
  replace (i + 2 + 1)%nat with (i + 3)%nat by lia.
  assert (b_ i / 16 ∈ [8; 9; 10; 11; 12; 13; 14; 15]) as Hn.
  { assert (8 <= b_ i / 16 <= 15) as Hr by arith.
    rewrite !elem_of_cons. lia. }
  rewrite !elem_of_cons, elem_of_nil in Hn.
  assert (unsigned_short
            (unsigned_short (Z.shiftl (Z.land (b_ i) 0x1F) 6) + Z.land (b_ (i + 1)) 0x3F)
          = (b_ i mod 32) * 64 + b_ (i + 1) mod 64) as Hc2.
  { autorewrite with bits. unfold unsigned_short. arith. }
  assert (unsigned_short
            (unsigned_short (Z.shiftl (Z.land (b_ i) 0xF) 12)
             + (Z.shiftl (Z.land (b_ (i + 1)) 0x3F) 6 + Z.land (b_ (i + 2)) 0x3F))
          = (b_ i mod 16) * 4096 + (b_ (i + 1) mod 64) * 64 + b_ (i + 2) mod 64) as Hc3.
  { autorewrite with bits. unfold unsigned_short. arith. }
  destruct Hn as [E|[E|[E|[E|[E|[E|[E|[E|[]]]]]]]]]; rewrite E; cbv iota beta zeta;
    rewrite ?continuation_spec by (unfold is_byte; lia).
  - replace (b_ i <? 192) with true by arith. reflexivity.
  - replace (b_ i <? 192) with true by arith. reflexivity.
  - replace (b_ i <? 192) with true by arith. reflexivity.
  - replace (b_ i <? 192) with true by arith. reflexivity.
  - replace (b_ i <? 192) with false by arith.
    replace (b_ i <? 224) with true by arith.
    rewrite Hc2. unfold value_2, continuation.
    destruct (i + 1 <? length)%nat; [|reflexivity].
    destruct (Z.leb_spec 128 (b_ (i + 1))); [|reflexivity].
    destruct (Z.ltb_spec (b_ (i + 1)) 192); [|reflexivity].
    replace ((b_ i - 192) * 64 + (b_ (i + 1) - 128))
      with (b_ i mod 32 * 64 + b_ (i + 1) mod 64) by arith.
    reflexivity.
  - replace (b_ i <? 192) with false by arith.
    replace (b_ i <? 224) with true by arith.
    rewrite Hc2. unfold value_2, continuation.
    destruct (i + 1 <? length)%nat; [|reflexivity].
    destruct (Z.leb_spec 128 (b_ (i + 1))); [|reflexivity].
    destruct (Z.ltb_spec (b_ (i + 1)) 192); [|reflexivity].
    replace ((b_ i - 192) * 64 + (b_ (i + 1) - 128))
      with (b_ i mod 32 * 64 + b_ (i + 1) mod 64) by arith.
    reflexivity.
  - replace (b_ i <? 192) with false by arith.
    replace (b_ i <? 224) with false by arith.
    replace (b_ i <? 240) with true by arith.
    rewrite Hc3. unfold value_3, continuation.
    destruct (i + 2 <? length)%nat; [|reflexivity].
    destruct (Z.leb_spec 128 (b_ (i + 1))); [|reflexivity].
    destruct (Z.ltb_spec (b_ (i + 1)) 192); [|reflexivity].
    destruct (Z.leb_spec 128 (b_ (i + 2))); [|reflexivity].
    destruct (Z.ltb_spec (b_ (i + 2)) 192); [|reflexivity].
    replace ((b_ i - 224) * 4096 + (b_ (i + 1) - 128) * 64 + (b_ (i + 2) - 128))
      with (b_ i mod 16 * 4096 + b_ (i + 1) mod 64 * 64 + b_ (i + 2) mod 64) by arith.
    reflexivity.
  - replace (b_ i <? 192) with false by arith.
    replace (b_ i <? 224) with false by arith.
    replace (b_ i <? 240) with false by arith.
    reflexivity.
Qed.
End ValidatorTurn.

Lemma supplementary_pattern_drop (buffer : list Z) (i : nat) :
  supplementary_pattern (drop i buffer)
  = (byte_at buffer i =? 0xED)
    && ((0xA0 <=? byte_at buffer (i + 1)) && (byte_at buffer (i + 1) <? 0xB0))
    && continuation (byte_at buffer (i + 2))
    && (byte_at buffer (i + 3) =? 0xED)
    && ((0xB0 <=? byte_at buffer (i + 4)) && (byte_at buffer (i + 4) <? 0xC0))
    && continuation (byte_at buffer (i + 5)).
Proof.
  unfold supplementary_pattern. rewrite !byte_at_drop. now rewrite Nat.add_0_r.
Qed.

Lemma nat_ltb_true (i n : nat) : (i < n)%nat → (i <? n)%nat = true.
Proof. apply Nat.ltb_lt. Qed.

Section ValidatorSteps.
Variable buffer : list Z.
Variable length : nat.
Variable version_leq_47 : bool.
Hypothesis buffer_bytes : Forall is_byte buffer.

Local Abbreviation legal := (UTF8.is_legal_utf8_bytes buffer length version_leq_47).
Local Abbreviation b_ i := (byte_at buffer i).

Lemma legal_accept_1 (i : nat) :
  (i < length)%nat → 0 < b_ i < 0x80 → legal i = legal (i + 1).
Proof.
  intros Hi Hb. rewrite (legal_turn _ _ _ buffer_bytes i Hi).
  replace (b_ i =? 0) with false by lia. now replace (b_ i <? 0x80) with true by lia.
Qed.

Lemma legal_accept_6 (i : nat) :
  (i + 5 < length)%nat → supplementary_pattern (drop i buffer) = true →
  legal i = legal (i + 6).
Proof.
  intros Hi Hp. rewrite (legal_turn _ _ _ buffer_bytes i) by lia.
  rewrite Hp. rewrite supplementary_pattern_drop in Hp. unfold continuation in Hp.
  replace (b_ i =? 0) with false by lia. replace (b_ i <? 0x80) with false by lia.
  now rewrite nat_ltb_true by lia.
Qed.

Lemma legal_accept_2 (i : nat) :
  (i + 1 < length)%nat → 0xC0 <= b_ i < 0xE0 → 0x80 <= b_ (i + 1) < 0xC0 →
  version_leq_47 = true ∨ value_2 (b_ i) (b_ (i + 1)) = 0
    ∨ 0x80 <= value_2 (b_ i) (b_ (i + 1)) →
  legal i = legal (i + 2).
Proof.
  intros Hi Hb0 Hb1 Hv. rewrite (legal_turn _ _ _ buffer_bytes i) by lia.
  rewrite supplementary_pattern_drop.
  replace (b_ i =? 0) with false by lia. replace (b_ i <? 0x80) with false by lia.
  replace (b_ i =? 0xED) with false by lia. rewrite andb_false_r.
  replace (b_ i <? 0xC0) with false by lia. replace (b_ i <? 0xE0) with true by lia.
  rewrite nat_ltb_true by lia.
  unfold continuation.
  replace (0x80 <=? b_ (i + 1)) with true by lia.
  replace (b_ (i + 1) <? 0xC0) with true by lia.
  simpl.
  destruct version_leq_47; [reflexivity|]. simpl.
  destruct Hv as [Hv|[Hv|Hv]]; [discriminate| |].
  - rewrite Hv. reflexivity.
  - replace (128 <=? value_2 (b_ i) (b_ (i + 1))) with true by lia.
    now rewrite orb_true_r.
Qed.

Lemma legal_accept_3 (i : nat) :
  (i + 2 < length)%nat → 0xE0 <= b_ i < 0xF0 →
  0x80 <= b_ (i + 1) < 0xC0 → 0x80 <= b_ (i + 2) < 0xC0 →
  (i + 5 <? length)%nat && supplementary_pattern (drop i buffer) = false →
  version_leq_47 = true ∨ 0x800 <= value_3 (b_ i) (b_ (i + 1)) (b_ (i + 2)) →
  legal i = legal (i + 3).
Proof.
  intros Hi Hb0 Hb1 Hb2 Hs Hv. rewrite (legal_turn _ _ _ buffer_bytes i) by lia.
  rewrite Hs.
  replace (b_ i =? 0) with false by lia. replace (b_ i <? 0x80) with false by lia.
  replace (b_ i <? 0xC0) with false by lia. replace (b_ i <? 0xE0) with false by lia.
  replace (b_ i <? 0xF0) with true by lia.
  rewrite nat_ltb_true by lia.
  unfold continuation.
  replace (0x80 <=? b_ (i + 1)) with true by lia.
  replace (b_ (i + 1) <? 0xC0) with true by lia.
  replace (0x80 <=? b_ (i + 2)) with true by lia.
  replace (b_ (i + 2) <? 0xC0) with true by lia.
  simpl.
  destruct version_leq_47; [reflexivity|]. simpl.
  destruct Hv as [Hv|Hv]; [discriminate|].
  now replace (2048 <=? value_3 (b_ i) (b_ (i + 1)) (b_ (i + 2))) with true by lia.
Qed.

(** A run of non-NUL ASCII bytes is walked through. *)
Lemma legal_skip_ascii (n : nat) :
  ∀ i, (i + n ≤ length)%nat →
       (∀ j, (i ≤ j < i + n)%nat → 0 < b_ j < 0x80) →
       legal i = legal (i + n).
Proof.
  induction n as [|n IH]; intros i Hle Hall.
  - now rewrite Nat.add_0_r.
  - rewrite legal_accept_1 by (try apply Hall; lia).
    rewrite IH; [f_equal; lia|lia|].
    intros j Hj. apply Hall. lia.
Qed.
End ValidatorSteps.

(** ** The validator on the bytes of the encoder *)

Lemma utf8_bytes_is_byte (u : Z) : is_jchar u → Forall is_byte (utf8_bytes u).
Proof.
  intros Hu. pose proof Hu as [Hu0 Hu1].
  destruct (utf8_bytes_cases u Hu) as [[H ->]|[[H ->]|[H ->]]];
    repeat constructor; arith.
Qed.

Lemma utf8_encode_is_byte (units : list Z) :
  Forall is_jchar units → Forall is_byte (utf8_encode units).
Proof.
  induction 1 as [|u units Hu _ IH]; [constructor|].
  rewrite utf8_encode_cons. apply Forall_app. split; [now apply utf8_bytes_is_byte|exact IH].
Qed.

Lemma utf8_bytes_nonzero (u : Z) : is_jchar u → Forall (λ b, b ≠ 0) (utf8_bytes u).
Proof.
  intros Hu. pose proof Hu as [Hu0 Hu1].
  destruct (utf8_bytes_cases u Hu) as [[H ->]|[[H ->]|[H ->]]];
    repeat constructor; arith.
Qed.

Lemma byte_at_app_r0 (l1 l2 : list Z) : byte_at (l1 ++ l2) (length l1) = byte_at l2 0.
Proof. rewrite <- (Nat.add_0_r (length l1)) at 1. apply byte_at_app_r. Qed.

Lemma legal_utf8_encode (version_leq_47 : bool) (n : nat) :
  ∀ units pre suf,
    (length units ≤ n)%nat →
    Forall is_jchar units → Forall is_byte pre → Forall is_byte suf →
    UTF8.is_legal_utf8_bytes (pre ++ utf8_encode units ++ suf)
      (length pre + length (utf8_encode units)) version_leq_47 (length pre) = true.
Proof.
  induction n as [n IH] using lt_wf_ind.
  intros units pre suf Hn Hu Hpre Hsuf.
  destruct units as [|u units].
  { apply legal_done. simpl. lia. }
  inversion Hu as [|? ? Hu1 Hu2]; subst.
  assert (Forall is_byte (pre ++ utf8_encode (u :: units) ++ suf)) as Hbuf.
  { rewrite !Forall_app. auto using utf8_encode_is_byte. }
  pose proof Hu1 as [Hu0 Hu3].
  simpl in Hn.
  rewrite utf8_encode_cons in *.
  destruct (utf8_bytes_cases u Hu1) as [[H E]|[[H E]|[H E]]]; rewrite E in *.
  - (* one byte *)
    rewrite (legal_accept_1 _ _ _ Hbuf);
      rewrite ?byte_at_app_r0; simpl; rewrite ?byte_at_cons_0; try lia.
    specialize (IH (n - 1)%nat ltac:(lia) units (pre ++ [u]) suf ltac:(lia) Hu2).
    rewrite <- !app_assoc, length_app in IH. simpl in IH.
    replace (length pre + S (length (utf8_encode units)))%nat
      with (length pre + 1 + length (utf8_encode units))%nat by lia.
    apply IH; [|assumption].
    apply Forall_app. split; [assumption|]. repeat constructor; lia.
  - (* two bytes *)
    rewrite (legal_accept_2 _ _ _ Hbuf);
      rewrite ?byte_at_app_r, ?byte_at_app_r0; simpl;
      rewrite ?byte_at_cons_S, ?byte_at_cons_0; try arith.
    + specialize (IH (n - 1)%nat ltac:(lia) units (pre ++ [192 + u / 64; 128 + u mod 64])
                    suf ltac:(lia) Hu2).
      rewrite <- !app_assoc, length_app in IH. simpl in IH.
      replace (length pre + S (S (length (utf8_encode units))))%nat
        with (length pre + 2 + length (utf8_encode units))%nat by lia.
      apply IH; [|assumption].
      apply Forall_app. split; [assumption|]. repeat constructor; arith.
    + unfold value_2. right. arith.
  - (* three bytes *)
    destruct (Nat.ltb (length pre + 5) (length pre + (3 + length (utf8_encode units)))
              && supplementary_pattern
                   (drop (length pre)
                      (pre ++ ([224 + u / 4096; 128 + (u / 64) mod 64; 128 + u mod 64]
                               ++ utf8_encode units) ++ suf))) eqn:Hs.
    + (* the validator takes this unit and the next as one supplementary character *)
      apply andb_prop in Hs as [Hlen Hpat].
      apply Nat.ltb_lt in Hlen. simpl in Hlen.
      rewrite (legal_accept_6 _ _ _ Hbuf) by (simpl; first [lia|assumption]).
      rewrite drop_app_length in Hpat.
      unfold supplementary_pattern in Hpat. simpl in Hpat.
      rewrite ?byte_at_cons_S in Hpat.
      destruct units as [|u2 units]; [simpl in Hlen; lia|].
      inversion Hu2 as [|? ? Hv1 Hv2]; subst.
      pose proof Hv1 as [Hv0 Hv3].
      rewrite utf8_encode_cons in *.
      destruct (utf8_bytes_cases u2 Hv1) as [[H2 E2]|[[H2 E2]|[H2 E2]]];
        rewrite E2 in *; simpl in Hpat; rewrite ?byte_at_cons_S, ?byte_at_cons_0 in Hpat;
        [exfalso; arith|exfalso; arith|].
      simpl in Hn.
      specialize (IH (n - 2)%nat ltac:(lia) units
                    (pre ++ [224 + u / 4096; 128 + (u / 64) mod 64; 128 + u mod 64;
                             224 + u2 / 4096; 128 + (u2 / 64) mod 64; 128 + u2 mod 64])
                    suf ltac:(lia) Hv2).
      rewrite <- !app_assoc, length_app in IH. simpl in IH. simpl.
      replace (length pre + S (S (S (S (S (S (length (utf8_encode units))))))))%nat
        with (length pre + 6 + length (utf8_encode units))%nat by lia.
      apply IH; [|assumption].
      apply Forall_app. split; [assumption|]. repeat constructor; arith.
    + rewrite (legal_accept_3 _ _ _ Hbuf);
        rewrite ?byte_at_app_r, ?byte_at_app_r0; simpl;
        rewrite ?byte_at_cons_S, ?byte_at_cons_0; try arith.
      * specialize (IH (n - 1)%nat ltac:(lia) units
                      (pre ++ [224 + u / 4096; 128 + (u / 64) mod 64; 128 + u mod 64])
                      suf ltac:(lia) Hu2).
        rewrite <- !app_assoc, length_app in IH. simpl in IH.
        replace (length pre + S (S (S (length (utf8_encode units)))))%nat
          with (length pre + 3 + length (utf8_encode units))%nat by lia.
        apply IH; [|assumption].
        apply Forall_app. split; [assumption|]. repeat constructor; arith.
      * exact Hs.
      * unfold value_3. right. arith.
Qed.

(** ** The fast path of the validator *)

Lemma high_bit_u_char (z : Z) : (128 <=? u_char z) = Z.testbit z 7.
Proof.
  rewrite Z.testbit_odd, Z.shiftr_div_pow2 by lia. change (2 ^ 7) with 128.
  unfold u_char.
  destruct (Z.odd (z / 128)) eqn:E.
  - apply Z.odd_spec in E as [m Hm]. apply Z.leb_le. arith.
  - rewrite <- Z.negb_even in E. apply negb_false_iff, Z.even_spec in E as [m Hm].
    apply Z.leb_gt. arith.
Qed.

Lemma fast_path_byte : ∀ v, is_byte v →
  Z.testbit v 7 || Z.testbit (v - 1) 7 = negb (plain_ascii v).
Proof. by_range 256%nat. Qed.

Lemma fast_path_expression : ∀ v, is_byte v →
  (u_char (Z.lor v (v - 1)) <? 128) = plain_ascii v.
Proof. by_range 256%nat. Qed.

Lemma fast_path_block (b0 b1 b2 b3 : Z) :
  is_byte b0 → is_byte b1 → is_byte b2 → is_byte b3 →
  (128 <=? u_char (Z.lor (Z.lor (Z.lor (Z.lor (Z.lor (Z.lor (Z.lor
              b0 (b0 - 1)) b1) (b1 - 1)) b2) (b2 - 1)) b3) (b3 - 1)))
  = negb (plain_ascii b0 && plain_ascii b1 && plain_ascii b2 && plain_ascii b3).
Proof.
  intros H0 H1 H2 H3.
  rewrite high_bit_u_char, !Z.lor_spec.
  rewrite !negb_andb, <- !fast_path_byte by assumption.
  now rewrite !orb_assoc.
Qed.

Lemma is_legal_utf8_blocks_S (buffer : list Z) (k i : nat) :
  Forall is_byte buffer →
  UTF8.is_legal_utf8_blocks buffer (S k) i
  = if plain_ascii (byte_at buffer i) && plain_ascii (byte_at buffer (i + 1))
       && plain_ascii (byte_at buffer (i + 2)) && plain_ascii (byte_at buffer (i + 3))
    then UTF8.is_legal_utf8_blocks buffer k (i + 4)
    else i.
Proof.
  intros Hb. simpl. rewrite fast_path_block by now apply byte_at_is_byte.
  now destruct (_ && _).
Qed.

Lemma is_legal_utf8_blocks_spec (buffer : list Z) :
  Forall is_byte buffer →
  ∀ k i,
    (i ≤ UTF8.is_legal_utf8_blocks buffer k i ≤ i + 4 * k)%nat
    ∧ ∀ j, (i ≤ j < UTF8.is_legal_utf8_blocks buffer k i)%nat →
           0 < byte_at buffer j < 0x80.
Proof.
  intros Hb. induction k as [|k IH]; intros i.
  - simpl. split; [lia|]. intros j Hj. lia.
  - rewrite is_legal_utf8_blocks_S by assumption.
    destruct (_ && _) eqn:E; [|split; [lia|intros j Hj; lia]].
    destruct (IH (i + 4)%nat) as [Hr Hall].
    split; [lia|]. intros j Hj.
    destruct (decide (i + 4 ≤ j)%nat) as [Hge|Hlt]; [apply Hall; lia|].
    unfold plain_ascii in E.
    assert (j = i ∨ j = i + 1 ∨ j = i + 2 ∨ j = i + 3)%nat as [->|[->|[->| ->]]] by lia; lia.
Qed.

Lemma is_legal_utf8_fast_path (buffer : list Z) (length : nat) (version_leq_47 : bool) :
  Forall is_byte buffer →
  UTF8.is_legal_utf8 buffer length version_leq_47
  = UTF8.is_legal_utf8_no_fast_path buffer length version_leq_47.
Proof.
  intros Hb. unfold UTF8.is_legal_utf8, UTF8.is_legal_utf8_no_fast_path.
  destruct (is_legal_utf8_blocks_spec buffer Hb (Nat.shiftr length 2) 0) as [Hr Hall].
  set (i := UTF8.is_legal_utf8_blocks buffer (Nat.shiftr length 2) 0) in *.
  assert (i ≤ length)%nat as Hi.
  { rewrite Nat.shiftr_div_pow2 in Hr. change (2 ^ 2)%nat with 4%nat in Hr.
    pose proof (Nat.Div0.mul_div_le length 4). lia. }
  symmetry. apply (legal_skip_ascii buffer length version_leq_47 Hb i 0); simpl; [lia|].
  intros j Hj. apply Hall. lia.
Qed.

(** ** The bounded writer *)

#[local] Arguments utf8_encode : simpl never.

Lemma fitting_prefix (units : list Z) :
  Forall is_jchar units →
  ∀ buflen, ∃ rest, units = fitting units buflen ++ rest
    ∧ match rest with
      | [] => True
      | u :: _ =>
          (buflen - length (utf8_encode (fitting units buflen))
           ≤ UNICODE.utf8_size u)%nat
      end.
Proof.
  induction 1 as [|u units Hu _ IH]; intros buflen; simpl.
  - exists []. auto.
  - destruct (Nat.leb_spec buflen (UNICODE.utf8_size u)) as [Hle|Hgt].
    + exists (u :: units). simpl. split; [reflexivity|lia].
    + destruct (IH (buflen - UNICODE.utf8_size u)%nat) as (rest & Hrest & Hstop).
      exists rest. split; [simpl; congruence|].
      destruct rest as [|r rest]; [exact I|].
      rewrite utf8_encode_cons, length_app, utf8_bytes_length
        by (unfold is_jchar in Hu; lia).
      lia.
Qed.

Lemma fitting_length (units : list Z) :
  Forall is_jchar units →
  ∀ buflen, (0 < buflen)%nat →
            (length (utf8_encode (fitting units buflen)) < buflen)%nat.
Proof.
  induction 1 as [|u units Hu _ IH]; intros buflen Hpos; simpl; [lia|].
  destruct (Nat.leb_spec buflen (UNICODE.utf8_size u)) as [Hle|Hgt]; simpl; [lia|].
  rewrite utf8_encode_cons, length_app, utf8_bytes_length
    by (unfold is_jchar in Hu; lia).
  specialize (IH (buflen - UNICODE.utf8_size u)%nat). lia.
Qed.

Lemma fitting_all (units : list Z) :
  Forall is_jchar units →
  ∀ buflen, (length (utf8_encode units) < buflen)%nat → fitting units buflen = units.
Proof.
  induction 1 as [|u units Hu _ IH]; intros buflen Hcap; simpl; [reflexivity|].
  rewrite utf8_encode_cons, length_app, utf8_bytes_length in Hcap
    by (unfold is_jchar in Hu; lia).
  destruct (Nat.leb_spec buflen (UNICODE.utf8_size u)) as [Hle|Hgt]; [lia|].
  f_equal. apply IH. lia.
Qed.

Lemma as_utf8_loop_spec (units : list Z) :
  Forall is_jchar units →
  ∀ done extra pre rest buflen,
    (buflen ≤ length rest)%nat →
    UNICODE.as_utf8_loop (done ++ units ++ extra) (length units) (length done)
      (pre ++ rest) (length pre) buflen
    = Ok (pre ++ utf8_encode (fitting units buflen)
              ++ drop (length (utf8_encode (fitting units buflen))) rest,
          (length pre + length (utf8_encode (fitting units buflen)))%nat).
Proof.
  induction 1 as [|u units Hu _ IH]; intros done extra pre rest buflen Hcap.
  - simpl. now rewrite Nat.add_0_r.
  - simpl. rewrite unit_at_middle.
    destruct (Nat.leb_spec buflen (UNICODE.utf8_size u)) as [Hle|Hgt].
    + simpl. now rewrite Nat.add_0_r.
    + pose proof (utf8_bytes_length u ltac:(unfold is_jchar in Hu; lia)) as Hsz.
      rewrite <- (take_drop (UNICODE.utf8_size u) rest) at 1.
      rewrite utf8_write_at by (rewrite length_take; lia).
      simpl.
      replace (length done + 1)%nat with (length (done ++ [u]))
        by (rewrite length_app; reflexivity).
      replace (length pre + length (utf8_bytes u))%nat with (length (pre ++ utf8_bytes u))
        by (rewrite length_app; reflexivity).
      rewrite (app_assoc pre), (cons_middle u done), (app_assoc done).
      rewrite IH by (rewrite length_drop; lia).
      rewrite utf8_encode_cons, !length_app, <- !app_assoc, drop_drop, Hsz.
      now rewrite Nat.add_assoc.
Qed.

(** What the bounded writer leaves in the buffer. *)
Lemma as_utf8_spec (units buf : list Z) (buflen : nat) :
  Forall is_jchar units → (0 < buflen ≤ length buf)%nat →
  UNICODE.as_utf8 units (length units) buf buflen
  = Ok (utf8_encode (fitting units buflen)
        ++ 0 :: drop (S (length (utf8_encode (fitting units buflen)))) buf).
Proof.
  intros Hu [Hpos Hcap]. unfold UNICODE.as_utf8.
  replace (0 <? buflen)%nat with true by (symmetry; now apply Nat.ltb_lt).
  simpl.
  pose proof (as_utf8_loop_spec units Hu [] [] [] buf buflen Hcap) as H.
  simpl in H. rewrite app_nil_r in H. rewrite H. simpl.
  pose proof (fitting_length units Hu buflen Hpos) as Hlen.
  set (n := length (utf8_encode (fitting units buflen))) in *.
  destruct (lookup_lt_is_Some_2 buf n ltac:(lia)) as [x Hx].
  rewrite (drop_S buf x n Hx).
  now apply store_at.
Qed.

Lemma strlen_app_nonzero (l rest : list Z) :
  Forall (λ b, b ≠ 0) l → strlen (l ++ 0 :: rest) = length l.
Proof.
  induction 1 as [|b l Hb _ IH]; simpl; [reflexivity|].
  destruct (Z.eqb_spec b 0); [contradiction|]. now rewrite IH.
Qed.

Lemma utf8_encode_nonzero (units : list Z) :
  Forall is_jchar units → Forall (λ b, b ≠ 0) (utf8_encode units).
Proof.
  induction 1 as [|u units Hu _ IH]; [constructor|].
  rewrite utf8_encode_cons. apply Forall_app. split; [now apply utf8_bytes_nonzero|exact IH].
Qed.

(** A length that fits an [int] comes through [static_cast<int>] unchanged. *)
Lemma int_turns_static_cast (length : nat) :
  Z.of_nat length <= INT_MAX →
  UNICODE.int_turns (static_cast_int (Z.of_nat length)) = length.
Proof.
  intros H. unfold UNICODE.int_turns, static_cast_int, INT_MAX in *.
  replace ((Z.of_nat length + 2 ^ 31) mod 2 ^ 32 - 2 ^ 31) with (Z.of_nat length)
    by (rewrite Z.mod_small by lia; lia).
  apply Nat2Z.id.
Qed.

Lemma as_utf8_alloc_spec (NEW_RESOURCE_ARRAY : nat → list Z) (units : list Z) :
  (∀ n, length (NEW_RESOURCE_ARRAY n) = n) →
  Forall is_jchar units →
  Z.of_nat (length units) <= INT_MAX →
  UNICODE.as_utf8_alloc NEW_RESOURCE_ARRAY units (length units)
  = Ok (utf8_encode units ++ [0], UNICODE.utf8_length units (length units)).
Proof.
  intros Halloc Hu Hint. unfold UNICODE.as_utf8_alloc, UNICODE.as_utf8_template.
  rewrite int_turns_static_cast by exact Hint.
  rewrite utf8_length_spec by assumption.
  set (n := length (utf8_encode units)).
  rewrite as_utf8_spec by (try assumption; rewrite Halloc; lia).
  rewrite fitting_all by (try assumption; fold n; lia).
  fold n. simpl.
  rewrite drop_ge by (rewrite Halloc; lia).
  rewrite strlen_app_nonzero by now apply utf8_encode_nonzero.
  fold n. now rewrite Nat.eqb_refl.
Qed.

(** A length of 2^31 is narrowed to a negative [int]: no unit is encoded. *)
Lemma as_utf8_alloc_narrowed (NEW_RESOURCE_ARRAY : nat → list Z) (base : list Z)
    (length : nat) :
  (∀ n, List.length (NEW_RESOURCE_ARRAY n) = n) →
  Z.of_nat length = 2 ^ 31 →
  UNICODE.as_utf8_alloc NEW_RESOURCE_ARRAY base length = Ok ([0], 0%nat).
Proof.
  intros Halloc Hlen. unfold UNICODE.as_utf8_alloc, UNICODE.as_utf8_template.
  rewrite Hlen. change (UNICODE.int_turns (static_cast_int (2 ^ 31))) with 0%nat.
  cbn [UNICODE.utf8_length UNICODE.utf8_length_loop Nat.add].
  specialize (Halloc 1%nat).
  destruct (NEW_RESOURCE_ARRAY 1%nat) as [|x [|]]; try discriminate.
  reflexivity.
Qed.

(** ** Claims on the bulk encoder and the validator *)

Lemma is_legal_utf8_encoded (units suf : list Z) (version_leq_47 : bool) :
  Forall is_jchar units → Forall is_byte suf →
  UTF8.is_legal_utf8 (utf8_encode units ++ suf) (length (utf8_encode units)) version_leq_47
  = true.
Proof.
  intros Hu Hsuf.
  rewrite is_legal_utf8_fast_path
    by (apply Forall_app; auto using utf8_encode_is_byte).
  apply (legal_utf8_encode version_leq_47 (length units) units [] suf);
    auto using Forall_nil_2.
Qed.

(** C2: for every sequence of 16-bit code units, zeros, lone surrogates and
    surrogate pairs included, the buffer [UNICODE::convert_to_utf8] and
    [UNICODE::as_utf8] produce, in a buffer with room for the bytes and the
    terminator, is accepted by [UTF8::is_legal_utf8] over its counted length,
    whatever [version_leq_47] is. *)
Theorem bulk_encoder_output_is_legal (units mem : list Z) (version_leq_47 : bool) :
  Forall is_jchar units → Forall is_byte mem →
  (UNICODE.utf8_length units (length units) < length mem)%nat →
  (∃ mem', UNICODE.convert_to_utf8 units (length units) mem = Ok mem'
           ∧ UTF8.is_legal_utf8 mem' (UNICODE.utf8_length units (length units))
               version_leq_47 = true)
  ∧ (∃ buf', UNICODE.as_utf8 units (length units) mem (length mem) = Ok buf'
             ∧ UTF8.is_legal_utf8 buf' (UNICODE.utf8_length units (length units))
                 version_leq_47 = true).
Proof.
  intros Hu Hmem Hcap. rewrite utf8_length_spec in * by assumption.
  assert (Forall is_byte (0 :: drop (S (length (utf8_encode units))) mem)) as Hsuf.
  { constructor; [unfold is_byte; lia|now apply Forall_drop]. }
  split; eexists; split.
  - now apply convert_to_utf8_spec.
  - now apply is_legal_utf8_encoded.
  - rewrite as_utf8_spec by (try assumption; lia).
    rewrite fitting_all by assumption. reflexivity.
  - now apply is_legal_utf8_encoded.
Qed.

Lemma bulk_encoder_output_is_legal_witness :
  (∃ mem', UNICODE.convert_to_utf8 [0; 0x41; 0xD83D; 0xDE00; 0xDC00; 0x20AC] 6
             (repeat 0xFF 16) = Ok mem'
           ∧ UTF8.is_legal_utf8 mem'
               (UNICODE.utf8_length [0; 0x41; 0xD83D; 0xDE00; 0xDC00; 0x20AC] 6) false = true)
  ∧ (∃ buf', UNICODE.as_utf8 [0; 0x41; 0xD83D; 0xDE00; 0xDC00; 0x20AC] 6
               (repeat 0xFF 16) 16 = Ok buf'
             ∧ UTF8.is_legal_utf8 buf'
                 (UNICODE.utf8_length [0; 0x41; 0xD83D; 0xDE00; 0xDC00; 0x20AC] 6) false = true).
Proof.
  apply (bulk_encoder_output_is_legal [0; 0x41; 0xD83D; 0xDE00; 0xDC00; 0x20AC]
           (repeat 0xFF 16) false).
  - repeat constructor; lia.
  - repeat constructor; lia.
  - vm_compute. lia.
Defined.

(** C8: for every unsigned byte [v], [v | (v - 1)] as an unsigned byte has its
    high bit clear exactly when [0 < v < 128]; a block of the fast path is
    skipped exactly when its four bytes are non-NUL ASCII; and
    [UTF8::is_legal_utf8] returns what the byte-by-byte phase returns when run
    from index 0. *)
Theorem fast_path_keeps_verdict :
  (∀ v, is_byte v → ((u_char (Z.lor v (v - 1)) <? 128) = true ↔ 0 < v < 128))
  ∧ (∀ buffer k i, Forall is_byte buffer →
       UTF8.is_legal_utf8_blocks buffer (S k) i
       = if plain_ascii (byte_at buffer i) && plain_ascii (byte_at buffer (i + 1))
            && plain_ascii (byte_at buffer (i + 2)) && plain_ascii (byte_at buffer (i + 3))
         then UTF8.is_legal_utf8_blocks buffer k (i + 4)
         else i)
  ∧ (∀ buffer length version_leq_47, Forall is_byte buffer →
       UTF8.is_legal_utf8 buffer length version_leq_47
       = UTF8.is_legal_utf8_no_fast_path buffer length version_leq_47).
Proof.
  split; [|split].
  - intros v Hv. rewrite fast_path_expression by assumption. unfold plain_ascii. lia.
  - intros buffer k i Hb. now apply is_legal_utf8_blocks_S.
  - intros buffer length v Hb. now apply is_legal_utf8_fast_path.
Qed.

Lemma fast_path_keeps_verdict_witness :
  ((u_char (Z.lor 0 (0 - 1)) <? 128) = true ↔ 0 < 0 < 128)
  ∧ UTF8.is_legal_utf8 [0x41; 0x42; 0x43; 0x44; 0xC3; 0xA9; 0x45] 7 false
    = UTF8.is_legal_utf8_no_fast_path [0x41; 0x42; 0x43; 0x44; 0xC3; 0xA9; 0x45] 7 false.
Proof.
  split.
  - apply (proj1 fast_path_keeps_verdict 0). unfold is_byte. lia.
  - apply (proj2 (proj2 fast_path_keeps_verdict)). repeat constructor; lia.
Defined.

(** *** The overloads for [jbyte] *)

Lemma land_FF (x : Z) : Z.land x 0xff = x mod 256.
Proof. change 0xff with (Z.ones 8). now rewrite Z.land_ones. Qed.

Lemma jbyte_bytes_cases (c : Z) :
  is_jbyte c →
  (1 <= c ∧ jbyte_bytes c = [c] ∧ UNICODE.utf8_size_jbyte c = 1%nat)
  ∨ (c <= 0 ∧ Z.land (jchar c) 0xff = c mod 256
     ∧ jbyte_bytes c = utf8_bytes (c mod 256)
     ∧ jbyte_bytes c = [0xC0 + (c mod 256) / 64; 0x80 + (c mod 256) mod 64]
     ∧ UNICODE.utf8_size_jbyte c = 2%nat).
Proof.
  intros [H0 H1]. unfold jbyte_bytes, UNICODE.utf8_size_jbyte.
  destruct (Z.leb_spec 1 c) as [Hpos|Hneg].
  - left. rewrite u_char_id by lia. auto.
  - right.
    assert (Z.land (jchar c) 0xff = c mod 256) as ->
      by (rewrite land_FF; unfold jchar; arith).
    repeat split; try lia.
    apply utf8_bytes_2. arith.
Qed.

Lemma as_utf8_jbyte_loop_spec (units : list Z) :
  Forall is_jbyte units →
  ∀ done extra pre old suf buflen,
    length old = length (flat_map jbyte_bytes units) →
    (length old < buflen)%nat →
    UNICODE.as_utf8_jbyte_loop (done ++ units ++ extra) (length units) (length done)
      (pre ++ old ++ suf) (length pre) buflen
    = Ok (pre ++ flat_map jbyte_bytes units ++ suf,
          (length pre + length (flat_map jbyte_bytes units))%nat).
Proof.
  induction 1 as [|c units Hc _ IH]; intros done extra pre old suf buflen Hlen Hcap.
  - destruct old; [|discriminate]. simpl. now rewrite Nat.add_0_r.
  - cbn [flat_map] in *. rewrite length_app in Hlen.
    cbn [UNICODE.as_utf8_jbyte_loop length app]. rewrite unit_at_middle.
    replace (length done + 1)%nat with (length (done ++ [c]))
      by (rewrite length_app; reflexivity).
    rewrite (cons_middle c done), (app_assoc done).
    destruct (jbyte_bytes_cases c Hc) as [(Hpos & Eb & ->)|(Hneg & -> & Eu & Eb & ->)].
    + rewrite Eb in *. simpl in Hlen.
      destruct old as [|a old]; [discriminate|]. simpl in Hcap.
      rewrite (proj2 (Nat.leb_gt _ _)) by lia. simpl.
      rewrite store_at by reflexivity. simpl.
      rewrite u_char_id by (unfold is_jbyte in Hc; lia).
      replace (length pre + 1)%nat with (length (pre ++ [c]))
        by (rewrite length_app; reflexivity).
      rewrite (cons_middle c pre), (app_assoc pre).
      rewrite IH by (simpl in *; lia).
      rewrite length_app, <- !app_assoc. simpl. f_equal. f_equal. lia.
    + assert (length (utf8_bytes (c mod 256)) = 2%nat) as Hl2
        by (rewrite <- Eu, Eb; reflexivity).
      rewrite Eb in Hlen. simpl in Hlen.
      rewrite (proj2 (Nat.leb_gt _ _)) by lia. simpl.
      rewrite <- (take_drop 2 old), <- app_assoc.
      rewrite utf8_write_at by (rewrite length_take, Hl2; lia).
      simpl. rewrite Hl2.
      replace (length pre + 2)%nat with (length (pre ++ utf8_bytes (c mod 256)))
        by (rewrite length_app, Hl2; reflexivity).
      rewrite (app_assoc pre).
      rewrite IH by (rewrite length_drop; lia).
      rewrite Eu, !length_app, <- !app_assoc. f_equal. f_equal. lia.
Qed.

Lemma utf8_length_jbyte_spec (units : list Z) :
  Forall is_jbyte units →
  UNICODE.utf8_length_jbyte units (length units) = length (flat_map jbyte_bytes units).
Proof.
  intros Hu. unfold UNICODE.utf8_length_jbyte.
  enough (∀ done acc,
             UNICODE.utf8_length_loop UNICODE.utf8_size_jbyte (done ++ units)
               (length units) (length done) acc
             = (acc + length (flat_map jbyte_bytes units))%nat) as H
    by apply (H [] 0%nat).
  induction Hu as [|c units Hc _ IH]; intros done acc; simpl; [lia|].
  rewrite unit_at_middle.
  replace (length done + 1)%nat with (length (done ++ [c]))
    by (rewrite length_app; reflexivity).
  rewrite (cons_middle c done), (app_assoc done), IH, length_app.
  destruct (jbyte_bytes_cases c Hc) as [(_ & -> & ->)|(_ & _ & _ & -> & ->)]; simpl; lia.
Qed.

Lemma jbyte_bytes_nonzero (units : list Z) :
  Forall is_jbyte units → Forall (λ b, b ≠ 0) (flat_map jbyte_bytes units).
Proof.
  induction 1 as [|c units Hc _ IH]; [constructor|].
  cbn [flat_map]. apply Forall_app. split; [|exact IH].
  destruct (jbyte_bytes_cases c Hc) as [(Hpos & -> & _)|(_ & _ & _ & -> & _)];
    repeat constructor; arith.
Qed.

Lemma as_utf8_alloc_jbyte_spec (NEW_RESOURCE_ARRAY : nat → list Z) (units : list Z) :
  (∀ n, length (NEW_RESOURCE_ARRAY n) = n) →
  Forall is_jbyte units →
  Z.of_nat (length units) <= INT_MAX →
  UNICODE.as_utf8_alloc_jbyte NEW_RESOURCE_ARRAY units (length units)
  = Ok (flat_map jbyte_bytes units ++ [0],
        UNICODE.utf8_length_jbyte units (length units)).
Proof.
  intros Halloc Hu Hint. unfold UNICODE.as_utf8_alloc_jbyte, UNICODE.as_utf8_template.
  rewrite int_turns_static_cast by exact Hint.
  rewrite utf8_length_jbyte_spec by assumption.
  set (n := length (flat_map jbyte_bytes units)).
  unfold UNICODE.as_utf8_jbyte.
  rewrite nat_ltb_true by lia. cbn [c_assert bind].
  specialize (Halloc (n + 1)%nat).
  destruct (NEW_RESOURCE_ARRAY (n + 1)%nat) as [|x0 buf0] eqn:Ebuf using rev_ind;
    [simpl in Halloc; lia|].
  clear IHbuf0. rewrite length_app in Halloc. simpl in Halloc.
  pose proof (as_utf8_jbyte_loop_spec units Hu [] [] [] buf0 [x0] (n + 1)%nat) as H.
  simpl in H. rewrite app_nil_r in H. rewrite H by (fold n; lia).
  cbn [bind fst snd]. fold n.
  rewrite store_at by reflexivity. cbn [bind].
  rewrite strlen_app_nonzero by now apply jbyte_bytes_nonzero.
  fold n. now rewrite Nat.eqb_refl.
Qed.

(** C9: with [buflen > 0], the bounded writer [UNICODE::as_utf8] writes the
    encodings of a prefix [written] of the units in order and then a NUL, as
    [UNICODE::convert_to_utf8] does for [written] alone; the bytes of [written]
    leave a byte to spare, and the first unit left out, if there is one, has a
    size that is not below the capacity that remained; no store fails and
    nothing at or beyond [buf + buflen] changes.  The overload that sizes the
    buffer itself, called with a length that fits the [int] it is narrowed
    to, passes its assertion, for [jchar] and for [jbyte] units: the string it
    returns has the length [utf8_length] predicted. *)
Theorem as_utf8_bounded (units buf : list Z) (buflen : nat) :
  Forall is_jchar units → (0 < buflen ≤ length buf)%nat →
  (∃ written rest buf',
     units = written ++ rest
     ∧ UNICODE.as_utf8 units (length units) buf buflen = Ok buf'
     ∧ buf' = utf8_encode written ++ 0 :: drop (S (length (utf8_encode written))) buf
     ∧ UNICODE.convert_to_utf8 written (length written) buf = Ok buf'
     ∧ (UNICODE.utf8_length written (length written) < buflen)%nat
     ∧ (∀ u rest', rest = u :: rest' →
          (buflen - UNICODE.utf8_length written (length written)
           ≤ UNICODE.utf8_size u)%nat)
     ∧ length buf' = length buf
     ∧ (∀ j, (buflen ≤ j)%nat → buf' !! j = buf !! j))
  ∧ (∀ NEW_RESOURCE_ARRAY : nat → list Z,
       (∀ n, length (NEW_RESOURCE_ARRAY n) = n) →
       Z.of_nat (length units) <= INT_MAX →
       ∃ result,
         UNICODE.as_utf8_alloc NEW_RESOURCE_ARRAY units (length units)
         = Ok (result, UNICODE.utf8_length units (length units))
         ∧ result = utf8_encode units ++ [0]
         ∧ strlen result = UNICODE.utf8_length units (length units))
  ∧ (∀ (NEW_RESOURCE_ARRAY : nat → list Z) (latin1 : list Z),
       (∀ n, length (NEW_RESOURCE_ARRAY n) = n) →
       Forall is_jbyte latin1 →
       Z.of_nat (length latin1) <= INT_MAX →
       ∃ result,
         UNICODE.as_utf8_alloc_jbyte NEW_RESOURCE_ARRAY latin1 (length latin1)
         = Ok (result, UNICODE.utf8_length_jbyte latin1 (length latin1))
         ∧ strlen result = UNICODE.utf8_length_jbyte latin1 (length latin1)).
Proof.
  intros Hu [Hpos Hcap]. split; [|split].
  - destruct (fitting_prefix units Hu buflen) as (rest & Hsplit & Hstop).
    pose proof (fitting_length units Hu buflen Hpos) as Hlen.
    set (written := fitting units buflen) in *.
    set (n := length (utf8_encode written)) in *.
    assert (length (utf8_encode written ++ 0 :: drop (S n) buf) = length buf) as Hsame.
    { rewrite length_app. simpl. rewrite length_drop. fold n. lia. }
    assert (Forall is_jchar written) as Hw.
    { rewrite Hsplit in Hu. now apply Forall_app in Hu as [Hu1 _]. }
    exists written, rest, (utf8_encode written ++ 0 :: drop (S n) buf).
    rewrite (utf8_length_spec written Hw). fold n.
    repeat split; try assumption.
    + now apply as_utf8_spec.
    + apply convert_to_utf8_spec. fold n. lia.
    + intros u rest' ->. exact Hstop.
    + intros j Hj. rewrite lookup_app_r by (fold n; lia). fold n.
      destruct (j - n)%nat as [|m] eqn:E; [lia|]. simpl.
      rewrite lookup_drop. f_equal. lia.
  - intros alloc Halloc Hint. eexists. split; [|split].
    + now apply as_utf8_alloc_spec.
    + reflexivity.
    + rewrite utf8_length_spec by assumption.
      apply strlen_app_nonzero. now apply utf8_encode_nonzero.
  - intros alloc latin1 Halloc Hl Hint. eexists. split.
    + now apply as_utf8_alloc_jbyte_spec.
    + rewrite utf8_length_jbyte_spec by assumption.
      apply strlen_app_nonzero. now apply jbyte_bytes_nonzero.
Qed.

Lemma as_utf8_bounded_witness :
  (∃ written rest buf',
     [0x41; 0x20AC; 0x42] = written ++ rest
     ∧ UNICODE.as_utf8 [0x41; 0x20AC; 0x42] 3 [7; 7; 7; 7; 7] 4 = Ok buf'
     ∧ buf' = utf8_encode written ++ 0 :: drop (S (length (utf8_encode written))) [7; 7; 7; 7; 7]
     ∧ UNICODE.convert_to_utf8 written (length written) [7; 7; 7; 7; 7] = Ok buf'
     ∧ (UNICODE.utf8_length written (length written) < 4)%nat
     ∧ (∀ u rest', rest = u :: rest' →
          (4 - UNICODE.utf8_length written (length written) ≤ UNICODE.utf8_size u)%nat)
     ∧ length buf' = 5%nat
     ∧ (∀ j, (4 ≤ j)%nat → buf' !! j = [7; 7; 7; 7; 7] !! j))
  ∧ (∃ result,
       UNICODE.as_utf8_alloc (λ n, repeat 0xAA n) [0x41; 0x20AC; 0x42] 3
       = Ok (result, UNICODE.utf8_length [0x41; 0x20AC; 0x42] 3)
       ∧ result = utf8_encode [0x41; 0x20AC; 0x42] ++ [0]
       ∧ strlen result = UNICODE.utf8_length [0x41; 0x20AC; 0x42] 3)
  ∧ (∃ result,
       UNICODE.as_utf8_alloc_jbyte (λ n, repeat 0xAA n) [0x41; -23; 0] 3
       = Ok (result, UNICODE.utf8_length_jbyte [0x41; -23; 0] 3)
       ∧ strlen result = UNICODE.utf8_length_jbyte [0x41; -23; 0] 3).
Proof.
  destruct (as_utf8_bounded [0x41; 0x20AC; 0x42] [7; 7; 7; 7; 7] 4)
    as (H1 & H2 & H3).
  - repeat constructor; lia.
  - simpl. lia.
  - split; [exact H1|]. split.
    + apply (H2 (λ n, repeat 0xAA n)); [apply repeat_length|vm_compute; discriminate].
    + apply (H3 (λ n, repeat 0xAA n) [0x41; -23; 0]);
        [apply repeat_length|repeat constructor; lia|vm_compute; discriminate].
Defined.

Example as_utf8_truncates :
  UNICODE.as_utf8 [0x41; 0x20AC; 0x42] 3 [7; 7; 7; 7; 7] 4 = Ok [0x41; 0; 7; 7; 7].
Proof. reflexivity. Qed.

Example as_utf8_alloc_jbyte_latin1 :
  UNICODE.as_utf8_alloc_jbyte (λ n, repeat 0xAA n) [0x41; -23; 0] 3
  = Ok ([0x41; 0xC3; 0xA9; 0xC0; 0x80; 0], 5%nat).
Proof. reflexivity. Qed.

Example as_utf8_exact_capacity :
  UNICODE.as_utf8 [0x41; 0x20AC; 0x42] 3 [7; 7; 7; 7; 7; 7] 6
  = Ok [0x41; 0xE2; 0x82; 0xAC; 0x42; 0].
Proof. reflexivity. Qed.

(** ** [UTF8::unicode_length] on the bytes of the encoder *)

Lemma unicode_length_loop_add (str : list Z) (n m : nat) :
  ∀ i vars,
    UTF8.unicode_length_loop str (n + m) i vars
    = UTF8.unicode_length_loop str m (i + n)
        (UTF8.unicode_length_loop str n i vars).
Proof.
  induction n as [|n IH]; intros i vars; simpl.
  - now rewrite Nat.add_0_r.
  - rewrite IH. f_equal. lia.
Qed.

Lemma unicode_length_body_lead (c : Z) (vars : UTF8.unicode_length_vars) :
  is_byte c → ¬ (0x80 <= c < 0xC0) →
  UTF8.unicode_length_body (u_char c) vars
  = {| UTF8.num_chars := UTF8.num_chars vars; UTF8.is_latin1 := UTF8.is_latin1 vars;
       UTF8.has_multibyte := UTF8.has_multibyte vars; UTF8.prev := c |}.
Proof.
  intros Hc Hn. unfold UTF8.unicode_length_body. rewrite u_char_id by exact Hc.
  rewrite continuation_spec by exact Hc. unfold continuation.
  now replace ((128 <=? c) && (c <? 192)) with false by lia.
Qed.

Lemma unicode_length_body_continuation (c : Z) (vars : UTF8.unicode_length_vars) :
  0x80 <= c < 0xC0 →
  UTF8.unicode_length_body (u_char c) vars
  = {| UTF8.num_chars := size_t (UTF8.num_chars vars - 1);
       UTF8.is_latin1 := if 0xC3 <? UTF8.prev vars then false else UTF8.is_latin1 vars;
       UTF8.has_multibyte := true; UTF8.prev := c |}.
Proof.
  intros Hc. unfold UTF8.unicode_length_body. rewrite u_char_id by lia.
  rewrite continuation_spec by (unfold is_byte; lia). unfold continuation.
  now replace ((128 <=? c) && (c <? 192)) with true by lia.
Qed.

Lemma size_t_id (z : Z) : 0 <= z < 2 ^ 64 → size_t z = z.
Proof. intros H. unfold size_t. now apply Z.mod_small. Qed.

(** The loop over the bytes of one unit. *)
Lemma unicode_length_unit (u : Z) (pre rest : list Z) (vars : UTF8.unicode_length_vars) :
  is_jchar u →
  Z.of_nat (UNICODE.utf8_size u) - 1 <= UTF8.num_chars vars < 2 ^ 64 →
  let vars' := UTF8.unicode_length_loop (pre ++ utf8_bytes u ++ rest)
                 (length (utf8_bytes u)) (length pre) vars in
  UTF8.num_chars vars' = UTF8.num_chars vars - (Z.of_nat (UNICODE.utf8_size u) - 1)
  ∧ UTF8.is_latin1 vars' = UTF8.is_latin1 vars && UNICODE.is_latin1 u
  ∧ UTF8.has_multibyte vars'
    = UTF8.has_multibyte vars || negb (UNICODE.utf8_size u =? 1)%nat.
Proof.
  intros Hu Hnc. pose proof Hu as [Hu0 Hu1].
  rewrite <- (utf8_bytes_length u Hu0) in *.
  unfold UNICODE.is_latin1.
  destruct (utf8_bytes_cases u Hu) as [[H E]|[[H E]|[H E]]]; rewrite E in *;
    simpl in Hnc; simpl; rewrite <- ?Nat.add_assoc;
    rewrite ?byte_at_app_r, ?byte_at_app_r0; simpl; rewrite ?byte_at_cons_S, ?byte_at_cons_0.
  - rewrite unicode_length_body_lead by (try unfold is_byte; lia). simpl.
    replace (u <=? 255) with true by lia. rewrite andb_true_r, orb_false_r.
    repeat split; lia.
  - rewrite (unicode_length_body_lead (192 + u / 64)) by (try unfold is_byte; arith).
    rewrite unicode_length_body_continuation by arith. simpl.
    rewrite size_t_id by lia. rewrite orb_true_r.
    repeat split; try lia.
    destruct (Z.ltb_spec 195 (192 + u / 64)), (Z.leb_spec u 255);
      rewrite ?andb_true_r, ?andb_false_r; try reflexivity; exfalso; arith.
  - rewrite (unicode_length_body_lead (224 + u / 4096)) by (try unfold is_byte; arith).
    rewrite !unicode_length_body_continuation by arith. simpl.
    rewrite !size_t_id by (rewrite ?size_t_id by lia; lia). rewrite orb_true_r.
    repeat split; try lia.
    replace (u <=? 255) with false by lia. rewrite andb_false_r.
    repeat case_match; try reflexivity; exfalso; arith.
Qed.

Lemma unicode_length_loop_encode (units : list Z) :
  Forall is_jchar units →
  ∀ pre suf vars,
    Z.of_nat (length (utf8_encode units)) - Z.of_nat (length units)
      <= UTF8.num_chars vars < 2 ^ 64 →
    let vars' := UTF8.unicode_length_loop (pre ++ utf8_encode units ++ suf)
                   (length (utf8_encode units)) (length pre) vars in
    UTF8.num_chars vars'
    = UTF8.num_chars vars
      - (Z.of_nat (length (utf8_encode units)) - Z.of_nat (length units))
    ∧ UTF8.is_latin1 vars' = UTF8.is_latin1 vars && forallb UNICODE.is_latin1 units
    ∧ UTF8.has_multibyte vars'
      = UTF8.has_multibyte vars
        || existsb (λ u, negb (UNICODE.utf8_size u =? 1)%nat) units.
Proof.
  induction 1 as [|u units Hu Hus IH]; intros pre suf vars Hnc.
  - simpl. rewrite andb_true_r, orb_false_r. repeat split; lia.
  - rewrite utf8_encode_cons, length_app in *.
    pose proof (utf8_bytes_length u ltac:(unfold is_jchar in Hu; lia)) as Hsz.
    assert (1 ≤ UNICODE.utf8_size u)%nat as Hpos
      by (unfold UNICODE.utf8_size; repeat case_match; lia).
    assert (length units ≤ length (utf8_encode units))%nat as Hmono.
    { clear - Hus. induction Hus as [|v vs Hv _ IHv]; [simpl; lia|].
      rewrite utf8_encode_cons, length_app, utf8_bytes_length
        by (unfold is_jchar in Hv; lia).
      assert (1 ≤ UNICODE.utf8_size v)%nat
        by (unfold UNICODE.utf8_size; repeat case_match; lia).
      simpl. lia. }
    simpl length in Hnc. cbv zeta.
    rewrite unicode_length_loop_add, <- app_assoc.
    destruct (unicode_length_unit u pre (utf8_encode units ++ suf) vars Hu
                ltac:(lia)) as (Hn1 & Hl1 & Hm1).
    set (vars1 := UTF8.unicode_length_loop _ (length (utf8_bytes u)) _ vars) in *.
    replace (length pre + length (utf8_bytes u))%nat with (length (pre ++ utf8_bytes u))
      by (rewrite length_app; reflexivity).
    rewrite (app_assoc pre).
    destruct (IH (pre ++ utf8_bytes u) suf vars1 ltac:(lia)) as (Hn2 & Hl2 & Hm2).
    rewrite Hn2, Hl2, Hm2, Hn1, Hl1, Hm1. simpl.
    rewrite <- andb_assoc, <- orb_assoc. repeat split; lia.
Qed.

Lemma utf8_encode_length_le (units : list Z) :
  Forall is_jchar units →
  (length units ≤ length (utf8_encode units) ≤ 3 * length units)%nat.
Proof.
  induction 1 as [|u units Hu _ IH]; [simpl; lia|].
  rewrite utf8_encode_cons, length_app, utf8_bytes_length
    by (unfold is_jchar in Hu; lia).
  assert (1 ≤ UNICODE.utf8_size u ≤ 3)%nat
    by (unfold UNICODE.utf8_size; repeat case_match; lia).
  simpl. lia.
Qed.

Lemma forallb_is_latin1 (units : list Z) :
  forallb UNICODE.is_latin1 units = true ↔ Forall (λ u, u <= 0xFF) units.
Proof.
  induction units as [|u units IH]; simpl.
  - split; auto.
  - unfold UNICODE.is_latin1 at 1. split.
    + intros [H1 H2]%andb_prop. constructor; [lia|now apply IH].
    + intros H. inversion H as [|? ? H1 H2]; subst.
      apply andb_true_intro. split; [lia|now apply IH].
Qed.

Lemma guarded_cast_int_id (z : Z) : 0 <= z <= INT_MAX → guarded_cast_int z = Ok z.
Proof.
  unfold INT_MAX. intros H. unfold guarded_cast_int, static_cast_int.
  rewrite Z.mod_small by lia.
  replace (z + 2 ^ 31 - 2 ^ 31) with z by lia.
  now rewrite Z.eqb_refl.
Qed.

(** C4: for every sequence of code units (as many as an [int] counts, as the
    encoder takes them), [UTF8::unicode_length] with the known length, applied
    to the buffer of the bulk encoder, returns the number of code units and sets
    [is_latin1] exactly when every code unit is at most 0xFF.  The cast
    [checked_cast<int>] is any cast that returns an [int] value unchanged. *)
Theorem unicode_length_of_encoded (checked_cast_int : Z → res Z) (units mem : list Z) :
  (∀ z, 0 <= z <= INT_MAX → checked_cast_int z = Ok z) →
  Forall is_jchar units →
  Z.of_nat (length units) <= INT_MAX →
  (UNICODE.utf8_length units (length units) < length mem)%nat →
  ∃ mem' is_latin1 has_multibyte,
    UNICODE.convert_to_utf8 units (length units) mem = Ok mem'
    ∧ UTF8.unicode_length checked_cast_int mem'
        (UNICODE.utf8_length units (length units))
      = Ok (Z.of_nat (length units), is_latin1, has_multibyte)
    ∧ (is_latin1 = true ↔ Forall (λ u, u <= 0xFF) units).
Proof.
  intros Hcast Hu Hint Hcap. rewrite utf8_length_spec in * by assumption.
  pose proof (utf8_encode_length_le units Hu) as Hlen.
  unfold INT_MAX in Hint.
  destruct (unicode_length_loop_encode units Hu []
              (0 :: drop (S (length (utf8_encode units))) mem)
              {| UTF8.num_chars := Z.of_nat (length (utf8_encode units));
                 UTF8.is_latin1 := true; UTF8.has_multibyte := false; UTF8.prev := 0 |})
    as (Hn & Hl & Hm); [simpl; lia|].
  simpl in Hn, Hl, Hm.
  eexists _, _, _. split; [now apply convert_to_utf8_spec|].
  unfold UTF8.unicode_length. rewrite Hn, Hl, Hm.
  replace (Z.of_nat (length (utf8_encode units))
           - (Z.of_nat (length (utf8_encode units)) - Z.of_nat (length units)))
    with (Z.of_nat (length units)) by lia.
  rewrite Hcast by (unfold INT_MAX; lia).
  split; [reflexivity|]. apply forallb_is_latin1.
Qed.

Lemma unicode_length_of_encoded_witness :
  ∃ mem' is_latin1 has_multibyte,
    UNICODE.convert_to_utf8 [0x41; 0xE9; 0; 0xFF] 4 (repeat 0xAA 10) = Ok mem'
    ∧ UTF8.unicode_length guarded_cast_int mem'
        (UNICODE.utf8_length [0x41; 0xE9; 0; 0xFF] 4)
      = Ok (Z.of_nat 4, is_latin1, has_multibyte)
    ∧ (is_latin1 = true ↔ Forall (λ u, u <= 0xFF) [0x41; 0xE9; 0; 0xFF]).
Proof.
  apply (unicode_length_of_encoded guarded_cast_int [0x41; 0xE9; 0; 0xFF]
           (repeat 0xAA 10)).
  - exact guarded_cast_int_id.
  - repeat constructor; lia.
  - vm_compute. discriminate.
  - vm_compute. lia.
Defined.

Example unicode_length_latin1 :
  UTF8.unicode_length guarded_cast_int [0x41; 0xC3; 0xA9; 0xC0; 0x80; 0xC3; 0xBF; 0] 7
  = Ok (4, true, true).
Proof. reflexivity. Qed.

Example unicode_length_not_latin1 :
  UTF8.unicode_length guarded_cast_int [0x41; 0xC4; 0x80; 0] 3 = Ok (2, false, true).
Proof. reflexivity. Qed.

(** ** What the validator has seen when it accepts *)

Section ValidatorRejects.
Variable buffer : list Z.
Variable length : nat.
Variable version_leq_47 : bool.
Hypothesis buffer_bytes : Forall is_byte buffer.

Local Abbreviation legal := (UTF8.is_legal_utf8_bytes buffer length version_leq_47).
Local Abbreviation b_ i := (byte_at buffer i).

(** An accepted turn is one of the four shapes of a character. *)
Lemma legal_start_inv (j : nat) :
  (j < length)%nat → legal j = true →
  0 < b_ j < 0x80
  ∨ ((j + 5 < length)%nat ∧ supplementary_pattern (drop j buffer) = true)
  ∨ (0xC0 <= b_ j < 0xE0 ∧ (j + 1 < length)%nat ∧ 0x80 <= b_ (j + 1) < 0xC0
     ∧ (version_leq_47 = true ∨ value_2 (b_ j) (b_ (j + 1)) = 0
        ∨ 0x80 <= value_2 (b_ j) (b_ (j + 1))))
  ∨ (0xE0 <= b_ j < 0xF0 ∧ (j + 2 < length)%nat
     ∧ 0x80 <= b_ (j + 1) < 0xC0 ∧ 0x80 <= b_ (j + 2) < 0xC0
     ∧ (version_leq_47 = true ∨ 0x800 <= value_3 (b_ j) (b_ (j + 1)) (b_ (j + 2)))).
Proof.
  intros Hj H. rewrite (legal_turn _ _ _ buffer_bytes j Hj) in H.
  pose proof (byte_at_is_byte buffer j buffer_bytes) as Hb. unfold is_byte in Hb.
  destruct (Z.eqb_spec (b_ j) 0) as [|Hnz]; [discriminate|].
  destruct (Z.ltb_spec (b_ j) 0x80) as [|Hhi]; [left; lia|].
  destruct ((j + 5 <? length)%nat && supplementary_pattern (drop j buffer)) eqn:Hs.
  { apply andb_prop in Hs as [Hs1 Hs2]. apply Nat.ltb_lt in Hs1. right; left. auto. }
  destruct (Z.ltb_spec (b_ j) 0xC0); [discriminate|].
  destruct (Z.ltb_spec (b_ j) 0xE0).
  - destruct (_ && _) eqn:Hc in H; [|discriminate].
    apply andb_prop in Hc as [[Hc1 Hc2]%andb_prop Hc3]. apply Nat.ltb_lt in Hc1.
    unfold continuation in Hc2.
    right; right; left. repeat split; try lia.
    destruct version_leq_47; [now left|right]. simpl in Hc3. lia.
  - destruct (Z.ltb_spec (b_ j) 0xF0); [|discriminate].
    destruct (_ && _) eqn:Hc in H; [|discriminate].
    apply andb_prop in Hc as [[[Hc1 Hc2]%andb_prop Hc3]%andb_prop Hc4].
    apply Nat.ltb_lt in Hc1. unfold continuation in Hc2, Hc3.
    right; right; right. repeat split; try lia.
    destruct version_leq_47; [now left|right]. simpl in Hc4. lia.
Qed.

(** Every index below [length] that an accepting run passes lies in a
    character the run accepted at some start [s]. *)
Lemma legal_visits (n : nat) :
  ∀ i j, (length - i ≤ n)%nat → (i ≤ j < length)%nat → legal i = true →
  ∃ s, (i ≤ s ≤ j)%nat ∧ legal s = true
       ∧ (s = j
          ∨ ((j = s + 1)%nat ∧ 0xC0 <= b_ s < 0xF0 ∧ 0x80 <= b_ j < 0xC0)
          ∨ ((j = s + 2)%nat ∧ 0xE0 <= b_ s < 0xF0 ∧ 0x80 <= b_ (s + 1) < 0xC0
             ∧ 0x80 <= b_ j < 0xC0)
          ∨ ((s + 3 ≤ j ≤ s + 5)%nat ∧ (s + 5 < length)%nat
             ∧ supplementary_pattern (drop s buffer) = true)).
Proof.
  induction n as [|n IH]; intros i j Hn Hj H; [lia|].
  destruct (decide (i = j)) as [->|Hne]; [exists j; auto with lia|].
  pose proof H as H0.
  destruct (legal_start_inv i ltac:(lia) H)
    as [Ha|[[Hs1 Hs2]|[(Hb0 & Hb1 & Hb2 & Hv)|(Hb0 & Hb1 & Hb2 & Hb3 & Hv)]]].
  - (* ASCII *)
    rewrite (legal_accept_1 _ _ _ buffer_bytes i) in H by lia.
    destruct (IH (i + 1)%nat j ltac:(lia) ltac:(lia) H) as (s & Hs & Hl & Hshape).
    exists s. auto with lia.
  - (* supplementary *)
    rewrite (legal_accept_6 _ _ _ buffer_bytes i) in H by assumption.
    destruct (decide (i + 6 ≤ j)%nat) as [Hfar|Hnear].
    + destruct (IH (i + 6)%nat j ltac:(lia) ltac:(lia) H) as (s & Hs & Hl & Hshape).
      exists s. auto with lia.
    + exists i. split; [lia|]. split; [assumption|].
      pose proof Hs2 as Hp. rewrite supplementary_pattern_drop in Hp.
      unfold continuation in Hp.
      assert (j = i + 1 ∨ j = i + 2 ∨ i + 3 ≤ j ≤ i + 5)%nat as [->|[->|Hr]] by lia.
      * right; left. lia.
      * right; right; left. lia.
      * right; right; right. auto.
  - (* two bytes *)
    rewrite (legal_accept_2 _ _ _ buffer_bytes i) in H by assumption.
    destruct (decide (i + 2 ≤ j)%nat) as [Hfar|Hnear].
    + destruct (IH (i + 2)%nat j ltac:(lia) ltac:(lia) H) as (s & Hs & Hl & Hshape).
      exists s. auto with lia.
    + exists i. split; [lia|]. split; [assumption|].
      assert (j = i + 1)%nat as -> by lia. right; left. lia.
  - (* three bytes *)
    destruct ((i + 5 <? length)%nat && supplementary_pattern (drop i buffer)) eqn:Hsup.
    { apply andb_prop in Hsup as [Hs1 Hs2]. apply Nat.ltb_lt in Hs1.
      rewrite (legal_accept_6 _ _ _ buffer_bytes i) in H by assumption.
      destruct (decide (i + 6 ≤ j)%nat) as [Hfar|Hnear].
      - destruct (IH (i + 6)%nat j ltac:(lia) ltac:(lia) H) as (s & Hs & Hl & Hshape).
        exists s. auto with lia.
      - exists i. split; [lia|]. split; [assumption|].
        pose proof Hs2 as Hp. rewrite supplementary_pattern_drop in Hp.
        unfold continuation in Hp.
        assert (j = i + 1 ∨ j = i + 2 ∨ i + 3 ≤ j ≤ i + 5)%nat as [->|[->|Hr]] by lia.
        + right; left. lia.
        + right; right; left. lia.
        + right; right; right. auto. }
    rewrite (legal_accept_3 _ _ _ buffer_bytes i) in H by assumption.
    destruct (decide (i + 3 ≤ j)%nat) as [Hfar|Hnear].
    + destruct (IH (i + 3)%nat j ltac:(lia) ltac:(lia) H) as (s & Hs & Hl & Hshape).
      exists s. auto with lia.
    + exists i. split; [lia|]. split; [assumption|].
      assert (j = i + 1 ∨ j = i + 2)%nat as [->| ->] by lia.
      * right; left. lia.
      * right; right; left. lia.
Qed.
End ValidatorRejects.

(** ** What the validator rejects *)

Section Rejections.
Variable buffer : list Z.
Variable length : nat.
Variable version_leq_47 : bool.
Hypothesis buffer_bytes : Forall is_byte buffer.

Local Abbreviation b_ i := (byte_at buffer i).

(** An accepting run accounts for the index [j]. *)
Lemma is_legal_utf8_visits (j : nat) :
  (j < length)%nat →
  UTF8.is_legal_utf8 buffer length version_leq_47 = true →
  ∃ s, (s ≤ j)%nat
       ∧ UTF8.is_legal_utf8_bytes buffer length version_leq_47 s = true
       ∧ (s = j
          ∨ ((j = s + 1)%nat ∧ 0xC0 <= b_ s < 0xF0 ∧ 0x80 <= b_ j < 0xC0)
          ∨ ((j = s + 2)%nat ∧ 0xE0 <= b_ s < 0xF0 ∧ 0x80 <= b_ (s + 1) < 0xC0
             ∧ 0x80 <= b_ j < 0xC0)
          ∨ ((s + 3 ≤ j ≤ s + 5)%nat ∧ (s + 5 < length)%nat
             ∧ supplementary_pattern (drop s buffer) = true)).
Proof.
  intros Hj H. rewrite is_legal_utf8_fast_path in H by assumption.
  unfold UTF8.is_legal_utf8_no_fast_path in H.
  destruct (legal_visits buffer length version_leq_47 buffer_bytes length 0 j
              ltac:(lia) ltac:(lia) H) as (s & Hs & Hl & Hshape).
  exists s. split; [lia|]. auto.
Qed.

Ltac in_pattern Hp s j :=
  rewrite supplementary_pattern_drop in Hp; unfold continuation in Hp;
  let E := fresh in
  assert (j = s + 3 ∨ j = s + 4 ∨ j = s + 5)%nat as [E|[E|E]] by lia; subst j.

Lemma rejects_embedded_zero (j : nat) :
  (j < length)%nat → b_ j = 0 →
  UTF8.is_legal_utf8 buffer length version_leq_47 = false.
Proof.
  intros Hj Hz. apply not_true_is_false. intros H.
  destruct (is_legal_utf8_visits j Hj H) as (s & Hs & Hl & [->|[Hc|[Hc|(Hr & Hlen & Hp)]]]).
  - destruct (legal_start_inv buffer length version_leq_47 buffer_bytes j Hj Hl)
      as [?|[[_ Hp]|[?|?]]]; try lia.
    rewrite supplementary_pattern_drop in Hp. lia.
  - lia.
  - lia.
  - in_pattern Hp s j; lia.
Qed.

Lemma rejects_broken_three_bytes (j : nat) :
  (j < length)%nat → 0xE0 <= b_ j <= 0xEF → ¬ is_continuation (b_ (j + 1)) →
  UTF8.is_legal_utf8 buffer length version_leq_47 = false.
Proof.
  intros Hj Hlead Hbad. apply not_true_is_false. intros H.
  rewrite is_continuation_byte in Hbad by now apply byte_at_is_byte.
  destruct (is_legal_utf8_visits j Hj H) as (s & Hs & Hl & [->|[Hc|[Hc|(Hr & Hlen & Hp)]]]).
  - destruct (legal_start_inv buffer length version_leq_47 buffer_bytes j Hj Hl)
      as [?|[[_ Hp]|[?|?]]]; try lia.
    rewrite supplementary_pattern_drop in Hp. lia.
  - lia.
  - lia.
  - in_pattern Hp s j; try lia.
    replace (s + 3 + 1)%nat with (s + 4)%nat in Hbad by lia. lia.
Qed.

Lemma rejects_isolated_continuation (j : nat) :
  (j < length)%nat → is_continuation (b_ j) → ¬ preceded_by_lead buffer j →
  UTF8.is_legal_utf8 buffer length version_leq_47 = false.
Proof.
  intros Hj Hcont Hiso. apply not_true_is_false. intros H.
  rewrite is_continuation_byte in Hcont by now apply byte_at_is_byte.
  destruct (is_legal_utf8_visits j Hj H) as (s & Hs & Hl & [->|[Hc|[Hc|(Hr & Hlen & Hp)]]]).
  - destruct (legal_start_inv buffer length version_leq_47 buffer_bytes j Hj Hl)
      as [?|[[_ Hp]|[?|?]]]; try lia.
    rewrite supplementary_pattern_drop in Hp. lia.
  - destruct Hc as (-> & Hlead & _). apply Hiso. left.
    replace (s + 1 - 1)%nat with s by lia. lia.
  - destruct Hc as (-> & Hlead & Hmid & _). apply Hiso. right.
    replace (s + 2 - 2)%nat with s by lia. replace (s + 2 - 1)%nat with (s + 1)%nat by lia.
    lia.
  - in_pattern Hp s j.
    + lia.
    + apply Hiso. left. replace (s + 4 - 1)%nat with (s + 3)%nat by lia. lia.
    + apply Hiso. right.
      replace (s + 5 - 2)%nat with (s + 3)%nat by lia.
      replace (s + 5 - 1)%nat with (s + 4)%nat by lia. lia.
Qed.
End Rejections.

Lemma rejects_overlong_ascii (buffer : list Z) (length : nat) (j : nat) (a : Z) :
  Forall is_byte buffer →
  (j < length)%nat → 1 <= a <= 0x7F →
  byte_at buffer j = 0xC0 + a / 64 → byte_at buffer (j + 1) = 0x80 + a mod 64 →
  UTF8.is_legal_utf8 buffer length false = false.
Proof.
  intros Hb Hj Ha H0 H1. apply not_true_is_false. intros H.
  destruct (is_legal_utf8_visits buffer length false Hb j Hj H)
    as (s & Hs & Hl & [->|[Hc|[Hc|(Hr & Hlen & Hp)]]]).
  - destruct (legal_start_inv buffer length false Hb j Hj Hl)
      as [?|[[_ Hp]|[(_ & _ & _ & Hv)|?]]]; try arith.
    + rewrite supplementary_pattern_drop in Hp. arith.
    + unfold value_2 in Hv. rewrite H0, H1 in Hv.
      destruct Hv as [?|[?|?]]; [discriminate|arith|arith].
  - arith.
  - arith.
  - rewrite supplementary_pattern_drop in Hp; unfold continuation in Hp.
    assert (j = s + 3 ∨ j = s + 4 ∨ j = s + 5)%nat as [E|[E|E]] by lia; subst j; arith.
Qed.

(** C3: [UTF8::is_legal_utf8] returns false when, within the counted length,
    the buffer holds the lead byte of a three-byte sequence followed by a byte
    that is not of the form 10xxxxxx, a continuation byte with no matching lead
    byte before it, a byte 0x00, or, with [version_leq_47] false, the two-byte
    encoding of an ASCII value 0x01..0x7F; the two-byte encoding C0 80 of 0 is
    legal with [version_leq_47] false. *)
Theorem is_legal_utf8_rejects (buffer : list Z) (length : nat) (version_leq_47 : bool)
    (j : nat) :
  Forall is_byte buffer → (j < length)%nat →
  (0xE0 <= byte_at buffer j <= 0xEF → ¬ is_continuation (byte_at buffer (j + 1)) →
   UTF8.is_legal_utf8 buffer length version_leq_47 = false)
  ∧ (is_continuation (byte_at buffer j) → ¬ preceded_by_lead buffer j →
     UTF8.is_legal_utf8 buffer length version_leq_47 = false)
  ∧ (byte_at buffer j = 0 →
     UTF8.is_legal_utf8 buffer length version_leq_47 = false)
  ∧ (∀ a, 1 <= a <= 0x7F →
          byte_at buffer j = 0xC0 + a / 64 → byte_at buffer (j + 1) = 0x80 + a mod 64 →
          UTF8.is_legal_utf8 buffer length false = false)
  ∧ UTF8.is_legal_utf8 [0xC0; 0x80] 2 false = true.
Proof.
  intros Hb Hj. repeat split.
  - now apply rejects_broken_three_bytes.
  - now apply rejects_isolated_continuation.
  - now apply rejects_embedded_zero.
  - intros a. now apply rejects_overlong_ascii.
Qed.

Lemma is_legal_utf8_rejects_witness :
  UTF8.is_legal_utf8 [0x41; 0xC1; 0x81; 0x42] 4 false = false.
Proof.
  refine (proj1 (proj2 (proj2 (proj2
            (is_legal_utf8_rejects [0x41; 0xC1; 0x81; 0x42] 4 false 1 _ _)))) 0x41 _ _ _).
  - repeat constructor; lia.
  - lia.
  - lia.
  - reflexivity.
  - reflexivity.
Defined.

Example rejects_corrupt_second_byte :
  UTF8.is_legal_utf8 [0xE2; 0x41; 0xAC] 3 true = false.
Proof. reflexivity. Qed.

Example rejects_lone_continuation :
  UTF8.is_legal_utf8 [0x41; 0x80; 0x42] 3 true = false.
Proof. reflexivity. Qed.

Example rejects_literal_zero :
  UTF8.is_legal_utf8 [0x41; 0x00; 0x42; 0x43; 0x44] 5 true = false.
Proof. reflexivity. Qed.

Example legacy_accepts_overlong_ascii :
  UTF8.is_legal_utf8 [0x41; 0xC1; 0x81; 0x42] 4 true = true.
Proof. reflexivity. Qed.

(** ** The validator reads the counted bytes only *)

Lemma legal_agree (b1 b2 : list Z) (length : nat) (version_leq_47 : bool) :
  Forall is_byte b1 → Forall is_byte b2 →
  (∀ k, (k < length)%nat → byte_at b1 k = byte_at b2 k) →
  ∀ n i, (length - i ≤ n)%nat →
         UTF8.is_legal_utf8_bytes b1 length version_leq_47 i
         = UTF8.is_legal_utf8_bytes b2 length version_leq_47 i.
Proof.
  intros H1 H2 Hagree. induction n as [|n IH]; intros i Hn.
  { rewrite !legal_done by lia. reflexivity. }
  destruct (decide (i < length)%nat) as [Hi|Hi]; [|rewrite !legal_done by lia; reflexivity].
  rewrite (legal_turn b1 length version_leq_47 H1 i Hi).
  rewrite (legal_turn b2 length version_leq_47 H2 i Hi).
  rewrite !supplementary_pattern_drop.
  rewrite (Hagree i Hi).
  rewrite !(IH (i + 1)%nat), !(IH (i + 2)%nat), !(IH (i + 3)%nat), !(IH (i + 6)%nat) by lia.
  destruct (Nat.ltb_spec (i + 5) length) as [H5|H5].
  - rewrite !(Hagree (i + 1)%nat), !(Hagree (i + 2)%nat), !(Hagree (i + 3)%nat),
      !(Hagree (i + 4)%nat), !(Hagree (i + 5)%nat) by lia.
    rewrite !nat_ltb_true by lia. reflexivity.
  - simpl.
    destruct (Nat.ltb_spec (i + 1) length) as [H1'|H1'];
      destruct (Nat.ltb_spec (i + 2) length) as [H2'|H2']; try lia; simpl;
      try rewrite !(Hagree (i + 1)%nat) by lia; try rewrite !(Hagree (i + 2)%nat) by lia;
      reflexivity.
Qed.

Lemma is_legal_utf8_agree (b1 b2 : list Z) (length : nat) (version_leq_47 : bool) :
  Forall is_byte b1 → Forall is_byte b2 →
  (∀ k, (k < length)%nat → byte_at b1 k = byte_at b2 k) →
  UTF8.is_legal_utf8 b1 length version_leq_47 = UTF8.is_legal_utf8 b2 length version_leq_47.
Proof.
  intros H1 H2 Hagree. rewrite !is_legal_utf8_fast_path by assumption.
  unfold UTF8.is_legal_utf8_no_fast_path.
  apply (legal_agree b1 b2 length version_leq_47 H1 H2 Hagree length). lia.
Qed.

Lemma is_legal_utf8_prefix (pre rest : list Z) (version_leq_47 : bool) :
  Forall is_byte pre → Forall is_byte rest →
  UTF8.is_legal_utf8 (pre ++ rest) (length pre) version_leq_47
  = UTF8.is_legal_utf8 pre (length pre) version_leq_47.
Proof.
  intros Hp Hr. apply is_legal_utf8_agree; [now apply Forall_app|assumption|].
  intros k Hk. now apply byte_at_app_l.
Qed.

(** ** The truncation repairer *)

Lemma truncate_scan_skip (buffer : list Z) :
  ∀ top index,
    (index ≤ top)%nat →
    (∀ k, (index < k ≤ top)%nat → is_starting_byte (byte_at buffer k) = false) →
    UTF8.truncate_to_legal_utf8_scan buffer top
    = UTF8.truncate_to_legal_utf8_scan buffer index.
Proof.
  induction top as [|top IH]; intros index Hle Hskip.
  - now replace index with 0%nat by lia.
  - destruct (decide (index = S top)) as [->|Hne]; [reflexivity|].
    simpl. rewrite Hskip by lia. apply IH; [lia|].
    intros k Hk. apply Hskip. lia.
Qed.

Lemma truncate_scan_plain (buffer : list Z) (index : nat) :
  (0 < index < length buffer)%nat →
  is_starting_byte (byte_at buffer index) = true → byte_at buffer index ≠ 0xED →
  UTF8.truncate_to_legal_utf8_scan buffer index = Ok (<[index := 0]> buffer).
Proof.
  intros Hi Hs Hne. destruct index as [|index']; [lia|].
  simpl. rewrite Hs.
  destruct (Z.eqb_spec (byte_at buffer (S index')) 237); [contradiction|].
  simpl. unfold store. destruct (decide _); [reflexivity|lia].
Qed.

Lemma truncate_scan_fourth_byte (buffer : list Z) (index : nat) :
  (3 ≤ index < length buffer)%nat →
  byte_at buffer index = 0xED →
  byte_at buffer (index - 3) = 0xED →
  0xA0 <= byte_at buffer (index - 2) <= 0xAF →
  0x80 <= byte_at buffer (index - 1) <= 0xBF →
  UTF8.truncate_to_legal_utf8_scan buffer index = Ok (<[(index - 3)%nat := 0]> buffer).
Proof.
  intros Hi H0 H3 H2 H1. destruct index as [|index']; [lia|].
  cbn [UTF8.truncate_to_legal_utf8_scan].
  rewrite H0, H3. cbn [is_starting_byte Z.leb Z.eqb Z.compare Pos.compare
                        Pos.compare_cont Pos.eqb andb].
  rewrite land_F0_A0_byte by (unfold is_byte; lia).
  replace (3 <=? S index')%nat with true by (symmetry; apply Nat.leb_le; lia).
  replace ((160 <=? byte_at buffer (S index' - 2))
           && (byte_at buffer (S index' - 2) <? 176)) with true by lia.
  replace ((128 <=? byte_at buffer (S index' - 1))
           && (byte_at buffer (S index' - 1) <=? 191)) with true by lia.
  cbn [andb c_assert bind].
  unfold store. destruct (decide _); [reflexivity|lia].
Qed.

Lemma truncate_to_legal_utf8_scans (buffer : list Z) (length : nat) :
  (5 < length)%nat → byte_at buffer (length - 1) = 0 →
  128 <= byte_at buffer (length - 2) →
  UTF8.truncate_to_legal_utf8 buffer length
  = UTF8.truncate_to_legal_utf8_scan buffer (length - 2).
Proof.
  intros Hlen Hnul Hhi. unfold UTF8.truncate_to_legal_utf8.
  rewrite nat_ltb_true by lia. rewrite Hnul. simpl.
  now replace (byte_at buffer (length - 2) <? 128) with false by lia.
Qed.

(** C5: when the candidate the backward scan stops at is 0xED, at least three
    bytes precede it and these are 0xED, a byte in 0xA0..0xAF and a byte in
    0x80..0xBF, the NUL is written three bytes before the candidate; a buffer
    that ends with ED A0 BD, ED and NUL has NUL written over the first ED, so
    that the four bytes before the old terminator are lost. *)
Theorem truncate_to_legal_utf8_fourth_byte (buffer : list Z) (length index : nat) :
  (5 < length ≤ List.length buffer)%nat →
  byte_at buffer (length - 1) = 0 →
  128 <= byte_at buffer (length - 2) →
  (3 ≤ index ≤ length - 2)%nat →
  (∀ k, (index < k ≤ length - 2)%nat → is_starting_byte (byte_at buffer k) = false) →
  byte_at buffer index = 0xED →
  byte_at buffer (index - 3) = 0xED →
  0xA0 <= byte_at buffer (index - 2) <= 0xAF →
  0x80 <= byte_at buffer (index - 1) <= 0xBF →
  UTF8.truncate_to_legal_utf8 buffer length = Ok (<[(index - 3)%nat := 0]> buffer)
  ∧ ∀ pre rest,
      (1 ≤ List.length pre)%nat →
      UTF8.truncate_to_legal_utf8 (pre ++ [0xED; 0xA0; 0xBD; 0xED; 0x00] ++ rest)
        (List.length pre + 5)
      = Ok (pre ++ [0x00; 0xA0; 0xBD; 0xED; 0x00] ++ rest).
Proof.
  intros Hlen Hnul Hhi Hidx Hskip H0 H3 H2 H1. split.
  - rewrite truncate_to_legal_utf8_scans by (try assumption; lia).
    rewrite (truncate_scan_skip buffer (length - 2) index) by (try assumption; lia).
    apply truncate_scan_fourth_byte; try assumption. lia.
  - intros pre rest Hpre.
    assert (∀ k, byte_at (pre ++ [0xED; 0xA0; 0xBD; 0xED; 0x00] ++ rest)
                   (List.length pre + k)
                 = byte_at ([0xED; 0xA0; 0xBD; 0xED; 0x00] ++ rest) k) as Hat
      by (intros k; apply byte_at_app_r).
    rewrite truncate_to_legal_utf8_scans.
    + replace (List.length pre + 5 - 2)%nat with (List.length pre + 3)%nat by lia.
      rewrite truncate_scan_fourth_byte.
      * replace (List.length pre + 3 - 3)%nat with (List.length pre + 0)%nat by lia.
        now rewrite insert_app_r.
      * rewrite length_app. simpl. lia.
      * now rewrite Hat.
      * replace (List.length pre + 3 - 3)%nat with (List.length pre + 0)%nat by lia.
        now rewrite Hat.
      * replace (List.length pre + 3 - 2)%nat with (List.length pre + 1)%nat by lia.
        rewrite Hat. simpl. rewrite byte_at_cons_S, byte_at_cons_0. lia.
      * replace (List.length pre + 3 - 1)%nat with (List.length pre + 2)%nat by lia.
        rewrite Hat. simpl. rewrite !byte_at_cons_S, byte_at_cons_0. lia.
    + lia.
    + replace (List.length pre + 5 - 1)%nat with (List.length pre + 4)%nat by lia.
      now rewrite Hat.
    + replace (List.length pre + 5 - 2)%nat with (List.length pre + 3)%nat by lia.
      rewrite Hat. simpl. rewrite !byte_at_cons_S, byte_at_cons_0. lia.
Qed.

Lemma truncate_to_legal_utf8_fourth_byte_witness :
  UTF8.truncate_to_legal_utf8 [0x41; 0x42; 0xED; 0xA0; 0xBD; 0xED; 0xB8; 0x00] 8
  = Ok (<[(5 - 3)%nat := 0]> [0x41; 0x42; 0xED; 0xA0; 0xBD; 0xED; 0xB8; 0x00]).
Proof.
  refine (proj1 (truncate_to_legal_utf8_fourth_byte
                   [0x41; 0x42; 0xED; 0xA0; 0xBD; 0xED; 0xB8; 0x00] 8 5 _ _ _ _ _ _ _ _ _)).
  - simpl. lia.
  - reflexivity.
  - simpl. rewrite !byte_at_cons_S, byte_at_cons_0. lia.
  - simpl. lia.
  - intros k Hk. simpl in Hk. assert (k = 6%nat) as -> by lia. reflexivity.
  - reflexivity.
  - reflexivity.
  - simpl. rewrite !byte_at_cons_S, byte_at_cons_0. lia.
  - simpl. rewrite !byte_at_cons_S, byte_at_cons_0. lia.
Defined.

Example truncate_drops_four_bytes :
  UTF8.truncate_to_legal_utf8 [0x41; 0x42; 0xED; 0xA0; 0xBD; 0xED; 0x00] 7
  = Ok [0x41; 0x42; 0x00; 0xA0; 0xBD; 0xED; 0x00].
Proof. reflexivity. Qed.

Lemma truncate_partial_three_bytes (pre rest : list Z) :
  (3 ≤ length pre)%nat →
  UTF8.truncate_to_legal_utf8 (pre ++ [0xE2; 0x82; 0x00] ++ rest) (length pre + 3)
  = Ok (pre ++ [0x00; 0x82; 0x00] ++ rest).
Proof.
  intros Hpre.
  assert (∀ k, byte_at (pre ++ [0xE2; 0x82; 0x00] ++ rest) (length pre + k)
               = byte_at ([0xE2; 0x82; 0x00] ++ rest) k) as Hat
    by (intros k; apply byte_at_app_r).
  rewrite truncate_to_legal_utf8_scans.
  - replace (length pre + 3 - 2)%nat with (length pre + 1)%nat by lia.
    rewrite (truncate_scan_skip _ (length pre + 1) (length pre + 0)).
    + rewrite truncate_scan_plain.
      * now rewrite insert_app_r.
      * rewrite length_app. simpl. lia.
      * now rewrite Hat.
      * now rewrite Hat.
    + lia.
    + intros k Hk. assert (k = length pre + 1)%nat as -> by lia. now rewrite Hat.
  - lia.
  - replace (length pre + 3 - 1)%nat with (length pre + 2)%nat by lia.
    now rewrite Hat.
  - replace (length pre + 3 - 2)%nat with (length pre + 1)%nat by lia.
    rewrite Hat. simpl. rewrite byte_at_cons_S, byte_at_cons_0. lia.
Qed.

Lemma strlen_app_zero (pre rest : list Z) :
  Forall (λ b, b ≠ 0) pre → strlen (pre ++ 0 :: rest) = length pre.
Proof. apply strlen_app_nonzero. Qed.

(** C6, as amended: for every buffer that meets the preconditions and whose
    last bytes before the terminator are E2 82, the call overwrites E2 with
    0x00: the bytes before it are unchanged, the string ends right before the
    old E2 when those bytes hold no NUL, and its counted contents pass
    [UTF8::is_legal_utf8] exactly when the bytes before E2 do. *)
Theorem truncate_to_legal_utf8_partial (pre rest : list Z) (version_leq_47 : bool) :
  (3 ≤ length pre)%nat → Forall is_byte pre → Forall is_byte rest →
  ∃ buffer',
    UTF8.truncate_to_legal_utf8 (pre ++ [0xE2; 0x82; 0x00] ++ rest) (length pre + 3)
    = Ok buffer'
    ∧ buffer' = pre ++ [0x00; 0x82; 0x00] ++ rest
    ∧ take (length pre) buffer' = pre
    ∧ byte_at buffer' (length pre) = 0
    ∧ (Forall (λ b, b ≠ 0) pre → strlen buffer' = length pre)
    ∧ UTF8.is_legal_utf8 buffer' (length pre) version_leq_47
      = UTF8.is_legal_utf8 pre (length pre) version_leq_47.
Proof.
  intros Hlen Hpre Hrest. eexists. split; [now apply truncate_partial_three_bytes|].
  split; [reflexivity|]. split; [now rewrite take_app_length|].
  split; [now rewrite byte_at_app_r0|].
  split; [intros Hnz; now apply strlen_app_zero|].
  apply is_legal_utf8_prefix; [assumption|].
  repeat constructor; try assumption; unfold is_byte; lia.
Qed.

Lemma truncate_to_legal_utf8_partial_witness :
  ∃ buffer',
    UTF8.truncate_to_legal_utf8 ([0x41; 0xC3; 0xA9] ++ [0xE2; 0x82; 0x00] ++ [0x55]) (3 + 3)
    = Ok buffer'
    ∧ buffer' = [0x41; 0xC3; 0xA9] ++ [0x00; 0x82; 0x00] ++ [0x55]
    ∧ take 3 buffer' = [0x41; 0xC3; 0xA9]
    ∧ byte_at buffer' 3 = 0
    ∧ (Forall (λ b, b ≠ 0) [0x41; 0xC3; 0xA9] → strlen buffer' = 3%nat)
    ∧ UTF8.is_legal_utf8 buffer' 3 false
      = UTF8.is_legal_utf8 [0x41; 0xC3; 0xA9] 3 false.
Proof.
  apply (truncate_to_legal_utf8_partial [0x41; 0xC3; 0xA9] [0x55] false).
  - simpl. lia.
  - repeat constructor; lia.
  - repeat constructor; lia.
Defined.

(** C6 as stated fails: this buffer meets the preconditions and ends with
    E2 82 before the terminator, and what the call leaves before the new
    terminator is not legal, since the call never looks at those bytes. *)
Lemma truncate_to_legal_utf8_not_legal :
  (5 < 7)%nat
  ∧ byte_at [0x80; 0x41; 0x41; 0x41; 0xE2; 0x82; 0x00] (7 - 1) = 0
  ∧ UTF8.truncate_to_legal_utf8 [0x80; 0x41; 0x41; 0x41; 0xE2; 0x82; 0x00] 7
    = Ok [0x80; 0x41; 0x41; 0x41; 0x00; 0x82; 0x00]
  ∧ UTF8.is_legal_utf8 [0x80; 0x41; 0x41; 0x41; 0x00; 0x82; 0x00] 4 true = false
  ∧ UTF8.is_legal_utf8 [0x80; 0x41; 0x41; 0x41; 0x00; 0x82; 0x00] 4 false = false.
Proof. repeat split. lia. Qed.

(** ** The loops of [UTF8::from_quoted_ascii] *)

Lemma from_quoted_ascii_scan_spins (str : list Z) (ptr : nat) :
  byte_at str ptr ≠ 0 → 32 <= char (byte_at str ptr) < 127 →
  ∀ fuel, UTF8.from_quoted_ascii_scan fuel str ptr = Stop OutOfFuel.
Proof.
  intros Hnz Hprintable. induction fuel as [|fuel IH]; simpl; [reflexivity|].
  destruct (Z.eqb_spec (byte_at str ptr) 0); [contradiction|]. simpl.
  replace (char (byte_at str ptr) <? 32) with false by lia.
  replace (127 <=? char (byte_at str ptr)) with false by lia.
  exact IH.
Qed.

Lemma from_quoted_ascii_scan_breaks (str : list Z) (ptr : nat) (fuel : nat) :
  ¬ (32 <= char (byte_at str ptr) < 127) →
  UTF8.from_quoted_ascii_scan (S fuel) str ptr = Ok ptr.
Proof.
  intros Hc. simpl. destruct (Z.eqb_spec (byte_at str ptr) 0); [reflexivity|]. simpl.
  destruct (Z.ltb_spec (char (byte_at str ptr)) 32); [reflexivity|].
  destruct (Z.leb_spec 127 (char (byte_at str ptr))); [reflexivity|]. lia.
Qed.

Lemma from_quoted_ascii_round_spins (str : list Z) (ptr : nat) :
  byte_at str ptr ≠ 0 → byte_at str ptr ≠ 92 →
  ∀ fuel length, UTF8.from_quoted_ascii_round fuel str ptr None length = Stop OutOfFuel.
Proof.
  intros Hnz Hnb. induction fuel as [|fuel IH]; intros length; simpl; [reflexivity|].
  destruct (Z.eqb_spec (byte_at str ptr) 0); [contradiction|].
  destruct (Z.eqb_spec (byte_at str ptr) 92); [contradiction|]. simpl.
  apply IH.
Qed.

Lemma char_tests_any_sign : ∀ b, is_byte b →
  ((char b <? 32) || (127 <=? char b)) = ((b <? 32) || (127 <=? b))
  ∧ ((48 <=? char b) && (char b <=? 57)) = ((48 <=? b) && (b <=? 57))
  ∧ ((97 <=? char b) && (char b <=? 102)) = ((97 <=? b) && (b <=? 102))
  ∧ ((65 <=? char b) && (char b <=? 70)) = ((65 <=? b) && (b <=? 70)).
Proof. by_range 256%nat. Qed.

Lemma from_quoted_ascii_out_of_fuel (NEW_RESOURCE_ARRAY : nat → list Z)
    (fuel : nat) (quoted_ascii_str : list Z) :
  byte_at quoted_ascii_str 0 ≠ 0 →
  UTF8.from_quoted_ascii NEW_RESOURCE_ARRAY fuel quoted_ascii_str = Stop OutOfFuel.
Proof.
  intros Hnz. unfold UTF8.from_quoted_ascii.
  destruct (decide (32 <= char (byte_at quoted_ascii_str 0) < 127)) as [Hp|Hp].
  - now rewrite from_quoted_ascii_scan_spins.
  - destruct fuel as [|fuel]; [reflexivity|].
    rewrite from_quoted_ascii_scan_breaks by assumption.
    cbn [bind].
    destruct (Z.eqb_spec (byte_at quoted_ascii_str 0) 0); [contradiction|].
    rewrite from_quoted_ascii_round_spins; [reflexivity|assumption|].
    intros E. apply Hp. rewrite E. vm_compute. split; [discriminate|reflexivity].
Qed.

(** C10 fails on the code: on every string that is not empty
    [UTF8::from_quoted_ascii] runs for ever.  Its first loop leaves [ptr]
    where it is, so it spins on a first character in 32..126; on any other
    first character it is left by [break], and then the loop of round 0 spins,
    since its branch for a character other than a backslash does not advance
    [ptr] either.  Whatever the fuel, the run is still going when it ends; the
    call returns on the empty string only. *)
Theorem from_quoted_ascii_never_returns (NEW_RESOURCE_ARRAY : nat → list Z)
    (fuel : nat) (quoted_ascii_str : list Z) :
  (byte_at quoted_ascii_str 0 ≠ 0 →
   UTF8.from_quoted_ascii NEW_RESOURCE_ARRAY fuel quoted_ascii_str = Stop OutOfFuel)
  ∧ (byte_at quoted_ascii_str 0 = 0 →
     UTF8.from_quoted_ascii NEW_RESOURCE_ARRAY (S fuel) quoted_ascii_str
     = Ok UTF8.Original).
Proof.
  split.
  - apply from_quoted_ascii_out_of_fuel.
  - intros Hz. unfold UTF8.from_quoted_ascii.
    cbn [UTF8.from_quoted_ascii_scan]. rewrite Hz. cbn [Z.eqb negb bind].
    now rewrite Hz.
Qed.

Lemma from_quoted_ascii_never_returns_witness :
  UTF8.from_quoted_ascii (λ n, repeat 0 n) 1000 [0x41; 0x00] = Stop OutOfFuel.
Proof.
  apply (proj1 (from_quoted_ascii_never_returns (λ n, repeat 0 n) 1000 [0x41; 0x00])).
  discriminate.
Defined.

Example from_quoted_ascii_letter_never_returns :
  ∀ fuel, UTF8.from_quoted_ascii (λ n, repeat 0 n) fuel [0x41; 0x00] = Stop OutOfFuel.
Proof. intros fuel. now apply from_quoted_ascii_out_of_fuel. Qed.

Example from_quoted_ascii_escape_never_returns :
  ∀ fuel, UTF8.from_quoted_ascii (λ n, repeat 0 n) fuel [92; 117; 48; 48; 52; 49; 0]
          = Stop OutOfFuel.
Proof. intros fuel. now apply from_quoted_ascii_out_of_fuel. Qed.

(** ** The concrete scenarios of the specification *)

Example encode_zero :
  UNICODE.convert_to_utf8 [0] 1 [7; 7; 7] = Ok [0xC0; 0x80; 0].
Proof. reflexivity. Qed.

Example encode_euro_sign :
  UNICODE.convert_to_utf8 [0x20AC] 1 [7; 7; 7; 7] = Ok [0xE2; 0x82; 0xAC; 0].
Proof. reflexivity. Qed.

Example encode_supplementary :
  utf16_units 0x1F600 = [0xD83D; 0xDE00]
  ∧ UNICODE.convert_to_utf8 [0xD83D; 0xDE00] 2 [7; 7; 7; 7; 7; 7; 7]
    = Ok [0xED; 0xA0; 0xBD; 0xED; 0xB8; 0x80; 0].
Proof. split; reflexivity. Qed.

Example decode_supplementary :
  UTF8.next_character [0xED; 0xA0; 0xBD; 0xED; 0xB8; 0x80; 0] = (0x1F600, 6%nat).
Proof. reflexivity. Qed.

Example decode_lone_high_surrogate :
  UTF8.next_character [0xED; 0xA0; 0xBD; 0x41; 0] = (0xD83D, 3%nat).
Proof. reflexivity. Qed.

Example next_jbyte_fallback :
  UTF8.next jbyte [0xF5; 0x41] = (-11, 1%nat).
Proof. reflexivity. Qed.

(** * Further properties of the codec *)

(** ** Decoding with [convert_to_unicode] *)

(** The ASCII loop followed by the general loop does what the general loop
    does on its own. *)
Lemma convert_to_unicode_ascii_next (T : Z → Z) (utf8_str : list Z) :
  Forall is_byte utf8_str →
  ∀ n unicode_str ptr index,
    (a <- UTF8.convert_to_unicode_ascii T utf8_str n unicode_str ptr index;;
     r <- UTF8.convert_to_unicode_next T utf8_str (index + n - snd a)
            (fst (fst a)) (snd (fst a)) (snd a);;
     Ok (fst r))
    = (r <- UTF8.convert_to_unicode_next T utf8_str n unicode_str ptr index;;
       Ok (fst r)).
Proof.
  intros Hb. induction n as [|n IH]; intros mem ptr index.
  - simpl. replace (index + 0 - index)%nat with 0%nat by lia. reflexivity.
  - cbn [UTF8.convert_to_unicode_ascii UTF8.convert_to_unicode_next].
    pose proof (byte_at_is_byte utf8_str ptr Hb) as Hp. unfold is_byte in Hp.
    rewrite (u_char_id (byte_at utf8_str ptr)) by lia.
    destruct (Z.ltb_spec 0x7F (byte_at utf8_str ptr)) as [Hhi|Hlo].
    + cbn [bind fst snd].
      replace (index + S n - index)%nat with (S n) by lia. reflexivity.
    + rewrite next_1 by (rewrite byte_at_drop, Nat.add_0_r; lia).
      rewrite byte_at_drop, Nat.add_0_r. cbn [fst snd].
      destruct (store mem index (T (byte_at utf8_str ptr))) as [mem'|f];
        [|reflexivity].
      cbn [bind]. rewrite <- IH.
      replace (index + 1 + n)%nat with (index + S n)%nat by lia. reflexivity.
Qed.

Lemma convert_to_unicode_general (T : Z → Z) (utf8_str unicode_str : list Z)
    (unicode_length : nat) :
  Forall is_byte utf8_str →
  UTF8.convert_to_unicode T utf8_str unicode_str unicode_length
  = (r <- UTF8.convert_to_unicode_next T utf8_str unicode_length unicode_str 0 0;;
     Ok (fst r)).
Proof.
  intros Hb. rewrite <- (convert_to_unicode_ascii_next T utf8_str Hb).
  unfold UTF8.convert_to_unicode. reflexivity.
Qed.

(** The general loop on the bytes [enc u] of units [u] that [UTF8::next]
    decodes back. *)
Lemma convert_to_unicode_next_decodes (T : Z → Z) (enc : Z → list Z) (units : list Z) :
  Forall (λ u, ∀ rest, UTF8.next T (enc u ++ rest) = (u, length (enc u))) units →
  ∀ pre suf done old rest,
    length old = length units →
    UTF8.convert_to_unicode_next T (pre ++ flat_map enc units ++ suf) (length units)
      (done ++ old ++ rest) (length pre) (length done)
    = Ok (done ++ units ++ rest, (length pre + length (flat_map enc units))%nat).
Proof.
  induction 1 as [|u units Hu _ IH]; intros pre suf done old rest Hlen.
  - destruct old; [|discriminate]. simpl. now rewrite Nat.add_0_r.
  - destruct old as [|o old]; [discriminate|]. injection Hlen as Hlen.
    cbn [length flat_map UTF8.convert_to_unicode_next].
    rewrite drop_app_length, <- app_assoc, Hu. cbn [fst snd].
    change ((o :: old) ++ rest) with (o :: old ++ rest).
    rewrite store_at by reflexivity. cbn [bind].
    replace (length done + 1)%nat with (length (done ++ [u]))
      by (rewrite length_app; reflexivity).
    replace (length pre + length (enc u))%nat with (length (pre ++ enc u))
      by (rewrite length_app; reflexivity).
    rewrite (app_assoc pre), (cons_middle u done), (app_assoc done).
    rewrite IH by exact Hlen.
    rewrite !length_app, <- !app_assoc. f_equal. f_equal. lia.
Qed.

Lemma next_jbyte_bytes (c : Z) (rest : list Z) :
  is_jbyte c →
  UTF8.next jbyte (jbyte_bytes c ++ rest) = (c, length (jbyte_bytes c)).
Proof.
  intros Hc. pose proof Hc as [Hc0 Hc1].
  destruct (jbyte_bytes_cases c Hc) as [(H1 & -> & _)|(H1 & _ & -> & _ & _)].
  - simpl. rewrite next_1 by (rewrite byte_at_cons_0; lia).
    rewrite byte_at_cons_0. f_equal. unfold jbyte. arith.
  - rewrite next_utf8_bytes by (unfold is_jchar; arith).
    f_equal. unfold jbyte. arith.
Qed.

Lemma convert_to_unicode_decodes (T : Z → Z) (enc : Z → list Z)
    (units suf unicode_str : list Z) :
  Forall (λ u, ∀ rest, UTF8.next T (enc u ++ rest) = (u, length (enc u))) units →
  Forall is_byte (flat_map enc units ++ suf) →
  (length units ≤ length unicode_str)%nat →
  UTF8.convert_to_unicode T (flat_map enc units ++ suf) unicode_str (length units)
  = Ok (units ++ drop (length units) unicode_str).
Proof.
  intros Hu Hb Hlen. rewrite convert_to_unicode_general by exact Hb.
  pose proof (convert_to_unicode_next_decodes T enc units Hu [] suf []
                (take (length units) unicode_str)
                (drop (length units) unicode_str)) as H.
  simpl in H. rewrite take_drop in H.
  rewrite H by (rewrite length_take; lia). reflexivity.
Qed.

(** X1: on a string of bytes, the ASCII loop of [UTF8::convert_to_unicode] is
    only a shortcut: the call returns what the loop over [UTF8::next] returns
    when it runs alone, from the first byte on. *)
Theorem convert_to_unicode_ascii_shortcut (T : Z → Z) (utf8_str unicode_str : list Z)
    (unicode_length : nat) :
  Forall is_byte utf8_str →
  UTF8.convert_to_unicode T utf8_str unicode_str unicode_length
  = (r <- UTF8.convert_to_unicode_next T utf8_str unicode_length unicode_str 0 0;;
     Ok (fst r)).
Proof. apply convert_to_unicode_general. Qed.

Lemma convert_to_unicode_ascii_shortcut_witness :
  UTF8.convert_to_unicode jchar [0x41; 0x42; 0xC3; 0xA9; 0x43; 0] [7; 7; 7; 7; 7] 4
  = (r <- UTF8.convert_to_unicode_next jchar [0x41; 0x42; 0xC3; 0xA9; 0x43; 0] 4
            [7; 7; 7; 7; 7] 0 0;;
     Ok (fst r)).
Proof.
  apply (convert_to_unicode_ascii_shortcut jchar [0x41; 0x42; 0xC3; 0xA9; 0x43; 0]
           [7; 7; 7; 7; 7] 4).
  repeat constructor; lia.
Defined.

(** ** The two variants of [unicode_length] *)

Lemma unicode_length_loop_bounds (str : list Z) (n : nat) :
  ∀ i vars,
    Z.of_nat n <= UTF8.num_chars vars < 2 ^ 64 →
    UTF8.num_chars vars - Z.of_nat n
    <= UTF8.num_chars (UTF8.unicode_length_loop str n i vars)
    <= UTF8.num_chars vars.
Proof.
  induction n as [|n IH]; intros i vars Hn; [simpl; lia|].
  cbn [UTF8.unicode_length_loop]. cbv zeta.
  set (vars' := UTF8.unicode_length_body _ vars).
  assert (UTF8.num_chars vars - 1 <= UTF8.num_chars vars' <= UTF8.num_chars vars) as Hb.
  { subst vars'. unfold UTF8.unicode_length_body.
    destruct (Z.land _ 192 =? 128); cbn; [rewrite size_t_id|]; lia. }
  specialize (IH (i + 1)%nat vars' ltac:(lia)). lia.
Qed.

(** The two loops side by side: [v1] counts down from the length, [v2] counts
    up; they agree as long as the count reached at the end fits an [int]. *)
Lemma unicode_length_loops_agree (s : list Z) :
  Forall is_byte s →
  ∀ pre v1 v2,
    UTF8.is_latin1 v1 = UTF8.is_latin1 v2 →
    UTF8.has_multibyte v1 = UTF8.has_multibyte v2 →
    UTF8.prev v1 = UTF8.prev v2 →
    0 <= UTF8.num_chars v2 →
    UTF8.num_chars v1 = UTF8.num_chars v2 + Z.of_nat (strlen s) →
    UTF8.num_chars v1 < 2 ^ 64 →
    UTF8.num_chars (UTF8.unicode_length_loop (pre ++ s) (strlen s) (length pre) v1)
      <= INT_MAX →
    let r1 := UTF8.unicode_length_loop (pre ++ s) (strlen s) (length pre) v1 in
    let r2 := UTF8.unicode_length_nul_loop s v2 in
    UTF8.num_chars r1 = UTF8.num_chars r2
    ∧ UTF8.is_latin1 r1 = UTF8.is_latin1 r2
    ∧ UTF8.has_multibyte r1 = UTF8.has_multibyte r2.
Proof.
  induction 1 as [|b s Hb _ IH]; intros pre v1 v2 Hl Hm Hp H0 Hn Hsz Hmax.
  - simpl in *. repeat split; [lia|assumption..].
  - cbn [strlen UTF8.unicode_length_nul_loop] in *.
    destruct (Z.eqb_spec b 0) as [->|Hnz].
    + simpl in *. repeat split; [lia|assumption..].
    + cbn [UTF8.unicode_length_loop] in *. cbv zeta in *.
      rewrite byte_at_app_r0, byte_at_cons_0 in *.
      replace (length pre + 1)%nat with (length (pre ++ [b])) in *
        by (rewrite length_app; reflexivity).
      rewrite (cons_middle b pre), (app_assoc pre) in *.
      set (v1' := UTF8.unicode_length_body (u_char b) v1) in *.
      assert (UTF8.num_chars v1'
              = UTF8.num_chars (UTF8.unicode_length_nul_body (u_char b) v2)
                + Z.of_nat (strlen s)
              ∧ 0 <= UTF8.num_chars (UTF8.unicode_length_nul_body (u_char b) v2)
              ∧ UTF8.num_chars v1' < 2 ^ 64) as (E1 & E2 & E3).
      { pose proof (unicode_length_loop_bounds ((pre ++ [b]) ++ s) (strlen s)
                      (length (pre ++ [b])) v1') as Hbd.
        subst v1'. revert Hbd Hmax.
        unfold UTF8.unicode_length_body, UTF8.unicode_length_nul_body.
        destruct (Z.land (u_char b) 192 =? 128); cbn; intros Hbd Hmax.
        - rewrite size_t_id by lia. lia.
        - specialize (Hbd ltac:(lia)). unfold INT_MAX in *.
          unfold static_cast_int. arith. }
      apply IH; try assumption; subst v1';
        unfold UTF8.unicode_length_body, UTF8.unicode_length_nul_body;
        destruct (Z.land (u_char b) 192 =? 128); cbn; rewrite ?Hl, ?Hm, ?Hp;
        reflexivity.
Qed.

Lemma unicode_length_nul_agree (str : list Z) :
  Forall is_byte str →
  Z.of_nat (strlen str) < 2 ^ 64 →
  let vars := UTF8.unicode_length_loop str (strlen str) 0
                {| UTF8.num_chars := Z.of_nat (strlen str); UTF8.is_latin1 := true;
                   UTF8.has_multibyte := false; UTF8.prev := 0 |} in
  UTF8.num_chars vars <= INT_MAX →
  UTF8.unicode_length_nul str
  = (UTF8.num_chars vars, UTF8.is_latin1 vars, UTF8.has_multibyte vars).
Proof.
  intros Hb Hsz vars Hfit. unfold UTF8.unicode_length_nul.
  destruct (unicode_length_loops_agree str Hb []
              {| UTF8.num_chars := Z.of_nat (strlen str); UTF8.is_latin1 := true;
                 UTF8.has_multibyte := false; UTF8.prev := 0 |}
              {| UTF8.num_chars := 0; UTF8.is_latin1 := true;
                 UTF8.has_multibyte := false; UTF8.prev := 0 |})
    as (Hn & Hl & Hm); try reflexivity; cbn; try lia; try exact Hfit.
  cbn in Hn, Hl, Hm. fold vars in Hn, Hl, Hm. now rewrite Hn, Hl, Hm.
Qed.

(** X2: on a string of bytes whose length up to the first NUL fits an [int],
    the NUL-terminated [UTF8::unicode_length] returns the count and the two
    flags that the length-known variant returns at [strlen(str)]. *)
Theorem unicode_length_variants_agree (checked_cast_int : Z → res Z) (str : list Z) :
  (∀ z, 0 <= z <= INT_MAX → checked_cast_int z = Ok z) →
  Forall is_byte str →
  Z.of_nat (strlen str) <= INT_MAX →
  UTF8.unicode_length checked_cast_int str (strlen str)
  = Ok (UTF8.unicode_length_nul str).
Proof.
  intros Hcast Hb Hlen. unfold INT_MAX in Hlen.
  pose proof (unicode_length_loop_bounds str (strlen str) 0
                {| UTF8.num_chars := Z.of_nat (strlen str); UTF8.is_latin1 := true;
                   UTF8.has_multibyte := false; UTF8.prev := 0 |}
                ltac:(cbn; lia)) as Hbd.
  cbn [UTF8.num_chars] in Hbd.
  rewrite unicode_length_nul_agree by (try exact Hb; unfold INT_MAX; lia).
  unfold UTF8.unicode_length.
  rewrite Hcast by (unfold INT_MAX; lia). reflexivity.
Qed.

Lemma unicode_length_variants_agree_witness :
  UTF8.unicode_length guarded_cast_int [0x41; 0xC4; 0x80; 0xC3; 0xA9; 0; 0x42]
    (strlen [0x41; 0xC4; 0x80; 0xC3; 0xA9; 0; 0x42])
  = Ok (UTF8.unicode_length_nul [0x41; 0xC4; 0x80; 0xC3; 0xA9; 0; 0x42]).
Proof.
  apply (unicode_length_variants_agree guarded_cast_int
           [0x41; 0xC4; 0x80; 0xC3; 0xA9; 0; 0x42]).
  - exact guarded_cast_int_id.
  - repeat constructor; lia.
  - vm_compute. discriminate.
Defined.

(** ** Encoding, then decoding *)

Lemma next_jchar_utf8_bytes (units : list Z) :
  Forall is_jchar units →
  Forall (λ u, ∀ rest, UTF8.next jchar (utf8_bytes u ++ rest)
                       = (u, length (utf8_bytes u))) units.
Proof.
  apply Forall_impl. intros u Hu rest.
  rewrite next_utf8_bytes by exact Hu. now rewrite jchar_id.
Qed.

Lemma unicode_length_nul_encoded (units rest : list Z) :
  Forall is_jchar units → Forall is_byte rest →
  Z.of_nat (length units) <= INT_MAX →
  UTF8.unicode_length_nul (utf8_encode units ++ 0 :: rest)
  = (Z.of_nat (length units), forallb UNICODE.is_latin1 units,
     existsb (λ u, negb (UNICODE.utf8_size u =? 1)%nat) units).
Proof.
  intros Hu Hr Hlen.
  pose proof (strlen_app_nonzero _ rest (utf8_encode_nonzero units Hu)) as Hs.
  pose proof (utf8_encode_length_le units Hu) as Hle. unfold INT_MAX in Hlen.
  destruct (unicode_length_loop_encode units Hu [] (0 :: rest)
              {| UTF8.num_chars := Z.of_nat (length (utf8_encode units));
                 UTF8.is_latin1 := true; UTF8.has_multibyte := false;
                 UTF8.prev := 0 |} ltac:(cbn; lia)) as (Hn & Hl & Hm).
  cbn [app length UTF8.num_chars UTF8.is_latin1 UTF8.has_multibyte] in Hn, Hl, Hm.
  rewrite unicode_length_nul_agree; rewrite ?Hs.
  - rewrite Hn, Hl, Hm. repeat f_equal. lia.
  - apply Forall_app. split; [now apply utf8_encode_is_byte|].
    constructor; [unfold is_byte; lia|exact Hr].
  - lia.
  - rewrite Hn. unfold INT_MAX. lia.
Qed.

(** X3: [UNICODE::convert_to_utf8] followed by the decoder gives the units
    back.  For [jchar] units whose count fits an [int], written into a buffer
    of bytes with room for the bytes and the NUL: the NUL-terminated
    [UTF8::unicode_length] of the buffer written is the number of units, and
    [UTF8::convert_to_unicode] with that count stores exactly the units, in
    order, and leaves the rest of its array as it was. *)
Theorem convert_to_unicode_round_trip (units mem unicode_str : list Z) :
  Forall is_jchar units → Forall is_byte mem →
  (UNICODE.utf8_length units (length units) < length mem)%nat →
  Z.of_nat (length units) <= INT_MAX →
  (length units ≤ length unicode_str)%nat →
  ∃ mem' is_latin1 has_multibyte,
    UNICODE.convert_to_utf8 units (length units) mem = Ok mem'
    ∧ UTF8.unicode_length_nul mem' = (Z.of_nat (length units), is_latin1, has_multibyte)
    ∧ UTF8.convert_to_unicode jchar mem' unicode_str (length units)
      = Ok (units ++ drop (length units) unicode_str).
Proof.
  intros Hu Hm Hcap Hint Hout. rewrite utf8_length_spec in Hcap by exact Hu.
  eexists _, _, _. split; [apply convert_to_utf8_spec; exact Hcap|].
  assert (Forall is_byte (drop (S (length (utf8_encode units))) mem)) as Hd
    by now apply Forall_is_byte_drop.
  split.
  - apply unicode_length_nul_encoded; assumption.
  - apply (convert_to_unicode_decodes jchar utf8_bytes).
    + now apply next_jchar_utf8_bytes.
    + apply Forall_app. split; [now apply utf8_encode_is_byte|].
      constructor; [unfold is_byte; lia|exact Hd].
    + exact Hout.
Qed.

Lemma convert_to_unicode_round_trip_witness :
  ∃ mem' is_latin1 has_multibyte,
    UNICODE.convert_to_utf8 [0x41; 0; 0xE9; 0x20AC; 0xD83D; 0xDE00] 6 (repeat 0xAA 16)
    = Ok mem'
    ∧ UTF8.unicode_length_nul mem' = (Z.of_nat 6, is_latin1, has_multibyte)
    ∧ UTF8.convert_to_unicode jchar mem' [7; 7; 7; 7; 7; 7; 7; 7] 6
      = Ok ([0x41; 0; 0xE9; 0x20AC; 0xD83D; 0xDE00] ++ drop 6 [7; 7; 7; 7; 7; 7; 7; 7]).
Proof.
  apply (convert_to_unicode_round_trip [0x41; 0; 0xE9; 0x20AC; 0xD83D; 0xDE00]
           (repeat 0xAA 16) [7; 7; 7; 7; 7; 7; 7; 7]).
  - repeat constructor; lia.
  - repeat constructor; lia.
  - vm_compute. lia.
  - vm_compute. discriminate.
  - vm_compute. lia.
Defined.

(** X4: the Latin-1 round trip.  The bytes that the [jbyte] overload of
    [UNICODE::as_utf8] writes for [jbyte] units are decoded by
    [UTF8::convert_to_unicode<jbyte>] to the same units: the two-byte forms of
    the values 0 and 0x80..0xFF come back as the signed bytes they were. *)
Theorem convert_to_unicode_jbyte_round_trip (units buf unicode_str : list Z) :
  Forall is_jbyte units → Forall is_byte buf →
  (UNICODE.utf8_length_jbyte units (length units) < length buf)%nat →
  (length units ≤ length unicode_str)%nat →
  ∃ buf',
    UNICODE.as_utf8_jbyte units (length units) buf (length buf) = Ok buf'
    ∧ UTF8.convert_to_unicode jbyte buf' unicode_str (length units)
      = Ok (units ++ drop (length units) unicode_str).
Proof.
  intros Hu Hb Hcap Hout. rewrite utf8_length_jbyte_spec in Hcap by exact Hu.
  set (bytes := flat_map jbyte_bytes units) in *.
  assert (UNICODE.as_utf8_jbyte units (length units) buf (length buf)
          = Ok (bytes ++ 0 :: drop (S (length bytes)) buf)) as E.
  { unfold UNICODE.as_utf8_jbyte.
    replace (0 <? length buf)%nat with true by (symmetry; apply Nat.ltb_lt; lia).
    cbn [c_assert bind].
    destruct (lookup_lt_is_Some_2 buf _ Hcap) as [x Hx].
    rewrite <- (take_drop_middle buf _ x Hx) at 1.
    pose proof (as_utf8_jbyte_loop_spec units Hu [] [] []
                  (take (length bytes) buf)
                  (x :: drop (S (length bytes)) buf) (length buf)) as H.
    simpl in H. rewrite app_nil_r in H.
    rewrite H by (rewrite length_take; fold bytes; lia).
    cbn [bind fst snd]. fold bytes. now rewrite store_at. }
  exists (bytes ++ 0 :: drop (S (length bytes)) buf). split; [exact E|].
  apply (convert_to_unicode_decodes jbyte jbyte_bytes).
  - revert Hu. apply Forall_impl. intros c Hc rest. now apply next_jbyte_bytes.
  - apply Forall_app. split.
    + subst bytes. clear - Hu. induction Hu as [|c cs Hc _ IH]; [constructor|].
      simpl. apply Forall_app. split; [|exact IH].
      destruct (jbyte_bytes_cases c Hc) as [(H1 & -> & _)|(H1 & _ & _ & -> & _)];
        repeat constructor; unfold is_byte, is_jbyte in *; arith.
    + constructor; [unfold is_byte; lia|now apply Forall_is_byte_drop].
  - exact Hout.
Qed.

Lemma convert_to_unicode_jbyte_round_trip_witness :
  ∃ buf',
    UNICODE.as_utf8_jbyte [0x41; -23; 0; -1; -128; 127] 6 (repeat 0xAA 12) 12 = Ok buf'
    ∧ UTF8.convert_to_unicode jbyte buf' [7; 7; 7; 7; 7; 7; 7] 6
      = Ok ([0x41; -23; 0; -1; -128; 127] ++ drop 6 [7; 7; 7; 7; 7; 7; 7]).
Proof.
  apply (convert_to_unicode_jbyte_round_trip [0x41; -23; 0; -1; -128; 127]
           (repeat 0xAA 12) [7; 7; 7; 7; 7; 7; 7]).
  - repeat constructor; lia.
  - repeat constructor; lia.
  - vm_compute. lia.
  - vm_compute. lia.
Defined.

(** ** Comparing arrays: [UTF8::equal] *)

Lemma equal_loop_spec (base1 base2 : list Z) (n : nat) :
  ∀ i, UTF8.equal_loop base1 base2 n i = true
       ↔ ∀ j, (i ≤ j < i + n)%nat → unit_at base1 j = unit_at base2 j.
Proof.
  induction n as [|n IH]; intros i; simpl.
  - split; [intros _ j Hj; lia|reflexivity].
  - destruct (Z.eqb_spec (unit_at base1 i) (unit_at base2 i)) as [E|E]; simpl.
    + rewrite IH. split; intros H j Hj.
      * destruct (decide (j = i)) as [->|]; [exact E|apply H; lia].
      * apply H. lia.
    + split; [discriminate|]. intros H. exfalso. apply E, H. lia.
Qed.

(** X5: [UTF8::equal] on two arrays that hold at least [length1] and
    [length2] elements answers true exactly when the two lengths are equal
    and the first [length1] elements are the same. *)
Theorem equal_iff_same_elements (base1 base2 : list Z) (length1 length2 : nat) :
  (length1 ≤ length base1)%nat → (length2 ≤ length base2)%nat →
  UTF8.equal base1 length1 base2 length2 = true
  ↔ length1 = length2 ∧ take length1 base1 = take length2 base2.
Proof.
  intros H1 H2. unfold UTF8.equal.
  destruct (Nat.eqb_spec length1 length2) as [<-|Hne]; cbn [negb].
  - rewrite equal_loop_spec. split.
    + intros H. split; [reflexivity|]. apply list_eq. intros j.
      destruct (decide (j < length1)%nat) as [Hj|Hj].
      * rewrite !lookup_take_lt by exact Hj.
        specialize (H j ltac:(lia)). unfold unit_at in H.
        destruct (lookup_lt_is_Some_2 base1 j ltac:(lia)) as [x Hx].
        destruct (lookup_lt_is_Some_2 base2 j ltac:(lia)) as [y Hy].
        rewrite Hx, Hy in *. simpl in H. now subst.
      * rewrite !lookup_take_ge by lia. reflexivity.
    + intros [_ E] j Hj. unfold unit_at.
      rewrite <- (lookup_take_lt base1 length1 j) by lia.
      rewrite <- (lookup_take_lt base2 length1 j) by lia.
      now rewrite E.
  - split; [discriminate|]. intros [E _]. contradiction.
Qed.

Lemma equal_iff_same_elements_witness :
  UTF8.equal [0x41; -23; 0; 5] 3 [0x41; -23; 0; 9; 9] 3 = true
  ↔ 3%nat = 3%nat ∧ take 3 [0x41; -23; 0; 5] = take 3 [0x41; -23; 0; 9; 9].
Proof.
  apply (equal_iff_same_elements [0x41; -23; 0; 5] [0x41; -23; 0; 9; 9] 3 3);
    simpl; lia.
Defined.

(** ** Latin-1 tests *)

Lemma is_latin1_loop_spec (units : list Z) :
  ∀ done extra,
    UNICODE.is_latin1_loop (done ++ units ++ extra) (length units) (length done)
    = forallb UNICODE.is_latin1 units.
Proof.
  induction units as [|u units IH]; intros done extra; [reflexivity|].
  cbn [length UNICODE.is_latin1_loop forallb app].
  rewrite unit_at_middle. unfold UNICODE.is_latin1 at 1.
  replace (length done + 1)%nat with (length (done ++ [u]))
    by (rewrite length_app; reflexivity).
  rewrite (cons_middle u done), (app_assoc done), IH.
  destruct (Z.ltb_spec 255 u), (Z.leb_spec u 255); try lia; reflexivity.
Qed.

Lemma is_latin1_array_spec (units : list Z) :
  UNICODE.is_latin1_array units (length units) = forallb UNICODE.is_latin1 units.
Proof.
  pose proof (is_latin1_loop_spec units [] []) as H.
  simpl in H. now rewrite app_nil_r in H.
Qed.

Lemma unicode_length_encoded (checked_cast_int : Z → res Z) (units suf : list Z) :
  (∀ z, 0 <= z <= INT_MAX → checked_cast_int z = Ok z) →
  Forall is_jchar units →
  Z.of_nat (length units) <= INT_MAX →
  UTF8.unicode_length checked_cast_int (utf8_encode units ++ suf)
    (length (utf8_encode units))
  = Ok (Z.of_nat (length units), forallb UNICODE.is_latin1 units,
        existsb (λ u, negb (UNICODE.utf8_size u =? 1)%nat) units).
Proof.
  intros Hcast Hu Hlen.
  pose proof (utf8_encode_length_le units Hu) as Hle. unfold INT_MAX in Hlen.
  destruct (unicode_length_loop_encode units Hu [] suf
              {| UTF8.num_chars := Z.of_nat (length (utf8_encode units));
                 UTF8.is_latin1 := true; UTF8.has_multibyte := false;
                 UTF8.prev := 0 |} ltac:(cbn; lia)) as (Hn & Hl & Hm).
  cbn [app length UTF8.num_chars UTF8.is_latin1 UTF8.has_multibyte] in Hn, Hl, Hm.
  unfold UTF8.unicode_length. rewrite Hn, Hl, Hm.
  rewrite Hcast by (unfold INT_MAX; lia).
  cbn [bind]. repeat f_equal. lia.
Qed.

(** X6: [UNICODE::is_latin1] on an array answers true exactly when every
    unit is at most 0xFF, and for [jchar] units it is the [is_latin1] flag
    that [UTF8::unicode_length] computes from the bytes [utf8_write] produces
    for them. *)
Theorem is_latin1_array_matches_flag (checked_cast_int : Z → res Z) (units suf : list Z) :
  (∀ z, 0 <= z <= INT_MAX → checked_cast_int z = Ok z) →
  Forall is_jchar units →
  Z.of_nat (length units) <= INT_MAX →
  (UNICODE.is_latin1_array units (length units) = true
   ↔ Forall (λ u, u <= 0xFF) units)
  ∧ ∃ has_multibyte,
      UTF8.unicode_length checked_cast_int (utf8_encode units ++ suf)
        (length (utf8_encode units))
      = Ok (Z.of_nat (length units), UNICODE.is_latin1_array units (length units),
            has_multibyte).
Proof.
  intros Hcast Hu Hlen. rewrite is_latin1_array_spec.
  split; [apply forallb_is_latin1|].
  eexists. now apply unicode_length_encoded.
Qed.

Lemma is_latin1_array_matches_flag_witness :
  (UNICODE.is_latin1_array [0x41; 0xFF; 0; 0x100] 4 = true
   ↔ Forall (λ u, u <= 0xFF) [0x41; 0xFF; 0; 0x100])
  ∧ ∃ has_multibyte,
      UTF8.unicode_length guarded_cast_int (utf8_encode [0x41; 0xFF; 0; 0x100] ++ [0])
        (length (utf8_encode [0x41; 0xFF; 0; 0x100]))
      = Ok (Z.of_nat 4, UNICODE.is_latin1_array [0x41; 0xFF; 0; 0x100] 4, has_multibyte).
Proof.
  apply (is_latin1_array_matches_flag guarded_cast_int [0x41; 0xFF; 0; 0x100] [0]).
  - exact guarded_cast_int_id.
  - repeat constructor; lia.
  - vm_compute. discriminate.
Defined.

(** ** The length as an [int]: [utf8_length_as_int] *)

Lemma utf8_length_loop_acc (sz : Z → nat) (base : list Z) (n : nat) :
  ∀ i acc,
    UNICODE.utf8_length_loop sz base n i acc
    = (acc + UNICODE.utf8_length_loop sz base n i 0)%nat.
Proof.
  induction n as [|n IH]; intros i acc; simpl; [lia|].
  rewrite IH, (IH _ (sz _)). lia.
Qed.

Lemma utf8_length_loop_snoc (sz : Z → nat) (base : list Z) (n : nat) :
  ∀ i acc,
    UNICODE.utf8_length_loop sz base (S n) i acc
    = (UNICODE.utf8_length_loop sz base n i acc + sz (unit_at base (i + n)))%nat.
Proof.
  induction n as [|n IH]; intros i acc.
  - simpl. now rewrite Nat.add_0_r.
  - change (UNICODE.utf8_length_loop sz base (S (S n)) i acc)
      with (UNICODE.utf8_length_loop sz base (S n) (i + 1) (acc + sz (unit_at base i))).
    rewrite IH. simpl. do 3 f_equal. lia.
Qed.

Lemma utf8_length_loop_mono (sz : Z → nat) (base : list Z) (k n : nat) :
  (k ≤ n)%nat →
  (UNICODE.utf8_length_loop sz base k 0 0 ≤ UNICODE.utf8_length_loop sz base n 0 0)%nat.
Proof.
  induction 1 as [|n _ IH]; [lia|]. rewrite utf8_length_loop_snoc. lia.
Qed.

Lemma utf8_length_as_int_loop_spec (sz : Z → nat) (base : list Z) :
  (∀ c, (sz c ≤ 3)%nat) →
  ∀ n done,
    Z.of_nat (UNICODE.utf8_length_loop sz base done 0 0) <= INT_MAX - 1 →
    ∃ k, (done ≤ k ≤ done + n)%nat
         ∧ UNICODE.utf8_length_as_int_loop sz base n done
             (Z.of_nat (UNICODE.utf8_length_loop sz base done 0 0))
           = Z.of_nat (UNICODE.utf8_length_loop sz base k 0 0)
         ∧ Z.of_nat (UNICODE.utf8_length_loop sz base k 0 0) <= INT_MAX - 1
         ∧ (k = (done + n)%nat
            ∨ INT_MAX - 1 < Z.of_nat (UNICODE.utf8_length_loop sz base (S k) 0 0)).
Proof.
  intros Hsz. induction n as [|n IH]; intros done Hfit.
  - exists done. simpl. repeat split; lia.
  - cbn [UNICODE.utf8_length_as_int_loop]. cbv zeta.
    pose proof (utf8_length_loop_snoc sz base done 0 0) as Hs. cbn [Nat.add] in Hs.
    pose proof (Hsz (unit_at base done)) as H3.
    rewrite size_t_id by (unfold INT_MAX in Hfit; lia).
    destruct (Z.ltb_spec (INT_MAX - 1)
                (Z.of_nat (UNICODE.utf8_length_loop sz base done 0 0)
                 + Z.of_nat (sz (unit_at base done)))) as [Hover|Hok].
    + exists done. repeat split; lia.
    + replace (Z.of_nat (UNICODE.utf8_length_loop sz base done 0 0)
               + Z.of_nat (sz (unit_at base done)))
        with (Z.of_nat (UNICODE.utf8_length_loop sz base (S done) 0 0))
        by (rewrite Hs; lia).
      replace (done + 1)%nat with (S done) by lia.
      destruct (IH (S done) ltac:(rewrite Hs; lia)) as (k & Hk & E & Hf & Hstop).
      exists k. repeat split; try assumption; lia.
Qed.

Lemma utf8_size_le_3 (c : Z) : (UNICODE.utf8_size c ≤ 3)%nat.
Proof. unfold UNICODE.utf8_size. repeat case_match; lia. Qed.

(** X7: [UNICODE::utf8_length_as_int] never hands a value above [INT_MAX - 1]
    to its checked cast.  Its result is the [utf8_length] of the first [k]
    units, for the largest [k] for which that length is at most
    [INT_MAX - 1]: the whole array when its [utf8_length] is at most
    [INT_MAX - 1], and otherwise a prefix that ends where the next unit would
    exceed the bound. *)
Theorem utf8_length_as_int_truncates (checked_cast_int : Z → res Z) (base : list Z)
    (length : nat) :
  (∀ z, 0 <= z <= INT_MAX → checked_cast_int z = Ok z) →
  (∃ k, (k ≤ length)%nat
        ∧ UNICODE.utf8_length_as_int checked_cast_int base length
          = Ok (Z.of_nat (UNICODE.utf8_length base k))
        ∧ Z.of_nat (UNICODE.utf8_length base k) <= INT_MAX - 1
        ∧ (k = length ∨ INT_MAX - 1 < Z.of_nat (UNICODE.utf8_length base (S k))))
  ∧ (Z.of_nat (UNICODE.utf8_length base length) <= INT_MAX - 1 →
     UNICODE.utf8_length_as_int checked_cast_int base length
     = Ok (Z.of_nat (UNICODE.utf8_length base length))).
Proof.
  intros Hcast.
  destruct (utf8_length_as_int_loop_spec UNICODE.utf8_size base utf8_size_le_3
              length 0%nat ltac:(simpl; unfold INT_MAX; lia))
    as (k & Hk & E & Hf & Hstop).
  change (Z.of_nat (UNICODE.utf8_length_loop UNICODE.utf8_size base 0 0 0)) with 0 in E.
  cbn [Nat.add] in Hk.
  assert (UNICODE.utf8_length_as_int checked_cast_int base length
          = Ok (Z.of_nat (UNICODE.utf8_length base k))) as Hres.
  { unfold UNICODE.utf8_length_as_int, UNICODE.utf8_length. rewrite E. apply Hcast.
    unfold INT_MAX in *. lia. }
  split.
  - exists k. unfold UNICODE.utf8_length in *. repeat split; try assumption; lia.
  - intros Hfit. rewrite Hres.
    destruct (decide (k = length)) as [->|Hne]; [reflexivity|].
    destruct Hstop as [->|Hstop]; [reflexivity|]. exfalso.
    pose proof (utf8_length_loop_mono UNICODE.utf8_size base (S k) length ltac:(lia)).
    unfold UNICODE.utf8_length in *. lia.
Qed.

Lemma utf8_length_as_int_truncates_witness :
  (∃ k, (k ≤ 4)%nat
        ∧ UNICODE.utf8_length_as_int guarded_cast_int [0x41; 0; 0x20AC; 0xE9] 4
          = Ok (Z.of_nat (UNICODE.utf8_length [0x41; 0; 0x20AC; 0xE9] k))
        ∧ Z.of_nat (UNICODE.utf8_length [0x41; 0; 0x20AC; 0xE9] k) <= INT_MAX - 1
        ∧ (k = 4%nat
           ∨ INT_MAX - 1 < Z.of_nat (UNICODE.utf8_length [0x41; 0; 0x20AC; 0xE9] (S k))))
  ∧ UNICODE.utf8_length_as_int guarded_cast_int [0x41; 0; 0x20AC; 0xE9] 4
    = Ok (Z.of_nat (UNICODE.utf8_length [0x41; 0; 0x20AC; 0xE9] 4)).
Proof.
  destruct (utf8_length_as_int_truncates guarded_cast_int [0x41; 0; 0x20AC; 0xE9] 4
              guarded_cast_int_id) as [H1 H2].
  split; [exact H1|]. apply H2. vm_compute. discriminate.
Defined.

(** ** Quoted ASCII *)

Lemma quoted_length (c : Z) :
  length (quoted c) = if (32 <=? c) && (c <? 127) then 1%nat else 6%nat.
Proof. unfold quoted. now destruct ((32 <=? c) && (c <? 127)). Qed.

Lemma hex_digit_printable (d : Z) : 0 <= d < 16 → 32 <= hex_digit d < 127.
Proof. intros H. unfold hex_digit. destruct (Z.ltb_spec d 10); lia. Qed.

Lemma quoted_printable (c : Z) : Forall (λ b, 32 <= b < 127) (quoted c).
Proof.
  unfold quoted. destruct (Z.leb_spec 32 c), (Z.ltb_spec c 127); cbn [andb];
    repeat constructor; try lia;
    try (rewrite char_id by lia; lia);
    apply hex_digit_printable; arith.
Qed.

Lemma flat_map_quoted_printable (units : list Z) :
  Forall (λ b, 32 <= b < 127) (flat_map quoted units).
Proof.
  induction units as [|c units IH]; [constructor|].
  simpl. apply Forall_app. split; [apply quoted_printable|exact IH].
Qed.

Lemma quoted_ascii_length_loop_spec (units : list Z) :
  ∀ done extra result,
    UNICODE.quoted_ascii_length_loop (done ++ units ++ extra) (length units)
      (length done) result
    = (result + length (flat_map quoted units))%nat.
Proof.
  induction units as [|c units IH]; intros done extra result; [simpl; lia|].
  cbn [length UNICODE.quoted_ascii_length_loop flat_map app]. cbv zeta.
  rewrite unit_at_middle, length_app, quoted_length.
  replace (length done + 1)%nat with (length (done ++ [c]))
    by (rewrite length_app; reflexivity).
  rewrite (cons_middle c done), (app_assoc done).
  destruct ((32 <=? c) && (c <? 127)); rewrite IH; lia.
Qed.

Lemma quoted_ascii_length_spec (units : list Z) :
  UNICODE.quoted_ascii_length units (length units) = length (flat_map quoted units).
Proof.
  pose proof (quoted_ascii_length_loop_spec units [] [] 0) as H.
  simpl in H. now rewrite app_nil_r in H.
Qed.

Lemma store_app_r (pre l : list Z) (k : nat) (v : Z) :
  (k < length l)%nat → store (pre ++ l) (length pre + k) v = Ok (pre ++ <[k := v]> l).
Proof.
  intros Hk. unfold store.
  destruct (decide _) as [_|Hn]; [|rewrite length_app in Hn; lia].
  now rewrite insert_app_r.
Qed.

Lemma snprintf_u04x_at (pre suf : list Z) (t0 t1 t2 t3 t4 t5 t6 c : Z) :
  snprintf_u04x (pre ++ t0 :: t1 :: t2 :: t3 :: t4 :: t5 :: t6 :: suf) (length pre) c
  = Ok (pre ++ [92; 117; hex_digit (Z.shiftr c 12 mod 16);
                hex_digit (Z.shiftr c 8 mod 16); hex_digit (Z.shiftr c 4 mod 16);
                hex_digit (c mod 16)] ++ 0 :: suf).
Proof.
  unfold snprintf_u04x.
  rewrite store_at by reflexivity. cbn [bind].
  do 6 (rewrite store_app_r by (simpl; lia); cbn [bind]).
  reflexivity.
Qed.

Lemma quoted_fitting_prefix (units : list Z) :
  ∀ room, ∃ rest, units = quoted_fitting units room ++ rest
    ∧ match rest with
      | [] => True
      | u :: _ =>
          (room - length (flat_map quoted (quoted_fitting units room))
           ≤ length (quoted u))%nat
      end.
Proof.
  induction units as [|u units IH]; intros room; simpl.
  - exists []. auto.
  - destruct (Nat.leb_spec room (length (quoted u))) as [Hle|Hgt].
    + exists (u :: units). simpl. split; [reflexivity|lia].
    + destruct (IH (room - length (quoted u))%nat) as (rest & Hrest & Hstop).
      exists rest. split; [simpl; congruence|].
      destruct rest as [|r rest]; [exact I|].
      simpl. rewrite length_app. lia.
Qed.

Lemma quoted_fitting_length (units : list Z) :
  ∀ room, (0 < room)%nat →
          (length (flat_map quoted (quoted_fitting units room)) < room)%nat.
Proof.
  induction units as [|u units IH]; intros room Hpos; simpl; [lia|].
  destruct (Nat.leb_spec room (length (quoted u))) as [Hle|Hgt]; simpl; [lia|].
  rewrite length_app. specialize (IH (room - length (quoted u))%nat). lia.
Qed.

Lemma quoted_fitting_all (units : list Z) :
  ∀ room, (length (flat_map quoted units) < room)%nat →
          quoted_fitting units room = units.
Proof.
  induction units as [|u units IH]; intros room Hcap; simpl; [reflexivity|].
  simpl in Hcap. rewrite length_app in Hcap.
  destruct (Nat.leb_spec room (length (quoted u))) as [Hle|Hgt]; [lia|].
  f_equal. apply IH. lia.
Qed.

(** The loop and the final store of NUL, from a buffer whose byte at [p] is
    any. *)
Lemma as_quoted_ascii_loop_spec (units : list Z) :
  ∀ done extra pre x tl room,
    (0 < room ≤ S (length tl))%nat →
    (w <- UNICODE.as_quoted_ascii_loop (done ++ units ++ extra) (length units)
            (length done) (pre ++ x :: tl) (length pre) (length pre + room);;
     store (fst w) (snd w) 0)
    = Ok (pre ++ flat_map quoted (quoted_fitting units room)
              ++ 0 :: drop (length (flat_map quoted (quoted_fitting units room))) tl).
Proof.
  induction units as [|c units IH]; intros done extra pre x tl room Hroom.
  - simpl. now rewrite store_at.
  - cbn [length UNICODE.as_quoted_ascii_loop quoted_fitting app]. cbv zeta.
    rewrite unit_at_middle, quoted_length.
    replace (length done + 1)%nat with (length (done ++ [c]))
      by (rewrite length_app; reflexivity).
    rewrite (cons_middle c done), (app_assoc done).
    destruct ((32 <=? c) && (c <? 127)) eqn:E.
    + assert (quoted c = [char c]) as Q by (unfold quoted; now rewrite E).
      destruct (Nat.leb_spec room 1) as [Hle|Hgt].
      * replace (length pre + room <=? length pre + 1)%nat with true
          by (symmetry; apply Nat.leb_le; lia).
        simpl. now rewrite store_at.
      * replace (length pre + room <=? length pre + 1)%nat with false
          by (symmetry; apply Nat.leb_gt; lia).
        destruct tl as [|y tl]; [simpl in Hroom; lia|].
        rewrite store_at by reflexivity. cbn [bind].
        replace (length pre + 1)%nat with (length (pre ++ [char c]))
          by (rewrite length_app; reflexivity).
        replace (length pre + room)%nat with (length (pre ++ [char c]) + (room - 1))%nat
          by (rewrite length_app; simpl; lia).
        rewrite (cons_middle (char c) pre), (app_assoc pre).
        rewrite IH by (simpl in Hroom; lia).
        cbn [flat_map]. rewrite Q, length_app, <- !app_assoc. reflexivity.
    + assert (quoted c = [92; 117; hex_digit (Z.shiftr c 12 mod 16);
                          hex_digit (Z.shiftr c 8 mod 16);
                          hex_digit (Z.shiftr c 4 mod 16); hex_digit (c mod 16)]) as Q
        by (unfold quoted; now rewrite E).
      destruct (Nat.leb_spec room 6) as [Hle|Hgt].
      * replace (length pre + room <=? length pre + 6)%nat with true
          by (symmetry; apply Nat.leb_le; lia).
        simpl. now rewrite store_at.
      * replace (length pre + room <=? length pre + 6)%nat with false
          by (symmetry; apply Nat.leb_gt; lia).
        destruct tl as [|t1 [|t2 [|t3 [|t4 [|t5 [|t6 tl]]]]]]; simpl in Hroom; try lia.
        rewrite snprintf_u04x_at, <- Q. cbn [bind].
        replace (length pre + 6)%nat with (length (pre ++ quoted c))
          by (rewrite length_app, Q; reflexivity).
        replace (length pre + room)%nat with (length (pre ++ quoted c) + (room - 6))%nat
          by (rewrite length_app, Q; simpl; lia).
        rewrite (app_assoc pre).
        rewrite IH by lia.
        cbn [flat_map]. rewrite length_app, <- !app_assoc.
        rewrite Q at 3. reflexivity.
Qed.

Lemma as_quoted_ascii_spec (units buf : list Z) (buflen : nat) :
  (0 < buflen ≤ length buf)%nat →
  UNICODE.as_quoted_ascii units (length units) buf buflen
  = Ok (flat_map quoted (quoted_fitting units buflen)
        ++ 0 :: drop (S (length (flat_map quoted (quoted_fitting units buflen)))) buf).
Proof.
  intros Hcap. destruct buf as [|x tl]; [simpl in Hcap; lia|].
  pose proof (as_quoted_ascii_loop_spec units [] [] [] x tl buflen
                ltac:(simpl in Hcap; lia)) as H.
  simpl in H. rewrite app_nil_r in H. exact H.
Qed.

(** X8: [UNICODE::as_quoted_ascii] on [jchar] units, with a capacity
    [0 < buflen] inside the buffer, never stores outside the first [buflen]
    bytes.  It writes the
    quoted form of a prefix of the units and NUL, and leaves the bytes behind
    the NUL as they were; every character written lies in 32..126, so the
    result is a C string whose [strlen] is the [quoted_ascii_length] of that
    prefix and is below [buflen]; the first unit left out would not fit with
    the NUL; and nothing is left out when [quoted_ascii_length] of all the
    units is below [buflen]. *)
Theorem as_quoted_ascii_bounded (units buf : list Z) (buflen : nat) :
  Forall is_jchar units → (0 < buflen ≤ length buf)%nat →
  ∃ written rest buf',
    units = written ++ rest
    ∧ UNICODE.as_quoted_ascii units (length units) buf buflen = Ok buf'
    ∧ buf' = flat_map quoted written
             ++ 0 :: drop (S (length (flat_map quoted written))) buf
    ∧ Forall (λ b, 32 <= b < 127) (flat_map quoted written)
    ∧ strlen buf' = UNICODE.quoted_ascii_length written (length written)
    ∧ (UNICODE.quoted_ascii_length written (length written) < buflen)%nat
    ∧ (∀ u rest', rest = u :: rest' →
         (buflen - UNICODE.quoted_ascii_length written (length written)
          ≤ length (quoted u))%nat)
    ∧ (∀ j, (buflen ≤ j)%nat → buf' !! j = buf !! j)
    ∧ ((UNICODE.quoted_ascii_length units (length units) < buflen)%nat → rest = []).
Proof.
  intros _ Hcap.
  destruct (quoted_fitting_prefix units buflen) as (rest & Hsplit & Hstop).
  pose proof (quoted_fitting_length units buflen ltac:(lia)) as Hlen.
  set (written := quoted_fitting units buflen) in *.
  pose proof (flat_map_quoted_printable written) as Hprint.
  exists written, rest, (flat_map quoted written
                         ++ 0 :: drop (S (length (flat_map quoted written))) buf).
  rewrite !quoted_ascii_length_spec.
  split; [exact Hsplit|]. split; [now apply as_quoted_ascii_spec|].
  split; [reflexivity|]. split; [exact Hprint|].
  split; [|split; [exact Hlen|split; [|split]]].
  - apply strlen_app_nonzero. revert Hprint. apply Forall_impl. intros b Hb. lia.
  - intros u rest' ->. exact Hstop.
  - intros j Hj.
    rewrite (cons_middle 0), app_assoc, lookup_app_r by (rewrite length_app; simpl; lia).
    rewrite lookup_drop, length_app. f_equal. simpl. lia.
  - intros Hall. subst written.
    rewrite quoted_fitting_all in Hsplit by exact Hall.
    apply (f_equal length) in Hsplit. rewrite length_app in Hsplit.
    destruct rest; [reflexivity|simpl in Hsplit; lia].
Qed.

Lemma as_quoted_ascii_bounded_witness :
  ∃ written rest buf',
    [0x41; 0xE9; 0x42; 0x20AC] = written ++ rest
    ∧ UNICODE.as_quoted_ascii [0x41; 0xE9; 0x42; 0x20AC] 4 (repeat 7 12) 10 = Ok buf'
    ∧ buf' = flat_map quoted written
             ++ 0 :: drop (S (length (flat_map quoted written))) (repeat 7 12)
    ∧ Forall (λ b, 32 <= b < 127) (flat_map quoted written)
    ∧ strlen buf' = UNICODE.quoted_ascii_length written (length written)
    ∧ (UNICODE.quoted_ascii_length written (length written) < 10)%nat
    ∧ (∀ u rest', rest = u :: rest' →
         (10 - UNICODE.quoted_ascii_length written (length written)
          ≤ length (quoted u))%nat)
    ∧ (∀ j, (10 ≤ j)%nat → buf' !! j = repeat 7 12 !! j)
    ∧ ((UNICODE.quoted_ascii_length [0x41; 0xE9; 0x42; 0x20AC]%Z 4 < 10)%nat → rest = []).
Proof.
  apply (as_quoted_ascii_bounded [0x41; 0xE9; 0x42; 0x20AC] (repeat 7 12) 10).
  - repeat constructor; lia.
  - simpl. lia.
Defined.

Example as_quoted_ascii_truncated :
  UNICODE.as_quoted_ascii [0x41; 0xE9; 0x42; 0x20AC] 4 (repeat 7 12) 10
  = Ok [0x41; 92; 117; 48; 48; 101; 57; 0x42; 0; 7; 7; 7].
Proof. reflexivity. Qed.

(** ** The quoting of UTF-8 strings and of units *)

Lemma utf8_quoted_ascii_length_done (utf8_str : list Z) (utf8_end ptr result : nat) :
  (utf8_end ≤ ptr)%nat →
  UTF8.quoted_ascii_length_loop utf8_str utf8_end ptr result = result.
Proof.
  intros H. rewrite UTF8.quoted_ascii_length_loop_equation_1.
  destruct (decide (ptr < utf8_end)%nat); [lia|reflexivity].
Qed.

Lemma utf8_quoted_ascii_length_turn (utf8_str : list Z) (utf8_end ptr result : nat) :
  (ptr < utf8_end)%nat →
  UTF8.quoted_ascii_length_loop utf8_str utf8_end ptr result
  = if (32 <=? UTF8.next_c utf8_str ptr) && (UTF8.next_c utf8_str ptr <? 127)
    then UTF8.quoted_ascii_length_loop utf8_str utf8_end (UTF8.next_ptr utf8_str ptr)
           (result + 1)
    else UTF8.quoted_ascii_length_loop utf8_str utf8_end (UTF8.next_ptr utf8_str ptr)
           (result + 6).
Proof.
  intros H. rewrite UTF8.quoted_ascii_length_loop_equation_1.
  destruct (decide (ptr < utf8_end)%nat); [reflexivity|lia].
Qed.

Lemma utf8_as_quoted_ascii_done (utf8_str : list Z) (utf8_end ptr : nat) (mem : list Z)
    (p end_ : nat) :
  (utf8_end ≤ ptr)%nat →
  UTF8.as_quoted_ascii_loop utf8_str utf8_end ptr mem p end_ = Ok (mem, p).
Proof.
  intros H. rewrite UTF8.as_quoted_ascii_loop_equation_1.
  destruct (decide (ptr < utf8_end)%nat); [lia|reflexivity].
Qed.

Lemma utf8_as_quoted_ascii_turn (utf8_str : list Z) (utf8_end ptr : nat) (mem : list Z)
    (p end_ : nat) :
  (ptr < utf8_end)%nat →
  UTF8.as_quoted_ascii_loop utf8_str utf8_end ptr mem p end_
  = if (32 <=? UTF8.next_c utf8_str ptr) && (UTF8.next_c utf8_str ptr <? 127) then
      if (end_ <=? p + 1)%nat then Ok (mem, p)
      else
        mem <- store mem p (char (UTF8.next_c utf8_str ptr));;
        UTF8.as_quoted_ascii_loop utf8_str utf8_end (UTF8.next_ptr utf8_str ptr)
          mem (p + 1) end_
    else
      if (end_ <=? p + 6)%nat then Ok (mem, p)
      else
        mem <- snprintf_u04x mem p (UTF8.next_c utf8_str ptr);;
        UTF8.as_quoted_ascii_loop utf8_str utf8_end (UTF8.next_ptr utf8_str ptr)
          mem (p + 6) end_.
Proof.
  intros H. rewrite UTF8.as_quoted_ascii_loop_equation_1.
  destruct (decide (ptr < utf8_end)%nat); [reflexivity|lia].
Qed.

Lemma next_at_unit (pre rest : list Z) (u : Z) :
  is_jchar u →
  UTF8.next_c (pre ++ utf8_bytes u ++ rest) (length pre) = u
  ∧ UTF8.next_ptr (pre ++ utf8_bytes u ++ rest) (length pre)
    = length (pre ++ utf8_bytes u).
Proof.
  intros Hu. unfold UTF8.next_c, UTF8.next_ptr.
  rewrite drop_app_length, next_utf8_bytes by exact Hu.
  cbn [fst snd]. rewrite jchar_id by exact Hu. now rewrite length_app.
Qed.

Lemma utf8_bytes_length_pos (u : Z) : (1 ≤ length (utf8_bytes u))%nat.
Proof. unfold utf8_bytes. repeat case_match; simpl; lia. Qed.

Lemma utf8_quoted_ascii_length_encode (units : list Z) :
  Forall is_jchar units →
  ∀ done extra pre suf result,
    UTF8.quoted_ascii_length_loop (pre ++ utf8_encode units ++ suf)
      (length pre + length (utf8_encode units)) (length pre) result
    = UNICODE.quoted_ascii_length_loop (done ++ units ++ extra) (length units)
        (length done) result.
Proof.
  induction 1 as [|u units Hu _ IH]; intros done extra pre suf result.
  - simpl. apply utf8_quoted_ascii_length_done. lia.
  - rewrite utf8_encode_cons, length_app, <- app_assoc.
    pose proof (utf8_bytes_length_pos u) as Hpos.
    rewrite utf8_quoted_ascii_length_turn by lia.
    destruct (next_at_unit pre (utf8_encode units ++ suf) u Hu) as [-> ->].
    cbn [length UNICODE.quoted_ascii_length_loop app]. cbv zeta.
    rewrite unit_at_middle.
    replace (length done + 1)%nat with (length (done ++ [u]))
      by (rewrite length_app; reflexivity).
    replace (length pre + (length (utf8_bytes u) + length (utf8_encode units)))%nat
      with (length (pre ++ utf8_bytes u) + length (utf8_encode units))%nat
      by (rewrite length_app; lia).
    rewrite (app_assoc pre), (cons_middle u done), (app_assoc done).
    destruct (_ && _); apply IH.
Qed.

(** X9: on the bytes [utf8_write] produces for [jchar] units,
    [UTF8::quoted_ascii_length] returns what [UNICODE::quoted_ascii_length]
    returns on the units. *)
Theorem quoted_ascii_length_of_encoded (units suf : list Z) :
  Forall is_jchar units →
  UTF8.quoted_ascii_length (utf8_encode units ++ suf) (length (utf8_encode units))
  = UNICODE.quoted_ascii_length units (length units).
Proof.
  intros Hu.
  pose proof (utf8_quoted_ascii_length_encode units Hu [] [] [] suf 0) as H.
  simpl in H. rewrite app_nil_r in H. exact H.
Qed.

Lemma quoted_ascii_length_of_encoded_witness :
  UTF8.quoted_ascii_length (utf8_encode [0x41; 0; 0xE9; 0x20AC; 0x7F] ++ [0])
    (length (utf8_encode [0x41; 0; 0xE9; 0x20AC; 0x7F]))
  = UNICODE.quoted_ascii_length [0x41; 0; 0xE9; 0x20AC; 0x7F] 5.
Proof.
  apply (quoted_ascii_length_of_encoded [0x41; 0; 0xE9; 0x20AC; 0x7F] [0]).
  repeat constructor; lia.
Defined.

Lemma utf8_as_quoted_ascii_encode (units : list Z) :
  Forall is_jchar units →
  ∀ done extra pre suf mem p end_,
    UTF8.as_quoted_ascii_loop (pre ++ utf8_encode units ++ suf)
      (length pre + length (utf8_encode units)) (length pre) mem p end_
    = UNICODE.as_quoted_ascii_loop (done ++ units ++ extra) (length units)
        (length done) mem p end_.
Proof.
  induction 1 as [|u units Hu _ IH]; intros done extra pre suf mem p end_.
  - simpl. apply utf8_as_quoted_ascii_done. lia.
  - rewrite utf8_encode_cons, length_app, <- app_assoc.
    pose proof (utf8_bytes_length_pos u) as Hpos.
    rewrite utf8_as_quoted_ascii_turn by lia.
    destruct (next_at_unit pre (utf8_encode units ++ suf) u Hu) as [-> ->].
    cbn [length UNICODE.as_quoted_ascii_loop app]. cbv zeta.
    rewrite unit_at_middle.
    replace (length done + 1)%nat with (length (done ++ [u]))
      by (rewrite length_app; reflexivity).
    replace (length pre + (length (utf8_bytes u) + length (utf8_encode units)))%nat
      with (length (pre ++ utf8_bytes u) + length (utf8_encode units))%nat
      by (rewrite length_app; lia).
    rewrite (app_assoc pre), (cons_middle u done), (app_assoc done).
    repeat case_match; try reflexivity.
    + destruct (store mem p (char u)); [cbn [bind]; apply IH|reflexivity].
    + destruct (snprintf_u04x mem p u); [cbn [bind]; apply IH|reflexivity].
Qed.

(** The loop keeps [p] before [end]. *)
Lemma as_quoted_ascii_loop_before_end (base : list Z) (n : nat) :
  ∀ index mem p end_ mem' p',
    (p < end_)%nat →
    UNICODE.as_quoted_ascii_loop base n index mem p end_ = Ok (mem', p') →
    (p' < end_)%nat.
Proof.
  induction n as [|n IH]; intros index mem p end_ mem' p' Hp; simpl.
  - intros [= _ <-]. exact Hp.
  - destruct ((32 <=? unit_at base index) && (unit_at base index <? 127)).
    + destruct (Nat.leb_spec end_ (p + 1)); [intros [= _ <-]; exact Hp|].
      destruct (store mem p _); [|discriminate]. cbn [bind]. apply IH. lia.
    + destruct (Nat.leb_spec end_ (p + 6)); [intros [= _ <-]; exact Hp|].
      destruct (snprintf_u04x mem p _); [|discriminate]. cbn [bind]. apply IH. lia.
Qed.

(** X10: on the bytes [utf8_write] produces for [jchar] units, and with a
    capacity [buflen > 0], [UTF8::as_quoted_ascii] leaves in the buffer what
    [UNICODE::as_quoted_ascii] leaves there on the units, and its assertion
    [p < end] holds.  With [buflen = 0] the loop stores nothing and the
    assertion fails, whatever the string is. *)
Theorem as_quoted_ascii_of_encoded (units suf buf : list Z) (buflen : nat) :
  Forall is_jchar units →
  ((0 < buflen)%nat →
   UTF8.as_quoted_ascii (utf8_encode units ++ suf) (length (utf8_encode units))
     buf buflen
   = UNICODE.as_quoted_ascii units (length units) buf buflen)
  ∧ (∀ utf8_str utf8_length,
       UTF8.as_quoted_ascii utf8_str utf8_length buf 0 = Stop AssertionFailure).
Proof.
  intros Hu. split.
  - intros Hpos. unfold UTF8.as_quoted_ascii, UNICODE.as_quoted_ascii.
    pose proof (utf8_as_quoted_ascii_encode units Hu [] [] [] suf buf 0%nat buflen) as H.
    simpl in H. rewrite app_nil_r in H. rewrite H.
    destruct (UNICODE.as_quoted_ascii_loop units (length units) 0 buf 0 buflen)
      as [[mem' p']|f] eqn:E; [|reflexivity].
    cbn [bind fst snd].
    pose proof (as_quoted_ascii_loop_before_end _ _ _ _ _ _ _ _ Hpos E) as Hp.
    replace (p' <? buflen)%nat with true by (symmetry; now apply Nat.ltb_lt).
    reflexivity.
  - intros utf8_str utf8_length. unfold UTF8.as_quoted_ascii.
    destruct (decide (0 < utf8_length)%nat) as [Hl|Hl].
    + rewrite utf8_as_quoted_ascii_turn by exact Hl.
      destruct (_ && _); reflexivity.
    + rewrite utf8_as_quoted_ascii_done by lia. reflexivity.
Qed.

Lemma as_quoted_ascii_of_encoded_witness :
  UTF8.as_quoted_ascii (utf8_encode [0x41; 0xE9; 0x42; 0x20AC] ++ [0])
    (length (utf8_encode [0x41; 0xE9; 0x42; 0x20AC])) (repeat 7 12) 10
  = UNICODE.as_quoted_ascii [0x41; 0xE9; 0x42; 0x20AC] 4 (repeat 7 12) 10
  ∧ (∀ utf8_str utf8_length,
       UTF8.as_quoted_ascii utf8_str utf8_length (repeat 7 12) 0
       = Stop AssertionFailure).
Proof.
  destruct (as_quoted_ascii_of_encoded [0x41; 0xE9; 0x42; 0x20AC] [0] (repeat 7 12) 10)
    as [H1 H2].
  - repeat constructor; lia.
  - split; [apply H1; lia|exact H2].
Defined.

(** ** The two modes of the validator *)

Lemma legal_strict_legacy (buffer : list Z) (length : nat) :
  Forall is_byte buffer →
  ∀ n i, (length - i ≤ n)%nat →
         UTF8.is_legal_utf8_bytes buffer length false i = true →
         UTF8.is_legal_utf8_bytes buffer length true i = true.
Proof.
  intros Hb. induction n as [|n IH]; intros i Hn H.
  - apply legal_done. lia.
  - destruct (decide (i < length)%nat) as [Hi|Hi]; [|apply legal_done; lia].
    rewrite (legal_turn buffer length true Hb i Hi).
    rewrite (legal_turn buffer length false Hb i Hi) in H.
    cbn [orb] in *. rewrite ?andb_true_r.
    destruct (byte_at buffer i =? 0); [discriminate|].
    destruct (byte_at buffer i <? 128); [apply IH; [lia|exact H]|].
    destruct ((i + 5 <? length)%nat && supplementary_pattern (drop i buffer));
      [apply IH; [lia|exact H]|].
    destruct (byte_at buffer i <? 192); [discriminate|].
    destruct (byte_at buffer i <? 224).
    + destruct ((i + 1 <? length)%nat && continuation (byte_at buffer (i + 1)));
        cbn [andb] in *; [|discriminate].
      destruct (_ || _); [apply IH; [lia|exact H]|discriminate].
    + destruct (byte_at buffer i <? 240); [|discriminate].
      destruct ((i + 2 <? length)%nat && continuation (byte_at buffer (i + 1))
                && continuation (byte_at buffer (i + 2)));
        cbn [andb] in *; [|discriminate].
      destruct (_ <=? _); [apply IH; [lia|exact H]|discriminate].
Qed.

(** X11: what the validator accepts in the strict mode it accepts in the
    mode of class files up to version 47. *)
Theorem is_legal_utf8_strict_implies_legacy (buffer : list Z) (length : nat) :
  Forall is_byte buffer →
  UTF8.is_legal_utf8 buffer length false = true →
  UTF8.is_legal_utf8 buffer length true = true.
Proof.
  intros Hb. rewrite !is_legal_utf8_fast_path by exact Hb.
  unfold UTF8.is_legal_utf8_no_fast_path.
  apply (legal_strict_legacy buffer length Hb length). lia.
Qed.

Lemma is_legal_utf8_strict_implies_legacy_witness :
  UTF8.is_legal_utf8 [0x41; 0xC0; 0x80; 0xED; 0xA0; 0x80; 0xE2; 0x82; 0xAC] 9 true = true.
Proof.
  apply (is_legal_utf8_strict_implies_legacy
           [0x41; 0xC0; 0x80; 0xED; 0xA0; 0x80; 0xE2; 0x82; 0xAC] 9).
  - repeat constructor; lia.
  - vm_compute. reflexivity.
Defined.

(** ** What the strict validator accepts *)

Lemma take_drop_step (buffer : list Z) (i len : nat) :
  (i < len ≤ length buffer)%nat →
  take (len - i) (drop i buffer)
  = byte_at buffer i :: take (len - (i + 1)) (drop (i + 1) buffer).
Proof.
  intros H. destruct (lookup_lt_is_Some_2 buffer i ltac:(lia)) as [x Hx].
  rewrite (drop_S buffer x i Hx). unfold byte_at. rewrite Hx. simpl.
  replace (len - i)%nat with (S (len - (i + 1))) by lia.
  replace (i + 1)%nat with (S i) by lia. reflexivity.
Qed.

Lemma utf8_bytes_of_2 (b0 b1 : Z) :
  0xC0 <= b0 < 0xE0 → 0x80 <= b1 < 0xC0 →
  value_2 b0 b1 = 0 ∨ 0x80 <= value_2 b0 b1 →
  is_jchar (value_2 b0 b1) ∧ utf8_bytes (value_2 b0 b1) = [b0; b1].
Proof.
  unfold value_2, is_jchar. intros H0 H1 Hv. split; [lia|].
  rewrite utf8_bytes_2 by lia. repeat f_equal; arith.
Qed.

Lemma utf8_bytes_of_3 (b0 b1 b2 : Z) :
  0xE0 <= b0 < 0xF0 → 0x80 <= b1 < 0xC0 → 0x80 <= b2 < 0xC0 →
  0x800 <= value_3 b0 b1 b2 →
  is_jchar (value_3 b0 b1 b2) ∧ utf8_bytes (value_3 b0 b1 b2) = [b0; b1; b2].
Proof.
  unfold value_3, is_jchar. intros H0 H1 H2 Hv. split; [lia|].
  rewrite utf8_bytes_3 by lia. repeat f_equal; arith.
Qed.

Lemma legal_strict_is_encoding (buffer : list Z) (length : nat) :
  Forall is_byte buffer → (length ≤ List.length buffer)%nat →
  ∀ n i, (length - i ≤ n)%nat → (i ≤ length)%nat →
         UTF8.is_legal_utf8_bytes buffer length false i = true →
         ∃ units, Forall is_jchar units
                  ∧ take (length - i) (drop i buffer) = utf8_encode units.
Proof.
  intros Hb Hlen. induction n as [|n IH]; intros i Hn Hi H.
  - exists []. split; [constructor|].
    replace (length - i)%nat with 0%nat by lia. reflexivity.
  - destruct (decide (i < length)%nat) as [Hlt|Hge].
    2:{ exists []. split; [constructor|].
        replace (length - i)%nat with 0%nat by lia. reflexivity. }
    pose proof (byte_at_is_byte buffer i Hb) as B0.
    pose proof (byte_at_is_byte buffer (i + 1) Hb) as B1.
    pose proof (byte_at_is_byte buffer (i + 2) Hb) as B2.
    unfold is_byte in B0, B1, B2.
    destruct ((i + 5 <? length)%nat && supplementary_pattern (drop i buffer)) eqn:Es.
    + apply andb_true_iff in Es as [Hl Hp]. apply Nat.ltb_lt in Hl.
      rewrite (legal_accept_6 buffer length false Hb i Hl Hp) in H.
      destruct (IH (i + 6)%nat ltac:(lia) ltac:(lia) H) as (units & Hu & E).
      rewrite supplementary_pattern_drop in Hp. unfold continuation in Hp.
      destruct (utf8_bytes_of_3 (byte_at buffer i) (byte_at buffer (i + 1))
                  (byte_at buffer (i + 2))) as [J1 E1]; try lia;
        [unfold value_3; lia|].
      destruct (utf8_bytes_of_3 (byte_at buffer (i + 3)) (byte_at buffer (i + 4))
                  (byte_at buffer (i + 5))) as [J2 E2]; try lia;
        [unfold value_3; lia|].
      eexists (_ :: _ :: units).
      split; [constructor; [exact J1|constructor; [exact J2|exact Hu]]|].
      rewrite !utf8_encode_cons, E1, E2, <- E.
      do 6 (rewrite take_drop_step by lia; rewrite <- ?Nat.add_assoc; cbn [Nat.add]).
      reflexivity.
    + destruct (legal_start_inv buffer length false Hb i Hlt H)
        as [Ha|[[Hl Hp]|[(H0 & Hl & H1 & Hv)|(H0 & Hl & H1 & H2 & Hv)]]].
      * rewrite (legal_accept_1 buffer length false Hb i Hlt Ha) in H.
        destruct (IH (i + 1)%nat ltac:(lia) ltac:(lia) H) as (units & Hu & E).
        exists (byte_at buffer i :: units).
        split; [constructor; [unfold is_jchar; lia|exact Hu]|].
        rewrite utf8_encode_cons, utf8_bytes_1, <- E by lia.
        rewrite take_drop_step by lia. reflexivity.
      * exfalso. apply andb_false_iff in Es as [Es|Es]; [|congruence].
        apply Nat.ltb_ge in Es. lia.
      * assert (value_2 (byte_at buffer i) (byte_at buffer (i + 1)) = 0
                ∨ 128 <= value_2 (byte_at buffer i) (byte_at buffer (i + 1))) as Hv'
          by (destruct Hv as [?|[?|?]]; [discriminate|auto..]).
        rewrite (legal_accept_2 buffer length false Hb i Hl H0 H1 Hv) in H.
        destruct (IH (i + 2)%nat ltac:(lia) ltac:(lia) H) as (units & Hu & E).
        destruct (utf8_bytes_of_2 _ _ H0 H1 Hv') as [J1 E1].
        eexists (_ :: units). split; [constructor; [exact J1|exact Hu]|].
        rewrite utf8_encode_cons, E1, <- E.
        do 2 (rewrite take_drop_step by lia; rewrite <- ?Nat.add_assoc; cbn [Nat.add]).
        reflexivity.
      * assert (2048 <= value_3 (byte_at buffer i) (byte_at buffer (i + 1))
                          (byte_at buffer (i + 2))) as Hv'
          by (destruct Hv as [?|?]; [discriminate|assumption]).
        rewrite (legal_accept_3 buffer length false Hb i Hl H0 H1 H2 Es Hv) in H.
        destruct (IH (i + 3)%nat ltac:(lia) ltac:(lia) H) as (units & Hu & E).
        destruct (utf8_bytes_of_3 _ _ _ H0 H1 H2 Hv') as [J1 E1].
        eexists (_ :: units). split; [constructor; [exact J1|exact Hu]|].
        rewrite utf8_encode_cons, E1, <- E.
        do 3 (rewrite take_drop_step by lia; rewrite <- ?Nat.add_assoc; cbn [Nat.add]).
        reflexivity.
Qed.

(** X12: in the strict mode [UTF8::is_legal_utf8] accepts exactly the output
    of the encoder: the first [length] bytes of a buffer of bytes pass if and
    only if they are the bytes [utf8_write] produces for some sequence of
    [jchar] units. *)
Theorem is_legal_utf8_strict_iff_encoded (buffer : list Z) (length : nat) :
  Forall is_byte buffer → (length ≤ List.length buffer)%nat →
  UTF8.is_legal_utf8 buffer length false = true
  ↔ ∃ units, Forall is_jchar units ∧ take length buffer = utf8_encode units.
Proof.
  intros Hb Hlen. split.
  - rewrite is_legal_utf8_fast_path by exact Hb.
    unfold UTF8.is_legal_utf8_no_fast_path. intros H.
    destruct (legal_strict_is_encoding buffer length Hb Hlen length 0%nat
                ltac:(lia) ltac:(lia) H) as (units & Hu & E).
    exists units. split; [exact Hu|].
    rewrite Nat.sub_0_r in E. exact E.
  - intros (units & Hu & E).
    rewrite <- (take_drop length buffer), E.
    replace length with (List.length (utf8_encode units)) at 2
      by (rewrite <- E, length_take; lia).
    apply is_legal_utf8_encoded; [exact Hu|now apply Forall_is_byte_drop].
Qed.

Lemma is_legal_utf8_strict_iff_encoded_witness :
  UTF8.is_legal_utf8 [0x41; 0xC0; 0x80; 0xE2; 0x82; 0xAC; 0xFF] 6 false = true
  ↔ ∃ units, Forall is_jchar units
             ∧ take 6 [0x41; 0xC0; 0x80; 0xE2; 0x82; 0xAC; 0xFF] = utf8_encode units.
Proof.
  apply (is_legal_utf8_strict_iff_encoded [0x41; 0xC0; 0x80; 0xE2; 0x82; 0xAC; 0xFF] 6).
  - repeat constructor; lia.
  - simpl. lia.
Defined.

(** X13: decoding what the strict validator accepts and encoding it again
    gives the same bytes.  For the first [length] bytes of a buffer of bytes
    that pass [UTF8::is_legal_utf8] in the strict mode, with [length] within an
    [int]: [UTF8::unicode_length] returns the number of units,
    [UTF8::convert_to_unicode] with that count stores the units, and
    [UNICODE::convert_to_utf8] on those units writes the [length] bytes again,
    followed by NUL. *)
Theorem legal_utf8_decode_encode (checked_cast_int : Z → res Z)
    (buffer unicode_str mem : list Z) (length : nat) :
  (∀ z, 0 <= z <= INT_MAX → checked_cast_int z = Ok z) →
  Forall is_byte buffer → (length ≤ List.length buffer)%nat →
  Z.of_nat length <= INT_MAX →
  UTF8.is_legal_utf8 buffer length false = true →
  (length ≤ List.length unicode_str)%nat → (length < List.length mem)%nat →
  ∃ units is_latin1 has_multibyte,
    UTF8.unicode_length checked_cast_int buffer length
    = Ok (Z.of_nat (List.length units), is_latin1, has_multibyte)
    ∧ UTF8.convert_to_unicode jchar buffer unicode_str (List.length units)
      = Ok (units ++ drop (List.length units) unicode_str)
    ∧ UNICODE.convert_to_utf8 units (List.length units) mem
      = Ok (take length buffer ++ 0 :: drop (S length) mem).
Proof.
  intros Hcast Hb Hlen Hint Hlegal Hout Hmem.
  rewrite is_legal_utf8_fast_path in Hlegal by exact Hb.
  destruct (legal_strict_is_encoding buffer length Hb Hlen length 0%nat
              ltac:(lia) ltac:(lia) Hlegal) as (units & Hu & E).
  rewrite Nat.sub_0_r in E. change (drop 0 buffer) with buffer in E.
  assert (length = List.length (utf8_encode units)) as El
    by (rewrite <- E, length_take; lia).
  pose proof (utf8_encode_length_le units Hu) as Hle.
  exists units. eexists _, _.
  rewrite <- (take_drop length buffer) at 1 2. rewrite E, El.
  split; [|split].
  - apply unicode_length_encoded; [exact Hcast|exact Hu|lia].
  - apply (convert_to_unicode_decodes jchar utf8_bytes).
    + now apply next_jchar_utf8_bytes.
    + change (flat_map utf8_bytes units) with (utf8_encode units).
      rewrite <- El, <- E, take_drop. exact Hb.
    + lia.
  - apply convert_to_utf8_spec. lia.
Qed.

Lemma legal_utf8_decode_encode_witness :
  ∃ units is_latin1 has_multibyte,
    UTF8.unicode_length guarded_cast_int
      [0x41; 0xC0; 0x80; 0xE2; 0x82; 0xAC; 0xC3; 0xA9; 0xFF] 8
    = Ok (Z.of_nat (List.length units), is_latin1, has_multibyte)
    ∧ UTF8.convert_to_unicode jchar [0x41; 0xC0; 0x80; 0xE2; 0x82; 0xAC; 0xC3; 0xA9; 0xFF]
        (repeat 7 8) (List.length units)
      = Ok (units ++ drop (List.length units) (repeat 7 8))
    ∧ UNICODE.convert_to_utf8 units (List.length units) (repeat 9 10)
      = Ok (take 8 [0x41; 0xC0; 0x80; 0xE2; 0x82; 0xAC; 0xC3; 0xA9; 0xFF]
            ++ 0 :: drop 9 (repeat 9 10)).
Proof.
  apply (legal_utf8_decode_encode guarded_cast_int
           [0x41; 0xC0; 0x80; 0xE2; 0x82; 0xAC; 0xC3; 0xA9; 0xFF]
           (repeat 7 8) (repeat 9 10) 8).
  - exact guarded_cast_int_id.
  - repeat constructor; lia.
  - simpl. lia.
  - vm_compute. discriminate.
  - vm_compute. reflexivity.
  - simpl. lia.
  - simpl. lia.
Defined.

(** ** What [truncate_to_legal_utf8] changes *)

Lemma truncate_scan_frame (buffer : list Z) :
  ∀ index, (index < length buffer)%nat →
    UTF8.truncate_to_legal_utf8_scan buffer index = Stop AssertionFailure
    ∨ UTF8.truncate_to_legal_utf8_scan buffer index = Ok buffer
    ∨ ∃ j, (j ≤ index)%nat ∧ is_starting_byte (byte_at buffer j) = true
           ∧ UTF8.truncate_to_legal_utf8_scan buffer index = Ok (<[j := 0]> buffer).
Proof.
  induction index as [|index' IH]; intros Hi; [right; left; reflexivity|].
  cbn [UTF8.truncate_to_legal_utf8_scan].
  destruct (is_starting_byte (byte_at buffer (S index'))) eqn:Hs.
  2:{ destruct (IH ltac:(lia)) as [H|[H|(j & Hj & Hsj & H)]]; [auto..|].
      right; right. exists j. repeat split; [lia|assumption..]. }
  assert (store buffer (S index') 0 = Ok (<[S index' := 0]> buffer)) as Est
    by (unfold store; destruct (decide _); [reflexivity|lia]).
  destruct (byte_at buffer (S index') =? 237).
  2:{ cbn [bind]. right; right. exists (S index'). repeat split; [lia|assumption..]. }
  destruct ((3 <=? S index')%nat && (byte_at buffer (S index' - 3) =? 237)
            && (Z.land (byte_at buffer (S index' - 2)) 240 =? 160)) eqn:Hc.
  2:{ cbn [bind]. right; right. exists (S index'). repeat split; [lia|assumption..]. }
  apply andb_true_iff in Hc as [Hc _]. apply andb_true_iff in Hc as [_ Hc].
  apply Z.eqb_eq in Hc.
  destruct ((128 <=? byte_at buffer (S index' - 1))
            && (byte_at buffer (S index' - 1) <=? 191)); cbn [c_assert bind];
    [|left; reflexivity].
  right; right. exists (S index' - 3)%nat. repeat split; [lia|now rewrite Hc|].
  unfold store. destruct (decide _); [reflexivity|lia].
Qed.

(** X14: [UTF8::truncate_to_legal_utf8] stops at once, on its assertions,
    when the length is not above 5 or the last byte is not NUL.  Otherwise,
    when the [length] bytes lie in the buffer, it never stores outside the
    buffer: it stops on the assertion of the fourth-byte case, or returns
    the buffer as it was, or returns it with exactly one store, of NUL, over
    a byte in 0xC0..0xEF at an index of at most [length - 2]. *)
Theorem truncate_to_legal_utf8_frame (buffer : list Z) (length : nat) :
  ((length ≤ 5)%nat ∨ byte_at buffer (length - 1) ≠ 0 →
   UTF8.truncate_to_legal_utf8 buffer length = Stop AssertionFailure)
  ∧ ((5 < length ≤ List.length buffer)%nat → byte_at buffer (length - 1) = 0 →
     UTF8.truncate_to_legal_utf8 buffer length = Stop AssertionFailure
     ∨ UTF8.truncate_to_legal_utf8 buffer length = Ok buffer
     ∨ ∃ j, (j ≤ length - 2)%nat ∧ 0xC0 <= byte_at buffer j <= 0xEF
            ∧ UTF8.truncate_to_legal_utf8 buffer length = Ok (<[j := 0]> buffer)).
Proof.
  unfold UTF8.truncate_to_legal_utf8. split.
  - intros [Hl|Hn].
    + replace (5 <? length)%nat with false by (symmetry; apply Nat.ltb_ge; lia).
      reflexivity.
    + destruct (5 <? length)%nat; [|reflexivity]. cbn [c_assert bind].
      destruct (Z.eqb_spec (byte_at buffer (length - 1)) 0); [contradiction|].
      reflexivity.
  - intros Hl Hn. rewrite nat_ltb_true by lia. rewrite Hn. cbn [c_assert bind Z.eqb].
    destruct (byte_at buffer (length - 2) <? 128); [right; left; reflexivity|].
    destruct (truncate_scan_frame buffer (length - 2) ltac:(lia))
      as [H|[H|(j & Hj & Hs & H)]]; [auto..|].
    right; right. exists j. repeat split; try assumption;
      unfold is_starting_byte in Hs; lia.
Qed.

Lemma truncate_to_legal_utf8_frame_witness :
  UTF8.truncate_to_legal_utf8 [0x41; 0xC3; 0xA9; 0x00] 4 = Stop AssertionFailure
  ∧ (UTF8.truncate_to_legal_utf8 [0x41; 0x42; 0x43; 0x44; 0xC3; 0xA9; 0x00] 7
     = Stop AssertionFailure
     ∨ UTF8.truncate_to_legal_utf8 [0x41; 0x42; 0x43; 0x44; 0xC3; 0xA9; 0x00] 7
       = Ok [0x41; 0x42; 0x43; 0x44; 0xC3; 0xA9; 0x00]
     ∨ ∃ j, (j ≤ 7 - 2)%nat
            ∧ 0xC0 <= byte_at [0x41; 0x42; 0x43; 0x44; 0xC3; 0xA9; 0x00] j <= 0xEF
            ∧ UTF8.truncate_to_legal_utf8 [0x41; 0x42; 0x43; 0x44; 0xC3; 0xA9; 0x00] 7
              = Ok (<[j := 0]> [0x41; 0x42; 0x43; 0x44; 0xC3; 0xA9; 0x00])).
Proof.
  split.
  - apply (truncate_to_legal_utf8_frame [0x41; 0xC3; 0xA9; 0x00] 4). left. lia.
  - apply (truncate_to_legal_utf8_frame [0x41; 0x42; 0x43; 0x44; 0xC3; 0xA9; 0x00] 7).
    + simpl. lia.
    + reflexivity.
Defined.

(** ** Truncating the output of the encoder *)

Lemma utf8_encode_app (us1 us2 : list Z) :
  utf8_encode (us1 ++ us2) = utf8_encode us1 ++ utf8_encode us2.
Proof. apply flat_map_app. Qed.

(** Every byte of an encoding lies in the bytes of one unit. *)
Lemma encode_position (units : list Z) :
  ∀ i, (i < length (utf8_encode units))%nat →
       ∃ us1 u us2 o,
         units = us1 ++ u :: us2
         ∧ i = (length (utf8_encode us1) + o)%nat
         ∧ (o < length (utf8_bytes u))%nat.
Proof.
  induction units as [|u units IH]; intros i Hi; [simpl in Hi; lia|].
  rewrite utf8_encode_cons, length_app in Hi.
  destruct (decide (i < length (utf8_bytes u))%nat) as [Hlt|Hge].
  - exists [], u, units, i. split; [reflexivity|split; [simpl; lia|exact Hlt]].
  - destruct (IH (i - length (utf8_bytes u))%nat ltac:(lia))
      as (us1 & v & us2 & o & -> & Ei & Ho).
    exists (u :: us1), v, us2, o. split; [reflexivity|split; [|exact Ho]].
    rewrite utf8_encode_cons, length_app. lia.
Qed.

Lemma encode_byte_at (us1 us2 : list Z) (u : Z) (o : nat) :
  (o < length (utf8_bytes u))%nat →
  byte_at (utf8_encode (us1 ++ u :: us2)) (length (utf8_encode us1) + o)
  = byte_at (utf8_bytes u) o.
Proof.
  intros Ho. rewrite utf8_encode_app, utf8_encode_cons, byte_at_app_r.
  now apply byte_at_app_l.
Qed.

(** The bytes of one unit: one ASCII byte, or a lead byte in 0xC0..0xEF and
    continuation bytes. *)
Lemma utf8_bytes_shape (u : Z) :
  is_jchar u →
  (length (utf8_bytes u) = 1%nat ∧ 0 < byte_at (utf8_bytes u) 0 < 0x80)
  ∨ ((2 ≤ length (utf8_bytes u) ≤ 3)%nat
     ∧ 0xC0 <= byte_at (utf8_bytes u) 0 < 0xF0
     ∧ (0xE0 <= byte_at (utf8_bytes u) 0 → length (utf8_bytes u) = 3%nat)
     ∧ ∀ o, (1 ≤ o < length (utf8_bytes u))%nat →
            0x80 <= byte_at (utf8_bytes u) o < 0xC0).
Proof.
  intros Hu. pose proof Hu as [Hu0 Hu1].
  destruct (utf8_bytes_cases u Hu) as [[H ->]|[[H ->]|[H ->]]]; [left|right..];
    cbn [length]; rewrite ?byte_at_cons_0.
  - split; [reflexivity|lia].
  - split; [lia|]. split; [arith|]. split; [intros; exfalso; arith|].
    intros o Ho. assert (o = 1%nat) as -> by lia.
    rewrite byte_at_cons_S, byte_at_cons_0. arith.
  - split; [lia|]. split; [arith|]. split; [reflexivity|].
    intros o Ho. assert (o = 1%nat ∨ o = 2%nat) as [-> | ->] by lia;
      rewrite ?byte_at_cons_S, byte_at_cons_0; arith.
Qed.

Lemma truncate_scan_first_byte (buffer : list Z) (index : nat) :
  Forall is_byte buffer →
  (0 < index < length buffer)%nat →
  byte_at buffer index = 0xED →
  ¬ ((3 ≤ index)%nat ∧ byte_at buffer (index - 3) = 0xED
     ∧ 0xA0 <= byte_at buffer (index - 2) <= 0xAF) →
  UTF8.truncate_to_legal_utf8_scan buffer index = Ok (<[index := 0]> buffer).
Proof.
  intros Hb Hi H0 Hn. destruct index as [|index']; [lia|].
  cbn [UTF8.truncate_to_legal_utf8_scan].
  rewrite H0. cbn [is_starting_byte Z.leb Z.eqb Z.compare Pos.compare
                   Pos.compare_cont Pos.eqb andb].
  rewrite land_F0_A0_byte by (apply byte_at_is_byte; exact Hb).
  assert ((3 <=? S index')%nat && (byte_at buffer (S index' - 3) =? 237)
          && ((160 <=? byte_at buffer (S index' - 2))
              && (byte_at buffer (S index' - 2) <? 176)) = false) as ->.
  { destruct (Nat.leb_spec 3 (S index')); [|reflexivity].
    destruct (Z.eqb_spec (byte_at buffer (S index' - 3)) 237); [|reflexivity].
    cbn [andb]. apply not_true_is_false. intros Ht. apply Hn.
    repeat split; [assumption..|lia|lia]. }
  cbn [bind]. unfold store. destruct (decide _); [reflexivity|lia].
Qed.

Section CutEncoding.
Variable units rest : list Z.
Variable m : nat.
Hypothesis units_jchar : Forall is_jchar units.
Hypothesis rest_bytes : Forall is_byte rest.
Hypothesis cut : (m ≤ length (utf8_encode units))%nat.

Local Abbreviation cut_buffer := (take m (utf8_encode units) ++ 0 :: rest).

Lemma cut_buffer_length : length cut_buffer = (m + 1 + length rest)%nat.
Proof. rewrite length_app, length_take. simpl. lia. Qed.

Lemma cut_buffer_bytes : Forall is_byte cut_buffer.
Proof.
  apply Forall_app. split.
  - apply Forall_take. now apply utf8_encode_is_byte.
  - constructor; [unfold is_byte; lia|exact rest_bytes].
Qed.

Lemma cut_buffer_at (k : nat) :
  (k < m)%nat → byte_at cut_buffer k = byte_at (utf8_encode units) k.
Proof.
  intros Hk. rewrite byte_at_app_l by (rewrite length_take; lia).
  unfold byte_at. now rewrite lookup_take_lt.
Qed.

Lemma cut_buffer_nul : byte_at cut_buffer m = 0.
Proof.
  replace m with (length (take m (utf8_encode units))) at 2
    by (rewrite length_take; lia).
  now rewrite byte_at_app_r0.
Qed.

(** NUL stored at the first byte of a unit leaves the bytes of the units
    before it, then NUL. *)
Lemma cut_buffer_store (kept dropped : list Z) :
  units = kept ++ dropped →
  (length (utf8_encode kept) ≤ m)%nat →
  ∃ tail, <[length (utf8_encode kept) := 0]> cut_buffer = utf8_encode kept ++ 0 :: tail
          ∧ Forall is_byte tail.
Proof.
  intros E Hk. set (j := length (utf8_encode kept)) in *.
  assert (take j cut_buffer = utf8_encode kept) as Et.
  { rewrite take_app_le by (rewrite length_take; lia).
    rewrite take_take. replace (j `min` m)%nat with j by lia.
    rewrite E, utf8_encode_app. subst j. now rewrite take_app_length. }
  pose proof cut_buffer_length as Hl.
  destruct (lookup_lt_is_Some_2 cut_buffer j ltac:(lia)) as [x Hx].
  exists (drop (S j) cut_buffer). split.
  - rewrite <- (take_drop_middle cut_buffer j x Hx) at 1. rewrite Et.
    replace j with (length (utf8_encode kept) + 0)%nat at 1 by (subst j; lia).
    now rewrite insert_app_r.
  - apply Forall_is_byte_drop, cut_buffer_bytes.
Qed.

Lemma cut_buffer_insert_nul : <[m := 0]> cut_buffer = cut_buffer.
Proof.
  apply list_insert_id.
  rewrite lookup_app_r by (rewrite length_take; lia).
  rewrite length_take. now replace (m - m `min` length (utf8_encode units))%nat with 0%nat by lia.
Qed.

(** The store of [truncate_to_legal_utf8] falls on the first byte of a
    unit. *)
Lemma truncate_cut_buffer :
  (5 ≤ m)%nat →
  ∃ kept dropped,
    units = kept ++ dropped
    ∧ (m - 6 ≤ length (utf8_encode kept) ≤ m)%nat
    ∧ UTF8.truncate_to_legal_utf8 cut_buffer (m + 1)
      = Ok (<[length (utf8_encode kept) := 0]> cut_buffer).
Proof.
  intros Hm5.
  destruct (encode_position units (m - 1) ltac:(lia)) as (us1 & u & us2 & o & E & Ei & Ho).
  assert (is_jchar u) as Hu.
  { pose proof units_jchar as H. rewrite E in H.
    apply Forall_app in H as [_ H]. now inversion H. }
  assert (Forall is_jchar us1) as Hus1.
  { pose proof units_jchar as H. rewrite E in H. now apply Forall_app in H as [H _]. }
  set (s := length (utf8_encode us1)) in *.
  assert (∀ o', (o' < length (utf8_bytes u))%nat → (s + o' < m)%nat →
                byte_at cut_buffer (s + o') = byte_at (utf8_bytes u) o') as Hat.
  { intros o' Ho' Hlt. rewrite cut_buffer_at by exact Hlt.
    rewrite E. now apply encode_byte_at. }
  pose proof cut_buffer_length as Hlen.
  pose proof cut_buffer_nul as Hnul.
  destruct (utf8_bytes_shape u Hu) as [[L A]|(L & A0 & A3 & Ac)].
  - (* the last byte is an ASCII character *)
    assert (o = 0%nat) as -> by lia.
    exists (us1 ++ [u]), us2.
    assert (length (utf8_encode (us1 ++ [u])) = m) as El.
    { rewrite utf8_encode_app, length_app. change (utf8_encode [u]) with (utf8_bytes u ++ []).
      rewrite app_nil_r. fold s. lia. }
    split; [now rewrite <- app_assoc|]. split; [lia|].
    rewrite El, cut_buffer_insert_nul.
    unfold UTF8.truncate_to_legal_utf8. rewrite nat_ltb_true by lia.
    replace (m + 1 - 1)%nat with m by lia. rewrite Hnul.
    replace (m + 1 - 2)%nat with (s + 0)%nat by lia.
    rewrite Hat by lia. cbn [c_assert bind Z.eqb].
    now replace (byte_at (utf8_bytes u) 0 <? 128) with true by lia.
  - (* the last byte lies in a multi-byte sequence that starts at [s] *)
    assert (byte_at cut_buffer s = byte_at (utf8_bytes u) 0) as Hs
      by (rewrite <- (Hat 0%nat) by lia; f_equal; lia).
    assert (∀ k, (s < k ≤ m - 1)%nat → 0x80 <= byte_at cut_buffer k < 0xC0) as Hcont.
    { intros k Hk. replace k with (s + (k - s))%nat by lia.
      rewrite Hat by lia. apply Ac. lia. }
    assert (UTF8.truncate_to_legal_utf8 cut_buffer (m + 1)
            = UTF8.truncate_to_legal_utf8_scan cut_buffer s) as Escan.
    { rewrite truncate_to_legal_utf8_scans.
      - apply truncate_scan_skip; [lia|]. intros k Hk.
        specialize (Hcont k ltac:(lia)). unfold is_starting_byte. lia.
      - lia.
      - now replace (m + 1 - 1)%nat with m by lia.
      - replace (m + 1 - 2)%nat with (m - 1)%nat by lia.
        destruct (decide (o = 0%nat)) as [->|Hne].
        + replace (m - 1)%nat with s by lia. rewrite Hs. lia.
        + specialize (Hcont (m - 1)%nat ltac:(lia)). lia. }
    rewrite Escan.
    destruct (decide (byte_at cut_buffer s = 0xED)) as [Hed|Hed].
    2:{ exists us1, (u :: us2). split; [exact E|]. split; [fold s; lia|].
        fold s. apply truncate_scan_plain; [lia| |exact Hed].
        unfold is_starting_byte. rewrite Hs. lia. }
    destruct (decide ((3 ≤ s)%nat ∧ byte_at cut_buffer (s - 3) = 0xED
                      ∧ 0xA0 <= byte_at cut_buffer (s - 2) <= 0xAF))
      as [(H3 & Hp3 & Hp2)|Hno].
    2:{ exists us1, (u :: us2). split; [exact E|]. split; [fold s; lia|].
        fold s. apply truncate_scan_first_byte;
          [apply cut_buffer_bytes|lia|exact Hed|exact Hno]. }
    (* the fourth byte of a surrogate pair *)
    destruct (encode_position us1 (s - 3) ltac:(fold s; lia))
      as (va & w & vb & o' & E1 & Ei1 & Ho').
    assert (is_jchar w) as Hw.
    { rewrite E1 in Hus1. apply Forall_app in Hus1 as [_ H]. now inversion H. }
    assert (∀ q, (q < length (utf8_bytes w))%nat →
                 (length (utf8_encode va) + q < s)%nat →
                 byte_at cut_buffer (length (utf8_encode va) + q)
                 = byte_at (utf8_bytes w) q) as Hat1.
    { intros q Hq Hlt. rewrite cut_buffer_at by lia.
      rewrite E, E1, <- app_assoc. cbn [app]. now apply encode_byte_at. }
    assert (length (utf8_encode us1)
            = (length (utf8_encode va) + length (utf8_bytes w)
               + length (utf8_encode vb))%nat) as Esum.
    { rewrite E1, utf8_encode_app, utf8_encode_cons, !length_app. lia. }
    fold s in Esum.
    assert (byte_at (utf8_bytes w) o' = 0xED) as Hlead.
    { rewrite <- Hat1 by lia. rewrite <- Ei1. exact Hp3. }
    destruct (utf8_bytes_shape w Hw) as [[Lw Aw]|(Lw & Aw0 & Aw3 & Awc)].
    { assert (o' = 0%nat) as -> by lia. lia. }
    assert (o' = 0%nat) as ->.
    { destruct (decide (o' = 0%nat)) as [|Hne]; [assumption|].
      specialize (Awc o' ltac:(lia)). lia. }
    specialize (Aw3 ltac:(lia)).
    exists va, (w :: vb ++ u :: us2).
    split; [rewrite E, E1, <- app_assoc; reflexivity|]. split; [lia|].
    replace (length (utf8_encode va)) with (s - 3)%nat by lia.
    apply truncate_scan_fourth_byte; [lia|exact Hed|exact Hp3|exact Hp2|].
    replace (s - 1)%nat with (length (utf8_encode va) + 2)%nat by lia.
    rewrite Hat1 by lia. specialize (Awc 2%nat ltac:(lia)). lia.
Qed.

End CutEncoding.

(** X15: [UTF8::truncate_to_legal_utf8] repairs a cut through the output of
    the encoder.  When the bytes [utf8_write] produces for [jchar] units are
    cut after [m >= 5] bytes and NUL is put behind them, the call returns a
    buffer of the same length that holds the bytes of a prefix of the units
    and then NUL: a C string that is at most [m] and at least [m - 6] bytes
    long and that [UTF8::is_legal_utf8] accepts in both modes. *)
Theorem truncate_to_legal_utf8_cut_encoding (units rest : list Z) (m : nat)
    (version_leq_47 : bool) :
  Forall is_jchar units → Forall is_byte rest →
  (5 ≤ m ≤ length (utf8_encode units))%nat →
  ∃ kept dropped tail,
    units = kept ++ dropped
    ∧ UTF8.truncate_to_legal_utf8 (take m (utf8_encode units) ++ 0 :: rest) (m + 1)
      = Ok (utf8_encode kept ++ 0 :: tail)
    ∧ length (utf8_encode kept ++ 0 :: tail) = (m + 1 + length rest)%nat
    ∧ (m - 6 ≤ length (utf8_encode kept) ≤ m)%nat
    ∧ strlen (utf8_encode kept ++ 0 :: tail) = length (utf8_encode kept)
    ∧ UTF8.is_legal_utf8 (utf8_encode kept ++ 0 :: tail) (length (utf8_encode kept))
        version_leq_47 = true.
Proof.
  intros Hu Hr [Hm5 Hm].
  destruct (truncate_cut_buffer units rest m Hu Hr Hm Hm5)
    as (kept & dropped & E & Hk & Ht).
  destruct (cut_buffer_store units rest m Hu Hr Hm kept dropped E ltac:(lia))
    as (tail & Ei & Htail).
  assert (Forall is_jchar kept) as Hkept
    by (rewrite E in Hu; now apply Forall_app in Hu as [H _]).
  exists kept, dropped, tail. rewrite Ei in Ht.
  split; [exact E|]. split; [exact Ht|]. split; [|split; [exact Hk|split]].
  - rewrite <- Ei, length_insert. now apply cut_buffer_length.
  - apply strlen_app_nonzero. now apply utf8_encode_nonzero.
  - apply is_legal_utf8_encoded; [exact Hkept|].
    constructor; [unfold is_byte; lia|exact Htail].
Qed.

Lemma truncate_to_legal_utf8_cut_encoding_witness :
  ∃ kept dropped tail,
    [0x41; 0x42; 0xD83D; 0xDE00; 0x43] = kept ++ dropped
    ∧ UTF8.truncate_to_legal_utf8
        (take 7 (utf8_encode [0x41; 0x42; 0xD83D; 0xDE00; 0x43]) ++ 0 :: [0xAA]) (7 + 1)
      = Ok (utf8_encode kept ++ 0 :: tail)
    ∧ length (utf8_encode kept ++ 0 :: tail) = (7 + 1 + length [0xAA])%nat
    ∧ (7 - 6 ≤ length (utf8_encode kept) ≤ 7)%nat
    ∧ strlen (utf8_encode kept ++ 0 :: tail) = length (utf8_encode kept)
    ∧ UTF8.is_legal_utf8 (utf8_encode kept ++ 0 :: tail) (length (utf8_encode kept))
        false = true.
Proof.
  apply (truncate_to_legal_utf8_cut_encoding [0x41; 0x42; 0xD83D; 0xDE00; 0x43]
           [0xAA] 7 false).
  - repeat constructor; lia.
  - repeat constructor; lia.
  - vm_compute. lia.
Defined.

Example truncate_cut_surrogate_pair :
  UTF8.truncate_to_legal_utf8
    (take 7 (utf8_encode [0x41; 0x42; 0xD83D; 0xDE00; 0x43]) ++ 0 :: [0xAA]) 8
  = Ok [0x41; 0x42; 0x00; 0xA0; 0xBD; 0xED; 0xB8; 0x00; 0xAA].
Proof. reflexivity. Qed.

(** ** [UTF8::as_quoted_ascii] on a C string *)

Lemma utf8_as_quoted_ascii_loop_frame (utf8_str : list Z) (utf8_end : nat) :
  ∀ n ptr pre x tl room,
    (utf8_end - ptr ≤ n)%nat →
    (0 < room ≤ S (length tl))%nat →
    ∃ q, Forall (λ b, 32 <= b < 127) q
         ∧ (length q < room)%nat
         ∧ (w <- UTF8.as_quoted_ascii_loop utf8_str utf8_end ptr (pre ++ x :: tl)
                   (length pre) (length pre + room);;
            _ <- c_assert (snd w <? length pre + room)%nat;;
            store (fst w) (snd w) 0)
           = Ok (pre ++ q ++ 0 :: drop (length q) tl).
Proof.
  assert (∀ pre x tl room, (0 < room)%nat →
            (_ <- c_assert (length pre <? length pre + room)%nat;;
             store (pre ++ x :: tl) (length pre) 0)
            = Ok (pre ++ [] ++ 0 :: drop (length (@nil Z)) tl)) as Hstop.
  { intros pre x tl room Hr. rewrite nat_ltb_true by lia. cbn [c_assert bind].
    now rewrite store_at. }
  induction n as [|n IH]; intros ptr pre x tl room Hn Hroom.
  - exists []. split; [constructor|]. split; [simpl; lia|].
    rewrite utf8_as_quoted_ascii_done by lia. cbn [bind fst snd].
    apply Hstop. lia.
  - destruct (decide (ptr < utf8_end)%nat) as [Hlt|Hge].
    2:{ exists []. split; [constructor|]. split; [simpl; lia|].
        rewrite utf8_as_quoted_ascii_done by lia. cbn [bind fst snd].
        apply Hstop. lia. }
    rewrite utf8_as_quoted_ascii_turn by exact Hlt.
    pose proof (next_progress jchar (drop ptr utf8_str)) as Hprog.
    assert (utf8_end - UTF8.next_ptr utf8_str ptr ≤ n)%nat as Hn'
      by (unfold UTF8.next_ptr; lia).
    set (c := UTF8.next_c utf8_str ptr).
    pose proof (quoted_printable c) as Hq. pose proof (quoted_length c) as Hql.
    destruct ((32 <=? c) && (c <? 127)) eqn:E.
    + assert (quoted c = [char c]) as Q by (unfold quoted; now rewrite E).
      destruct (Nat.leb_spec room 1) as [Hle|Hgt].
      * exists []. split; [constructor|]. split; [simpl; lia|].
        replace (length pre + room <=? length pre + 1)%nat with true
          by (symmetry; apply Nat.leb_le; lia).
        cbn [bind fst snd]. apply Hstop. lia.
      * replace (length pre + room <=? length pre + 1)%nat with false
          by (symmetry; apply Nat.leb_gt; lia).
        destruct tl as [|y tl]; [simpl in Hroom; lia|].
        rewrite store_at by reflexivity. cbn [bind].
        destruct (IH (UTF8.next_ptr utf8_str ptr) (pre ++ [char c]) y tl (room - 1)%nat
                    Hn' ltac:(simpl in Hroom; lia)) as (q & Hp & Hl & Hr).
        exists (quoted c ++ q). split; [now apply Forall_app|].
        split; [rewrite length_app, Hql; lia|].
        replace (length pre + 1)%nat with (length (pre ++ [char c]))
          by (rewrite length_app; reflexivity).
        replace (length pre + room)%nat with (length (pre ++ [char c]) + (room - 1))%nat
          by (rewrite length_app; simpl; lia).
        rewrite (cons_middle (char c) pre), (app_assoc pre), Hr.
        rewrite Q, length_app, <- !app_assoc. reflexivity.
    + assert (quoted c = [92; 117; hex_digit (Z.shiftr c 12 mod 16);
                          hex_digit (Z.shiftr c 8 mod 16);
                          hex_digit (Z.shiftr c 4 mod 16); hex_digit (c mod 16)]) as Q
        by (unfold quoted; now rewrite E).
      destruct (Nat.leb_spec room 6) as [Hle|Hgt].
      * exists []. split; [constructor|]. split; [simpl; lia|].
        replace (length pre + room <=? length pre + 6)%nat with true
          by (symmetry; apply Nat.leb_le; lia).
        cbn [bind fst snd]. apply Hstop. lia.
      * replace (length pre + room <=? length pre + 6)%nat with false
          by (symmetry; apply Nat.leb_gt; lia).
        destruct tl as [|t1 [|t2 [|t3 [|t4 [|t5 [|t6 tl]]]]]]; simpl in Hroom; try lia.
        rewrite snprintf_u04x_at, <- Q. cbn [bind].
        destruct (IH (UTF8.next_ptr utf8_str ptr) (pre ++ quoted c) 0 tl (room - 6)%nat
                    Hn' ltac:(lia)) as (q & Hp & Hl & Hr).
        exists (quoted c ++ q). split; [now apply Forall_app|].
        split; [rewrite length_app, Hql; lia|].
        replace (length pre + 6)%nat with (length (pre ++ quoted c))
          by (rewrite length_app, Q; reflexivity).
        replace (length pre + room)%nat with (length (pre ++ quoted c) + (room - 6))%nat
          by (rewrite length_app, Q; simpl; lia).
        rewrite (app_assoc pre), Hr.
        rewrite length_app, <- !app_assoc. rewrite Q at 3. reflexivity.
Qed.

Lemma strlen_nul (str : list Z) : byte_at str (strlen str) = 0.
Proof.
  induction str as [|c str IH]; [reflexivity|]. simpl.
  destruct (Z.eqb_spec c 0) as [->|_]; [reflexivity|].
  now rewrite byte_at_cons_S.
Qed.

(** [UTF8::next] at a byte of a C string reads nothing behind the
    terminator: the byte after a lead byte is read, the byte after that only
    when the first was a continuation byte, hence not the NUL. *)
Lemma next_within_string (T : Z → Z) (str other : list Z) (ptr : nat) :
  (ptr < strlen str)%nat →
  (∀ k, (k ≤ strlen str)%nat → byte_at other k = byte_at str k) →
  UTF8.next T (drop ptr other) = UTF8.next T (drop ptr str).
Proof.
  intros Hptr Hsame. pose proof (strlen_nul str) as Hnul.
  unfold UTF8.next, UTF8.next_switch. rewrite !byte_at_drop.
  rewrite (Hsame (ptr + 0)%nat) by lia. rewrite (Hsame (ptr + 1)%nat) by lia.
  destruct (decide (ptr + 2 ≤ strlen str)%nat) as [H2|H2].
  - now rewrite (Hsame (ptr + 2)%nat) by lia.
  - replace (ptr + 1)%nat with (strlen str) by lia. rewrite Hnul. reflexivity.
Qed.

Lemma utf8_as_quoted_ascii_loop_within (str other : list Z) (utf8_end : nat) :
  (utf8_end ≤ strlen str)%nat →
  (∀ k, (k ≤ strlen str)%nat → byte_at other k = byte_at str k) →
  ∀ n ptr mem p end_,
    (utf8_end - ptr ≤ n)%nat →
    UTF8.as_quoted_ascii_loop other utf8_end ptr mem p end_
    = UTF8.as_quoted_ascii_loop str utf8_end ptr mem p end_.
Proof.
  intros Hend Hsame. induction n as [|n IH]; intros ptr mem p end_ Hn.
  - now rewrite !utf8_as_quoted_ascii_done by lia.
  - destruct (decide (ptr < utf8_end)%nat) as [Hlt|Hge];
      [|now rewrite !utf8_as_quoted_ascii_done by lia].
    rewrite !utf8_as_quoted_ascii_turn by exact Hlt.
    unfold UTF8.next_c, UTF8.next_ptr.
    rewrite (next_within_string jchar str other ptr) by (try exact Hsame; lia).
    pose proof (next_progress jchar (drop ptr str)) as Hprog.
    repeat case_match; try reflexivity.
    + destruct (store mem p _); [cbn [bind]; apply IH; lia|reflexivity].
    + destruct (snprintf_u04x mem p _); [cbn [bind]; apply IH; lia|reflexivity].
Qed.

(** X16: [UTF8::as_quoted_ascii] on a NUL-terminated string of which it is
    given at most [strlen] bytes to convert, with a capacity [0 < buflen]
    inside the buffer.  What the call does is fixed by the bytes of the
    string up to and including its terminating NUL: it is the same for every
    memory that holds these bytes, whatever lies behind them.  The call passes
    its assertion, changes nothing from index [buflen] on, and leaves fewer
    than [buflen] characters, all in 32..126, followed by NUL. *)
Theorem utf8_as_quoted_ascii_c_string (utf8_str buf : list Z)
    (utf8_length buflen : nat) :
  (utf8_length ≤ strlen utf8_str)%nat →
  (0 < buflen ≤ length buf)%nat →
  (∀ other,
     (∀ k, (k ≤ strlen utf8_str)%nat → byte_at other k = byte_at utf8_str k) →
     UTF8.as_quoted_ascii other utf8_length buf buflen
     = UTF8.as_quoted_ascii utf8_str utf8_length buf buflen)
  ∧ ∃ buf',
      UTF8.as_quoted_ascii utf8_str utf8_length buf buflen = Ok buf'
      ∧ length buf' = length buf
      ∧ (strlen buf' < buflen)%nat
      ∧ Forall (λ b, 32 <= b < 127) (take (strlen buf') buf')
      ∧ ∀ j, (buflen ≤ j)%nat → buf' !! j = buf !! j.
Proof.
  intros Hlen Hcap. split.
  { intros other Hsame. unfold UTF8.as_quoted_ascii.
    now rewrite (utf8_as_quoted_ascii_loop_within utf8_str other utf8_length Hlen
                   Hsame utf8_length 0%nat) by lia. }
  destruct buf as [|x tl]; [simpl in Hcap; lia|].
  destruct (utf8_as_quoted_ascii_loop_frame utf8_str utf8_length utf8_length 0%nat
              [] x tl buflen ltac:(lia) ltac:(simpl in Hcap; lia))
    as (q & Hp & Hl & Hr).
  cbn [app length Nat.add] in Hr.
  exists (q ++ 0 :: drop (length q) tl).
  assert (strlen (q ++ 0 :: drop (length q) tl) = length q) as Es.
  { apply strlen_app_nonzero. revert Hp. apply Forall_impl. intros b Hb. lia. }
  split; [exact Hr|]. rewrite Es. simpl in Hcap.
  split; [|split; [exact Hl|split]].
  - rewrite length_app. cbn [length]. rewrite length_drop. lia.
  - now rewrite take_app_length.
  - intros j Hj.
    rewrite (cons_middle 0), app_assoc, lookup_app_r by (rewrite length_app; simpl; lia).
    rewrite lookup_drop, length_app. cbn [length].
    replace (length q + (j - (length q + 1)))%nat with (j - 1)%nat by lia.
    destruct j as [|j]; [lia|]. cbn [lookup]. simpl. now rewrite Nat.sub_0_r.
Qed.

Lemma utf8_as_quoted_ascii_c_string_witness :
  (∀ other,
     (∀ k, (k ≤ strlen [0x41; 0xFF; 0xE2; 0x82; 0x09; 0xE2; 0; 0x55]%Z)%nat →
           byte_at other k = byte_at [0x41; 0xFF; 0xE2; 0x82; 0x09; 0xE2; 0; 0x55] k) →
     UTF8.as_quoted_ascii other 6 (repeat 7 40) 38
     = UTF8.as_quoted_ascii [0x41; 0xFF; 0xE2; 0x82; 0x09; 0xE2; 0; 0x55] 6
         (repeat 7 40) 38)
  ∧ ∃ buf',
      UTF8.as_quoted_ascii [0x41; 0xFF; 0xE2; 0x82; 0x09; 0xE2; 0; 0x55] 6
        (repeat 7 40) 38 = Ok buf'
      ∧ length buf' = length (repeat 7 40)
      ∧ (strlen buf' < 38)%nat
      ∧ Forall (λ b, 32 <= b < 127) (take (strlen buf') buf')
      ∧ ∀ j, (38 ≤ j)%nat → buf' !! j = repeat 7 40 !! j.
Proof.
  apply (utf8_as_quoted_ascii_c_string [0x41; 0xFF; 0xE2; 0x82; 0x09; 0xE2; 0; 0x55]
           (repeat 7 40) 6 38).
  - vm_compute. lia.
  - simpl. lia.
Defined.

Example utf8_as_quoted_ascii_lead_before_nul :
  UTF8.as_quoted_ascii [0x41; 0xE2; 0; 0x82; 0xAC] 2 (repeat 7 10) 10
  = Ok [0x41; 92; 117; 48; 48; 101; 50; 0; 7; 7].
Proof. reflexivity. Qed.

(** ** The two overloads of [as_utf8] *)

Lemma jbyte_as_unsigned (c : Z) :
  is_jbyte c →
  (1 <= c ∧ Z.land c 0xff = c ∧ UNICODE.utf8_size_jbyte c = 1%nat
   ∧ UNICODE.utf8_size c = 1%nat)
  ∨ (c <= 0 ∧ Z.land (jchar c) 0xff = Z.land c 0xff
     ∧ UNICODE.utf8_size_jbyte c = 2%nat
     ∧ UNICODE.utf8_size (Z.land c 0xff) = 2%nat).
Proof.
  intros [H0 H1]. rewrite !land_FF. unfold jchar.
  unfold UNICODE.utf8_size_jbyte, UNICODE.utf8_size.
  destruct (Z.leb_spec 1 c); [left|right].
  - rewrite Z.mod_small by lia.
    repeat split; try lia; repeat case_match; lia.
  - assert (c mod 256 = 0 ∨ 128 <= c mod 256 < 256) by arith.
    repeat split; try lia; [arith|repeat case_match; lia..].
Qed.

Lemma as_utf8_jbyte_loop_as_unsigned (units : list Z) :
  Forall is_jbyte units →
  ∀ done extra done' extra' mem p buflen,
    length done = length done' →
    UNICODE.as_utf8_jbyte_loop (done ++ units ++ extra) (length units) (length done)
      mem p buflen
    = UNICODE.as_utf8_loop (done' ++ map (λ c, Z.land c 0xff) units ++ extra')
        (length units) (length done) mem p buflen.
Proof.
  induction 1 as [|c units Hc _ IH]; intros done extra done' extra' mem p buflen Hd;
    [reflexivity|].
  cbn [length UNICODE.as_utf8_jbyte_loop UNICODE.as_utf8_loop map app]. cbv zeta.
  assert (∀ x rest, unit_at (done' ++ x :: rest) (length done) = x) as Hat
    by (intros; rewrite Hd; apply unit_at_middle).
  rewrite unit_at_middle, Hat.
  replace (length done + 1)%nat with (length (done ++ [c]))
    by (rewrite length_app; reflexivity).
  rewrite (cons_middle c done), (app_assoc done).
  rewrite (cons_middle (Z.land c 255) done'), (app_assoc done').
  specialize (IH (done ++ [c]) extra (done' ++ [Z.land c 255]) extra').
  destruct (jbyte_as_unsigned c Hc) as [(H1 & E & S1 & S2)|(H1 & E & S1 & S2)].
  - rewrite E in IH |- *. rewrite S1, S2. destruct (buflen <=? 1)%nat; [reflexivity|].
    cbn [Nat.eqb]. unfold utf8_write. destruct Hc as [_ Hc].
    destruct (Z.eqb_spec c 0); [lia|]. cbn [negb andb].
    replace (c <=? 127) with true by lia.
    destruct (store mem p (u_char c)); cbn [bind fst snd]; [|reflexivity].
    apply IH. rewrite !length_app. simpl. lia.
  - rewrite S1, S2, E. destruct (buflen <=? 2)%nat; [reflexivity|].
    cbn [Nat.eqb c_assert bind].
    destruct (utf8_write mem p (Z.land c 255)); cbn [bind]; [|reflexivity].
    apply IH. rewrite !length_app. simpl. lia.
Qed.

(** X17: the [jbyte] overload of [UNICODE::as_utf8] does to the buffer what
    the [jchar] overload does on the unsigned values [c & 0xff] of the bytes,
    and the two overloads of [utf8_length] agree in the same way. *)
Theorem as_utf8_jbyte_as_unsigned (units buf : list Z) (buflen : nat) :
  Forall is_jbyte units →
  UNICODE.as_utf8_jbyte units (length units) buf buflen
  = UNICODE.as_utf8 (map (λ c, Z.land c 0xff) units) (length units) buf buflen
  ∧ UNICODE.utf8_length_jbyte units (length units)
    = UNICODE.utf8_length (map (λ c, Z.land c 0xff) units) (length units).
Proof.
  intros Hu. split.
  - unfold UNICODE.as_utf8_jbyte, UNICODE.as_utf8.
    pose proof (as_utf8_jbyte_loop_as_unsigned units Hu [] [] [] [] buf 0%nat buflen
                  eq_refl) as H.
    simpl in H. rewrite !app_nil_r in H. now rewrite H.
  - unfold UNICODE.utf8_length_jbyte, UNICODE.utf8_length.
    enough (∀ done done' acc, length done = length done' →
              UNICODE.utf8_length_loop UNICODE.utf8_size_jbyte (done ++ units)
                (length units) (length done) acc
              = UNICODE.utf8_length_loop UNICODE.utf8_size
                  (done' ++ map (λ c, Z.land c 0xff) units)
                  (length units) (length done) acc) as G
      by (apply (G [] [] 0%nat); reflexivity).
    induction Hu as [|c units Hc _ IH]; intros done done' acc Hd; [reflexivity|].
    cbn [length UNICODE.utf8_length_loop map].
    assert (∀ x rest, unit_at (done' ++ x :: rest) (length done) = x) as Hat
      by (intros; rewrite Hd; apply unit_at_middle).
    rewrite unit_at_middle, Hat.
    replace (length done + 1)%nat with (length (done ++ [c]))
      by (rewrite length_app; reflexivity).
    rewrite (cons_middle c done), (app_assoc done).
    rewrite (cons_middle (Z.land c 255) done'), (app_assoc done').
    replace (UNICODE.utf8_size (Z.land c 255)) with (UNICODE.utf8_size_jbyte c).
    + apply IH. rewrite !length_app. simpl. lia.
    + destruct (jbyte_as_unsigned c Hc) as [(H1 & E & S1 & S2)|(H1 & E & S1 & S2)];
        rewrite ?E; congruence.
Qed.

Lemma as_utf8_jbyte_as_unsigned_witness :
  UNICODE.as_utf8_jbyte [0x41; -23; 0; -128; 127] 5 (repeat 7 6) 6
  = UNICODE.as_utf8 (map (λ c, Z.land c 0xff) [0x41; -23; 0; -128; 127]) 5 (repeat 7 6) 6
  ∧ UNICODE.utf8_length_jbyte [0x41; -23; 0; -128; 127] 5
    = UNICODE.utf8_length (map (λ c, Z.land c 0xff) [0x41; -23; 0; -128; 127]) 5.
Proof.
  apply (as_utf8_jbyte_as_unsigned [0x41; -23; 0; -128; 127] (repeat 7 6) 6).
  repeat constructor; lia.
Defined.

(** ** The room [convert_to_utf8] needs *)

Lemma store_outside (mem : list Z) (i : nat) (v : Z) :
  (length mem ≤ i)%nat → store mem i v = Stop OutOfBounds.
Proof. intros H. unfold store. destruct (decide _); [lia|reflexivity]. Qed.

Lemma utf8_write_no_room (pre old : list Z) (ch : Z) :
  (length old < length (utf8_bytes ch))%nat →
  utf8_write (pre ++ old) (length pre) ch = Stop OutOfBounds.
Proof.
  unfold utf8_write, utf8_bytes.
  destruct (negb (ch =? 0) && (ch <=? 0x7f)); [|destruct (ch <=? 0x7FF)];
    cbn [length]; intros Hlen.
  - destruct old; [|simpl in Hlen; lia].
    now rewrite store_outside by (rewrite length_app; simpl; lia).
  - destruct old as [|a [|]]; [| |simpl in Hlen; lia].
    + now rewrite store_outside by (rewrite length_app; simpl; lia).
    + rewrite store_at by reflexivity. cbn [bind].
      now rewrite store_outside by (rewrite length_app; simpl; lia).
  - destruct old as [|a [|b [|]]]; [| | |simpl in Hlen; lia].
    + now rewrite store_outside by (rewrite length_app; simpl; lia).
    + rewrite store_at by reflexivity. cbn [bind].
      now rewrite store_outside by (rewrite length_app; simpl; lia).
    + rewrite store_at by reflexivity. cbn [bind].
      rewrite store_at_1. cbn [bind].
      now rewrite store_outside by (rewrite length_app; simpl; lia).
Qed.

Lemma convert_to_utf8_no_room (units : list Z) :
  ∀ done extra pre old,
    (length old ≤ length (utf8_encode units))%nat →
    (w <- UNICODE.convert_to_utf8_loop (done ++ units ++ extra) (length units)
            (length done) (pre ++ old) (length pre);;
     store (fst w) (snd w) 0)
    = Stop OutOfBounds.
Proof.
  induction units as [|u units IH]; intros done extra pre old Hlen.
  - destruct old; [|simpl in Hlen; lia]. simpl.
    apply store_outside. rewrite length_app. simpl. lia.
  - rewrite utf8_encode_cons, length_app in Hlen.
    cbn [length UNICODE.convert_to_utf8_loop app]. rewrite unit_at_middle.
    destruct (decide (length old < length (utf8_bytes u))%nat) as [Hs|Hs].
    + now rewrite utf8_write_no_room.
    + rewrite <- (take_drop (length (utf8_bytes u)) old).
      rewrite utf8_write_at by (rewrite length_take; lia).
      cbn [bind fst snd].
      replace (length done + 1)%nat with (length (done ++ [u]))
        by (rewrite length_app; reflexivity).
      replace (length pre + length (utf8_bytes u))%nat with (length (pre ++ utf8_bytes u))
        by (rewrite length_app; reflexivity).
      rewrite (app_assoc pre), (cons_middle u done), (app_assoc done).
      apply IH. rewrite length_drop. lia.
Qed.

(** X18: [UNICODE::convert_to_utf8] takes no capacity: on [jchar] units it
    returns exactly when the buffer holds more than [utf8_length] bytes, and
    a smaller buffer is overrun.  When it returns, the buffer has its length,
    is a C string of [strlen] equal to [utf8_length], with no NUL inside even
    when a unit is 0, and is unchanged behind the NUL written. *)
Theorem convert_to_utf8_room (units mem : list Z) :
  Forall is_jchar units →
  ((length mem ≤ UNICODE.utf8_length units (length units))%nat →
   UNICODE.convert_to_utf8 units (length units) mem = Stop OutOfBounds)
  ∧ ((UNICODE.utf8_length units (length units) < length mem)%nat →
     ∃ mem',
       UNICODE.convert_to_utf8 units (length units) mem = Ok mem'
       ∧ length mem' = length mem
       ∧ strlen mem' = UNICODE.utf8_length units (length units)
       ∧ ∀ j, (UNICODE.utf8_length units (length units) < j)%nat →
              mem' !! j = mem !! j).
Proof.
  intros Hu. rewrite utf8_length_spec by exact Hu. split.
  - intros Hsmall. unfold UNICODE.convert_to_utf8.
    pose proof (convert_to_utf8_no_room units [] [] [] mem Hsmall) as H.
    simpl in H. rewrite app_nil_r in H. exact H.
  - intros Hroom. eexists. split; [now apply convert_to_utf8_spec|].
    split; [|split].
    + rewrite length_app. cbn [length]. rewrite length_drop. lia.
    + apply strlen_app_nonzero. now apply utf8_encode_nonzero.
    + intros j Hj.
      rewrite (cons_middle 0), app_assoc, lookup_app_r
        by (rewrite length_app; simpl; lia).
      rewrite lookup_drop, length_app. f_equal. simpl. lia.
Qed.

Lemma convert_to_utf8_room_witness :
  UNICODE.convert_to_utf8 [0x41; 0; 0x20AC] 3 [7; 7; 7; 7; 7; 7] = Stop OutOfBounds
  ∧ ∃ mem',
      UNICODE.convert_to_utf8 [0x41; 0; 0x20AC] 3 [7; 7; 7; 7; 7; 7; 7; 7] = Ok mem'
      ∧ length mem' = length [7; 7; 7; 7; 7; 7; 7; 7]
      ∧ strlen mem' = UNICODE.utf8_length [0x41; 0; 0x20AC] 3
      ∧ ∀ j, (UNICODE.utf8_length [0x41; 0; 0x20AC]%Z 3 < j)%nat →
             mem' !! j = [7; 7; 7; 7; 7; 7; 7; 7] !! j.
Proof.
  split.
  - apply (convert_to_utf8_room [0x41; 0; 0x20AC] [7; 7; 7; 7; 7; 7]).
    + repeat constructor; lia.
    + vm_compute. lia.
  - apply (convert_to_utf8_room [0x41; 0; 0x20AC] [7; 7; 7; 7; 7; 7; 7; 7]).
    + repeat constructor; lia.
    + vm_compute. lia.
Defined.

(** ** The bounded writers leave a legal string at every capacity *)

Lemma as_utf8_output_legal (units buf : list Z) (buflen : nat) (version_leq_47 : bool) :
  Forall is_jchar units → Forall is_byte buf → (0 < buflen ≤ length buf)%nat →
  ∃ written rest buf',
    units = written ++ rest
    ∧ UNICODE.as_utf8 units (length units) buf buflen = Ok buf'
    ∧ take (S (strlen buf')) buf' = utf8_encode written ++ [0]
    ∧ (strlen buf' < buflen)%nat
    ∧ UTF8.is_legal_utf8 buf' (strlen buf') version_leq_47 = true.
Proof.
  intros Hu Hb Hcap.
  destruct (fitting_prefix units Hu buflen) as (rest & Hsplit & _).
  pose proof (fitting_length units Hu buflen ltac:(lia)) as Hlen.
  set (written := fitting units buflen) in *.
  assert (Forall is_jchar written) as Hw
    by (rewrite Hsplit in Hu; now apply Forall_app in Hu as [H _]).
  exists written, rest. eexists.
  split; [exact Hsplit|]. split; [now apply as_utf8_spec|]. fold written.
  rewrite strlen_app_nonzero by now apply utf8_encode_nonzero.
  split; [|split; [exact Hlen|]].
  - rewrite take_app, take_ge by lia.
    replace (S (length (utf8_encode written)) - length (utf8_encode written))%nat
      with 1%nat by lia.
    reflexivity.
  - apply is_legal_utf8_encoded; [exact Hw|].
    constructor; [unfold is_byte; lia|now apply Forall_is_byte_drop].
Qed.

(** X19: what the bounded writers leave passes the validator at every
    capacity.  With a capacity [0 < buflen] inside a buffer of bytes, however
    small, both overloads of [UNICODE::as_utf8] return a C string shorter than
    [buflen] that consists of the bytes [utf8_write] produces for a prefix of
    the units (for [jbyte] units, of their unsigned values [c & 0xff]), so that
    the bytes of a unit are there all or not at all, and
    [UTF8::is_legal_utf8] accepts it in both modes.  The capacity is tested
    unit by unit, also inside a surrogate pair: a high surrogate may be left
    without its low surrogate, as a three-byte sequence. *)
Theorem as_utf8_output_is_legal (units latin1 buf : list Z) (buflen : nat)
    (version_leq_47 : bool) :
  Forall is_jchar units → Forall is_jbyte latin1 →
  Forall is_byte buf → (0 < buflen ≤ length buf)%nat →
  (∃ written rest buf',
     units = written ++ rest
     ∧ UNICODE.as_utf8 units (length units) buf buflen = Ok buf'
     ∧ take (S (strlen buf')) buf' = utf8_encode written ++ [0]
     ∧ (strlen buf' < buflen)%nat
     ∧ UTF8.is_legal_utf8 buf' (strlen buf') version_leq_47 = true)
  ∧ (∃ written rest buf',
       map (λ c, Z.land c 0xff) latin1 = written ++ rest
       ∧ UNICODE.as_utf8_jbyte latin1 (length latin1) buf buflen = Ok buf'
       ∧ take (S (strlen buf')) buf' = utf8_encode written ++ [0]
       ∧ (strlen buf' < buflen)%nat
       ∧ UTF8.is_legal_utf8 buf' (strlen buf') version_leq_47 = true).
Proof.
  intros Hu Hl Hb Hcap. split.
  - now apply as_utf8_output_legal.
  - pose proof (as_utf8_jbyte_loop_as_unsigned latin1 Hl [] [] [] [] buf 0%nat buflen
                  eq_refl) as H.
    simpl in H. rewrite !app_nil_r in H.
    unfold UNICODE.as_utf8_jbyte. rewrite H.
    rewrite <- (length_map (λ c, Z.land c 0xff) latin1).
    apply as_utf8_output_legal; [|exact Hb|exact Hcap].
    clear - Hl. induction Hl as [|c cs Hc _ IH]; [constructor|].
    simpl. constructor; [|exact IH].
    rewrite land_FF. unfold is_jchar. arith.
Qed.

Lemma as_utf8_output_is_legal_witness :
  (∃ written rest buf',
     [0xD83D; 0xDE00; 0x42] = written ++ rest
     ∧ UNICODE.as_utf8 [0xD83D; 0xDE00; 0x42] 3 (repeat 0xAA 7) 6 = Ok buf'
     ∧ take (S (strlen buf')) buf' = utf8_encode written ++ [0]
     ∧ (strlen buf' < 6)%nat
     ∧ UTF8.is_legal_utf8 buf' (strlen buf') false = true)
  ∧ (∃ written rest buf',
       map (λ c, Z.land c 0xff) [0x41; -23; 0x42] = written ++ rest
       ∧ UNICODE.as_utf8_jbyte [0x41; -23; 0x42] 3 (repeat 0xAA 7) 6 = Ok buf'
       ∧ take (S (strlen buf')) buf' = utf8_encode written ++ [0]
       ∧ (strlen buf' < 6)%nat
       ∧ UTF8.is_legal_utf8 buf' (strlen buf') false = true).
Proof.
  apply (as_utf8_output_is_legal [0xD83D; 0xDE00; 0x42] [0x41; -23; 0x42]
           (repeat 0xAA 7) 6 false).
  - repeat constructor; lia.
  - repeat constructor; lia.
  - repeat constructor; lia.
  - simpl. lia.
Defined.

Example as_utf8_splits_surrogate_pair :
  UNICODE.as_utf8 [0xD83D; 0xDE00] 2 (repeat 0xAA 7) 6
  = Ok [0xED; 0xA0; 0xBD; 0x00; 0xAA; 0xAA; 0xAA]
  ∧ UTF8.is_legal_utf8 [0xED; 0xA0; 0xBD; 0x00; 0xAA; 0xAA; 0xAA] 3 false = true.
Proof. split; reflexivity. Qed.

Example as_utf8_truncates_whole_units :
  UNICODE.as_utf8 [0x41; 0x20AC; 0x42] 3 (repeat 0xAA 5) 4
  = Ok [0x41; 0x00; 0xAA; 0xAA; 0xAA].
Proof. reflexivity. Qed.
